(** * Request validation of the WOD tracker backend

    A verification development for the request-validation pipeline:
    the Zod schemas of [src/validation/user.schema.ts] and the Express
    middleware of [src/middleware/validate.middleware.ts].

    The schemas are chains of Zod builders.  They are embedded shallowly:
    a schema is the Rocq function that Zod's [_parse] computes for it, and
    every builder of the chain ([z.string()], [.min], [.trim], [.optional],
    [.refine], [z.object], ...) is a Rocq combinator of the same name. *)

From Stdlib Require Import ZArith QArith Ascii String List Bool Lia.
From stdpp Require Import base option list gmap strings pretty.

Local Open Scope string_scope.
Local Open Scope list_scope.
Local Open Scope Z_scope.

(** ** JavaScript values *)

Module Js.

(** A JS number.  Finite numbers are kept as exact rationals (every double
    is one); [parseInt] below rounds to the nearest double itself. *)
Inductive number :=
| NaN
| Num (q : Q)
| Infinity (negative : bool).

Definition of_Z (z : Z) : number := Num (inject_Z z).

(** [a < b], [a <= b], [a > b], [a >= b] of JS: false as soon as one side
    is NaN. *)
Definition lt (a b : number) : bool :=
  match a, b with
  | NaN, _ | _, NaN => false
  | Num p, Num q => negb (Qle_bool q p)
  | Num _, Infinity neg => negb neg
  | Infinity neg, Num _ => neg
  | Infinity n1, Infinity n2 => n1 && negb n2
  end.

Definition le (a b : number) : bool :=
  match a, b with
  | NaN, _ | _, NaN => false
  | Num p, Num q => Qle_bool p q
  | Num _, Infinity neg => negb neg
  | Infinity neg, Num _ => neg
  | Infinity n1, Infinity n2 => n1 || negb n2
  end.

Definition gt (a b : number) : bool := lt b a.
Definition ge (a b : number) : bool := le b a.

Definition isNaN (a : number) : bool :=
  match a with NaN => true | _ => false end.

(** [Number.isInteger]. *)
Definition isInteger (a : number) : bool :=
  match a with
  | Num q => (Qnum q mod Zpos (Qden q) =? 0)%Z
  | _ => false
  end.

(** The double nearest to the integer [z] (ties to even), which is what
    ToNumber and [parseInt] return for an integer literal. *)
Definition double_of_Z (z : Z) : number :=
  let a := Z.abs z in
  if a <? 2 ^ 53 then of_Z z
  else
    let e := Z.log2 a - 52 in
    let q := a / 2 ^ e in
    let r := a mod 2 ^ e in
    let half := 2 ^ (e - 1) in
    let q' := if (half <? r) || ((r =? half) && Z.odd q) then q + 1 else q in
    let v := q' * 2 ^ e in
    if 2 ^ 1024 <=? v then Infinity (z <? 0) else of_Z (Z.sgn z * v).

(** A JSON-compatible value, as a request payload holds it.  [undefined]
    is not a value of its own: a field that is absent (or undefined) is
    [None] wherever a field is read. *)
#[warnings="-register-all"]
Inductive value :=
| VNull
| VBool (b : bool)
| VNum (n : number)
| VStr (s : string)
| VArr (l : list value)
| VObj (m : gmap string value).

(** An integer literal and an object literal. *)
Definition num (z : Z) : value := VNum (of_Z z).

Definition obj (fields : list (string * value)) : option value :=
  Some (VObj (list_to_map fields)).

(** *** Strings

    A character is a code unit below 256, so that a JS string is a
    [string]; [length] is [String.length]. *)

Definition charCode (c : ascii) : Z := Z.of_N (N_of_ascii c).

(** White space of [String.prototype.trim], [parseInt] and the regex class
    [\s]: TAB, LF, VT, FF, CR, SP and NBSP. *)
Definition is_ws (c : ascii) : bool :=
  let n := charCode c in
  ((9 <=? n) && (n <=? 13)) || (n =? 32) || (n =? 160).

Fixpoint trimStart (s : string) : string :=
  match s with
  | String c s' => if is_ws c then trimStart s' else s
  | EmptyString => EmptyString
  end.

Fixpoint trimEnd (s : string) : string :=
  match s with
  | String c s' =>
      match trimEnd s' with
      | EmptyString => if is_ws c then EmptyString else String c EmptyString
      | t => String c t
      end
  | EmptyString => EmptyString
  end.

Definition trim (s : string) : string := trimEnd (trimStart s).

Definition lower_char (c : ascii) : ascii :=
  let n := charCode c in
  if ((65 <=? n) && (n <=? 90))
     || ((192 <=? n) && (n <=? 222) && negb (n =? 215))
  then ascii_of_N (Z.to_N (n + 32)) else c.

Fixpoint toLowerCase (s : string) : string :=
  match s with
  | String c s' => String (lower_char c) (toLowerCase s')
  | EmptyString => EmptyString
  end.

(** *** parseInt(s, 10) *)

Definition digit_of (c : ascii) : option Z :=
  let n := charCode c in
  if (48 <=? n) && (n <=? 57) then Some (n - 48) else None.

(** The value of the longest prefix of decimal digits, [None] when the
    string does not start with a digit. *)
Fixpoint digits_from (acc : Z) (s : string) : Z :=
  match s with
  | String c s' =>
      match digit_of c with
      | Some d => digits_from (10 * acc + d) s'
      | None => acc
      end
  | EmptyString => acc
  end.

Definition decimal_prefix (s : string) : option Z :=
  match s with
  | String c s' =>
      match digit_of c with
      | Some d => Some (digits_from d s')
      | None => None
      end
  | EmptyString => None
  end.

Definition parseInt (s : string) : number :=
  let t := trimStart s in
  let '(sign, body) :=
    match t with
    | String "-" r => (-1, r)
    | String "+" r => (1, r)
    | _ => (1, t)
    end in
  match decimal_prefix body with
  | None => NaN
  | Some n => double_of_Z (sign * n)
  end.

(** [typeof]-like classification that Zod's [getParsedType] makes. *)
Inductive ZodParsedType :=
| t_string | t_nan | t_number | t_integer | t_float | t_boolean
| t_undefined | t_null | t_array | t_object.

Definition getParsedType (data : option value) : ZodParsedType :=
  match data with
  | None => t_undefined
  | Some VNull => t_null
  | Some (VBool _) => t_boolean
  | Some (VNum n) => if isNaN n then t_nan else t_number
  | Some (VStr _) => t_string
  | Some (VArr _) => t_array
  | Some (VObj _) => t_object
  end.

Definition type_name (t : ZodParsedType) : string :=
  match t with
  | t_string => "string" | t_nan => "nan" | t_number => "number"
  | t_integer => "integer" | t_float => "float" | t_boolean => "boolean"
  | t_undefined => "undefined" | t_null => "null" | t_array => "array"
  | t_object => "object"
  end.

End Js.

(** ** Regular expressions

    The patterns of the schemas are all of the form [/^...$/] without
    flags, so [test] is a match of the whole string.  Matching is by
    Brzozowski derivatives. *)

Module Regex.

Inductive regex :=
| Void
| Eps
| Class (p : ascii -> bool)
| Seq (r1 r2 : regex)
| Alt (r1 r2 : regex)
| Star (r : regex).

(** [r?], [r+], [r{n}], [r{0,n}] and [r{lo,hi}]. *)
Definition Opt (r : regex) : regex := Alt Eps r.
Definition Plus (r : regex) : regex := Seq r (Star r).

Fixpoint Times (n : nat) (r : regex) : regex :=
  match n with
  | O => Eps
  | S n' => Seq r (Times n' r)
  end.

Fixpoint UpTo (n : nat) (r : regex) : regex :=
  match n with
  | O => Eps
  | S n' => Opt (Seq r (UpTo n' r))
  end.

Definition Between (lo hi : nat) (r : regex) : regex :=
  Seq (Times lo r) (UpTo (hi - lo) r).

(** Character classes. *)
Definition range (lo hi : ascii) (c : ascii) : bool :=
  (Js.charCode lo <=? Js.charCode c) && (Js.charCode c <=? Js.charCode hi).

Definition char (a : ascii) (c : ascii) : bool := Js.charCode a =? Js.charCode c.

Definition union (p q : ascii -> bool) (c : ascii) : bool := p c || q c.

Fixpoint nullable (r : regex) : bool :=
  match r with
  | Void => false
  | Eps => true
  | Class _ => false
  | Seq r1 r2 => nullable r1 && nullable r2
  | Alt r1 r2 => nullable r1 || nullable r2
  | Star _ => true
  end.

Fixpoint deriv (c : ascii) (r : regex) : regex :=
  match r with
  | Void => Void
  | Eps => Void
  | Class p => if p c then Eps else Void
  | Seq r1 r2 =>
      if nullable r1 then Alt (Seq (deriv c r1) r2) (deriv c r2)
      else Seq (deriv c r1) r2
  | Alt r1 r2 => Alt (deriv c r1) (deriv c r2)
  | Star r1 => Seq (deriv c r1) (Star r1)
  end.

(** [/^r$/.test(s)]. *)
Fixpoint test (r : regex) (s : string) : bool :=
  match s with
  | EmptyString => nullable r
  | String c s' => test (deriv c r) s'
  end.

(** The words of a pattern. *)
Inductive lang : regex -> string -> Prop :=
| lang_eps : lang Eps EmptyString
| lang_class p c : p c = true -> lang (Class p) (String c EmptyString)
| lang_seq r1 r2 s1 s2 :
    lang r1 s1 -> lang r2 s2 -> lang (Seq r1 r2) (s1 +:+ s2)
| lang_alt_l r1 r2 s : lang r1 s -> lang (Alt r1 r2) s
| lang_alt_r r1 r2 s : lang r2 s -> lang (Alt r1 r2) s
| lang_star_nil r : lang (Star r) EmptyString
| lang_star_app r s1 s2 :
    lang r s1 -> lang (Star r) s2 -> lang (Star r) (s1 +:+ s2).

(** Characters that can start, and that can end, a word of the pattern. *)
Fixpoint first_in (r : regex) (c : ascii) : bool :=
  match r with
  | Void | Eps => false
  | Class p => p c
  | Seq r1 r2 => first_in r1 c || (nullable r1 && first_in r2 c)
  | Alt r1 r2 => first_in r1 c || first_in r2 c
  | Star r1 => first_in r1 c
  end.

Fixpoint last_in (r : regex) (c : ascii) : bool :=
  match r with
  | Void | Eps => false
  | Class p => p c
  | Seq r1 r2 => last_in r2 c || (nullable r2 && last_in r1 c)
  | Alt r1 r2 => last_in r1 c || last_in r2 c
  | Star r1 => last_in r1 c
  end.

End Regex.

(** ** What the schemas take from the runtime and from Zod's internals

    The clock, the [Date] parser, the URL parser and the two format
    patterns that Zod keeps to itself ([.email()] and [.datetime()]) are
    not code of this repository; a schema that uses one takes it from this
    record. *)

Record Runtime := {
  (** [Date.now()] and [new Date().getTime()], in milliseconds. *)
  now : Z;
  (** [new Date(s).getTime()]; [None] for an invalid date (NaN). *)
  Date_parse : string -> option Z;
  (** [new URL(s)] does not throw. *)
  isUrl : string -> bool;
  (** Zod's email pattern matches. *)
  isEmail : string -> bool;
  (** Zod's ISO 8601 datetime pattern (default options) matches. *)
  isDatetime : string -> bool;
}.

(** ** Zod, as far as the schemas use it *)

Module Zod.
Import Js.

Inductive ZodIssueCode :=
| invalid_type
| invalid_enum_value
| invalid_string
| too_small
| too_big
| custom.

#[global] Instance ZodIssueCode_eq_dec : EqDecision ZodIssueCode.
Proof. solve_decision. Defined.

(** An issue, with the properties the middleware reads.  [received] exists
    on [invalid_type] issues, where it is the name of the type found, and on
    [invalid_enum_value] issues, where it is the rejected data. *)
Record ZodIssue := {
  code : ZodIssueCode;
  path : list string;
  message : string;
  received : option value;
}.

Inductive ParseStatus := valid | dirty | aborted.

#[global] Instance ParseStatus_eq_dec : EqDecision ParseStatus.
Proof. solve_decision. Defined.

(** A schema pushes its issues on the list shared by the whole parse
    ([ctx.common.issues]).  [parseAsync] runs every schema in async mode,
    where a ZodEffects ([.refine], [.transform]) runs its function in a
    promise callback: its issue is pushed in a later microtask round than
    the issues found on the way down.  [issues] lists the pushes by round,
    round 0 being the synchronous descent; [settled] is the round in which
    the result is available (0 when [_parse] returns it directly). *)
Record ParseReturn := {
  status : ParseStatus;
  value : option Js.value;
  settled : nat;
  issues : list (list ZodIssue);
}.

Definition ZodType := option Js.value -> ParseReturn.

Definition at_round (n : nat) (i : ZodIssue) : list (list ZodIssue) :=
  replicate n [] ++ [[i]].

Fixpoint merge (a b : list (list ZodIssue)) : list (list ZodIssue) :=
  match a, b with
  | [], _ => b
  | _, [] => a
  | x :: a', y :: b' => (x ++ y) :: merge a' b'
  end.

Definition now_issues (l : list ZodIssue) : list (list ZodIssue) :=
  match l with [] => [] | _ => [l] end.

Definition OK (v : option Js.value) : ParseReturn :=
  {| status := valid; value := v; settled := 0; issues := [] |}.

Definition INVALID (i : ZodIssue) : ParseReturn :=
  {| status := aborted; value := None; settled := 0; issues := [[i]] |}.

(** *** Messages

    The message of an issue is the one given to the check, else the one of
    the schema's error map, else Zod's default.  (The error map that
    [validate] passes to [parseAsync] returns [ctx.defaultError], the
    message found so far, and changes nothing.) *)

Inductive RawCreateParams :=
| no_params
| type_errors (required_error invalid_type_error : string)
| error_map (message : string).

Definition schemaErrorMap (p : RawCreateParams) (c : ZodIssueCode)
    (data : option Js.value) (defaultError : string) : string :=
  match p with
  | no_params => defaultError
  | type_errors required_error invalid_type_error =>
      match c, data with
      | invalid_type, None => required_error
      | invalid_type, Some _ => invalid_type_error
      | _, _ => defaultError
      end
  | error_map m => m
  end.

Definition makeIssue (p : RawCreateParams) (c : ZodIssueCode)
    (data : option Js.value) (msg : option string) (defaultError : string)
    (recv : option Js.value) : ZodIssue :=
  {| code := c; path := [];
     message := match msg with
                | Some m => m
                | None => schemaErrorMap p c data defaultError
                end;
     received := recv |}.

Definition invalid_type_issue (p : RawCreateParams) (expected : string)
    (data : option Js.value) : ZodIssue :=
  let t := getParsedType data in
  makeIssue p invalid_type data None
    (match t with
     | t_undefined => "Required"
     | _ => "Expected " +:+ expected +:+ ", received " +:+ type_name t
     end)
    (Some (VStr (type_name t))).

(** *** z.string() *)

Inductive StringCheck :=
| s_min (n : Z) (msg : option string)
| s_max (n : Z) (msg : option string)
| s_format (validation : string) (ok : string -> bool) (msg : option string)
| s_trim
| s_toLowerCase.

Definition str_length (s : string) : Z := Z.of_nat (String.length s).

Definition string_check (p : RawCreateParams) (c : StringCheck) (s : string)
    : string * list ZodIssue :=
  let data := Some (VStr s) in
  match c with
  | s_min n msg =>
      (s, if str_length s <? n
          then [makeIssue p too_small data msg
                  ("String must contain at least " +:+ pretty n
                   +:+ " character(s)") None]
          else [])
  | s_max n msg =>
      (s, if n <? str_length s
          then [makeIssue p too_big data msg
                  ("String must contain at most " +:+ pretty n
                   +:+ " character(s)") None]
          else [])
  | s_format validation ok msg =>
      (s, if ok s then []
          else [makeIssue p invalid_string data msg
                  (if String.eqb validation "regex" then "Invalid"
                   else "Invalid " +:+ validation) None])
  | s_trim => (Js.trim s, [])
  | s_toLowerCase => (Js.toLowerCase s, [])
  end.

(** The checks run in the order of the chain, each on the string as the
    checks before it left it. *)
Fixpoint string_checks (p : RawCreateParams) (cs : list StringCheck)
    (s : string) : string * list ZodIssue :=
  match cs with
  | [] => (s, [])
  | c :: cs' =>
      let '(s1, i1) := string_check p c s in
      let '(s2, i2) := string_checks p cs' s1 in
      (s2, i1 ++ i2)
  end.

Definition z_string (p : RawCreateParams) (cs : list StringCheck) : ZodType :=
  fun data =>
    match data with
    | Some (VStr s) =>
        let '(s', found) := string_checks p cs s in
        {| status := match found with [] => valid | _ => dirty end;
           value := Some (VStr s');
           settled := 0;
           issues := now_issues found |}
    | _ => INVALID (invalid_type_issue p "string" data)
    end.

(** The builders of the chain. *)
Definition min (n : Z) (msg : string) : StringCheck := s_min n (Some msg).
Definition max (n : Z) (msg : string) : StringCheck := s_max n (Some msg).
Definition regex (r : Regex.regex) (msg : string) : StringCheck :=
  s_format "regex" (Regex.test r) (Some msg).
Definition email (rt : Runtime) (msg : string) : StringCheck :=
  s_format "email" (isEmail rt) (Some msg).
Definition url (rt : Runtime) (msg : string) : StringCheck :=
  s_format "url" (isUrl rt) (Some msg).
Definition datetime (rt : Runtime) (msg : string) : StringCheck :=
  s_format "datetime" (isDatetime rt) (Some msg).
Definition trim : StringCheck := s_trim.
Definition toLowerCase : StringCheck := s_toLowerCase.

(** *** z.number() *)

Inductive NumberCheck :=
| n_int (msg : option string)
| n_min (bound : Z) (inclusive : bool) (msg : option string)
| n_max (bound : Z) (inclusive : bool) (msg : option string).

Definition number_check (p : RawCreateParams) (c : NumberCheck) (n : number)
    : list ZodIssue :=
  let data := Some (VNum n) in
  match c with
  | n_int msg =>
      if isInteger n then []
      else [makeIssue p invalid_type data msg
              "Expected integer, received float" (Some (VStr "float"))]
  | n_min bound inclusive msg =>
      let tooSmall :=
        if inclusive then Js.lt n (of_Z bound) else Js.le n (of_Z bound) in
      if tooSmall
      then [makeIssue p too_small data msg
              ("Number must be greater than "
               +:+ (if inclusive then "or equal to " else "")
               +:+ pretty bound) None]
      else []
  | n_max bound inclusive msg =>
      let tooBig :=
        if inclusive then Js.gt n (of_Z bound) else Js.ge n (of_Z bound) in
      if tooBig
      then [makeIssue p too_big data msg
              ("Number must be less than "
               +:+ (if inclusive then "or equal to " else "")
               +:+ pretty bound) None]
      else []
  end.

Definition z_number (p : RawCreateParams) (cs : list NumberCheck) : ZodType :=
  fun data =>
    match getParsedType data, data with
    | t_number, Some (VNum n) =>
        let found := concat (map (fun c => number_check p c n) cs) in
        {| status := match found with [] => valid | _ => dirty end;
           value := data;
           settled := 0;
           issues := now_issues found |}
    | _, _ => INVALID (invalid_type_issue p "number" data)
    end.

Definition int (msg : option string) : NumberCheck := n_int msg.
Definition positive (msg : string) : NumberCheck := n_min 0 false (Some msg).
Definition gte (bound : Z) (msg : string) : NumberCheck :=
  n_min bound true (Some msg).
Definition lte (bound : Z) (msg : string) : NumberCheck :=
  n_max bound true (Some msg).

(** *** z.boolean() and z.enum() *)

Definition z_boolean (p : RawCreateParams) : ZodType :=
  fun data =>
    match data with
    | Some (VBool _) => OK data
    | _ => INVALID (invalid_type_issue p "boolean" data)
    end.

Definition joinValues (values : list string) : string :=
  String.concat " | " (map (fun v => "'" +:+ v +:+ "'") values).

Definition z_enum (values : list string) (p : RawCreateParams) : ZodType :=
  fun data =>
    match data with
    | Some (VStr s) =>
        if bool_decide (s ∈ values) then OK data
        else INVALID (makeIssue p invalid_enum_value data None
                        ("Invalid enum value. Expected " +:+ joinValues values
                         +:+ ", received '" +:+ s +:+ "'") data)
    | _ => INVALID (invalid_type_issue p (joinValues values) data)
    end.

(** *** .optional(), .nullable(), .default() *)

Definition optional (inner : ZodType) : ZodType :=
  fun data =>
    match data with
    | None => OK None
    | _ => inner data
    end.

Definition nullable (inner : ZodType) : ZodType :=
  fun data =>
    match data with
    | Some VNull => OK (Some VNull)
    | _ => inner data
    end.

Definition default (defaultValue : Js.value) (inner : ZodType) : ZodType :=
  fun data =>
    match data with
    | None => inner (Some defaultValue)
    | _ => inner data
    end.

(** *** .refine() and .transform()

    In async mode a ZodEffects calls [_parseAsync] on the schema it wraps
    and continues in [.then]: the callback runs one round after the inner
    result is there.  When the callback answers with a promise (it ran the
    refinement or the transform) the outer promise settles two rounds
    after the callback; when it answers with a plain result (nothing to
    run) it settles in the round of the callback. *)

Definition refine (check : option Js.value -> bool) (msg : string)
    (inner : ZodType) : ZodType :=
  fun data =>
    let r := inner data in
    let round := S (settled r) in
    match status r with
    | aborted =>
        {| status := aborted; value := None; settled := round;
           issues := issues r |}
    | st =>
        if check (value r)
        then {| status := st; value := value r; settled := round + 2;
                issues := issues r |}
        else {| status := dirty; value := value r; settled := round + 2;
                issues :=
                  merge (issues r)
                    (at_round round
                       (makeIssue no_params custom (value r) (Some msg)
                          "Invalid input" None)) |}
    end.

Definition transform (f : option Js.value -> option Js.value)
    (inner : ZodType) : ZodType :=
  fun data =>
    let r := inner data in
    let round := S (settled r) in
    match status r with
    | valid =>
        {| status := valid; value := f (value r); settled := round + 2;
           issues := issues r |}
    | _ =>
        {| status := status r; value := value r; settled := round;
           issues := issues r |}
    end.

(** *** z.object()

    An object schema in its default mode: keys outside the shape are
    neither checked nor copied. *)

Record ZodObject := z_object { shape : list (string * ZodType) }.

Definition with_key (key : string) (i : ZodIssue) : ZodIssue :=
  {| code := code i; path := key :: path i; message := message i;
     received := received i |}.

(** [_parse] calls the [_parse] of every field, in the order of the shape,
    before it looks at any result. *)
Definition parse_pairs (o : ZodObject) (m : gmap string Js.value)
    : list (string * ParseReturn) :=
  map (fun '(key, t) => (key, t (m !! key))) (shape o).

(** The shared issue list at the end of the parse: round after round, and
    within a round in the order of the fields. *)
Definition pushed (pairs : list (string * ParseReturn)) : list ZodIssue :=
  concat
    (foldr merge []
       (map (fun '(key, r) => map (map (with_key key)) (issues r)) pairs)).

(** [ParseStatus.mergeObjectSync].  A key gets a property when its value
    is not undefined.  ([alwaysSet] asks for the property also when the key
    is in the data with the value undefined, which no parsed JSON body and
    no query string has.) *)
Fixpoint mergeObjectSync (st : ParseStatus) (pairs : list (string * ParseReturn))
    (finalObject : gmap string Js.value) : ParseStatus * option Js.value :=
  match pairs with
  | [] => (st, Some (VObj finalObject))
  | (key, r) :: rest =>
      match status r with
      | aborted => (aborted, None)
      | s =>
          mergeObjectSync
            (match s with dirty => dirty | _ => st end)
            rest
            (match value r with
             | Some v =>
                 if String.eqb key "__proto__" then finalObject
                 else <[key := v]> finalObject
             | None => finalObject
             end)
      end
  end.

Definition parse_object (o : ZodObject) (data : option Js.value)
    : (ParseStatus * option Js.value) * list ZodIssue :=
  match data with
  | Some (VObj m) =>
      let pairs := parse_pairs o m in
      (mergeObjectSync valid pairs ∅, pushed pairs)
  | _ => ((aborted, None), [invalid_type_issue no_params "object" data])
  end.

(** *** parseAsync *)

(** A [ZodError] holds at least one issue: [handleResult] throws a plain
    [Error] when a parse fails without any. *)
Record ZodError := { first_error : ZodIssue; more_errors : list ZodIssue }.

Definition errors (e : ZodError) : list ZodIssue :=
  first_error e :: more_errors e.

(** How the promise of [parseAsync] settles. *)
Inductive Settled :=
| Resolved (data : option Js.value)
| Rejected (error : ZodError)
| Threw (text : string).

Definition handleResult (r : (ParseStatus * option Js.value) * list ZodIssue)
    : Settled :=
  match r with
  | ((valid, v), _) => Resolved v
  | (_, i :: rest) => Rejected {| first_error := i; more_errors := rest |}
  | (_, []) => Threw "Validation failed but no issues detected."
  end.

(** A schema as the middleware sees it: its [parseAsync]. *)
Definition ZodSchema := option Js.value -> Settled.

Definition parseAsync (o : ZodObject) : ZodSchema :=
  fun data => handleResult (parse_object o data).

End Zod.

(** ** The schemas of [user.schema.ts] *)

(** A builder chain [s.f(a).g(b)] is written [s |> f a |> g b]. *)
Notation "x |> f" := (f x) (at level 45, left associativity, only parsing).

Import Js Zod.

(** *** Enum schemas *)

Definition userRoleSchema : ZodType :=
  z_enum ["athlete"; "coach"; "admin"]
    (error_map "Role must be athlete, coach, or admin").

Definition userLevelSchema : ZodType :=
  z_enum ["scaled"; "intermediate"; "rx"]
    (error_map "Level must be scaled, intermediate, or rx").

Definition userGenderSchema : ZodType :=
  z_enum ["male"; "female"; "other"]
    (error_map "Gender must be male, female, or other").

Definition userLanguageSchema : ZodType :=
  z_enum ["uk"; "en"; "ru"] (error_map "Language must be uk, en, or ru").

Definition payoutMethodSchema : ZodType :=
  z_enum ["bank_transfer"; "paypal"; "stripe"]
    (error_map "Payout method must be bank_transfer, paypal, or stripe").

(** *** The patterns *)

Module Patterns.
Import Regex.

Fixpoint Cat (rs : list regex) : regex :=
  match rs with
  | [] => Eps
  | [r] => r
  | r :: rs' => Seq r (Cat rs')
  end.

Definition digit : ascii -> bool := range "0" "9".

(** [[a-zA-Z0-9_]] *)
Definition word : ascii -> bool :=
  union (range "a" "z") (union (range "A" "Z") (union digit (char "_"))).

(** [[A-Za-z_]] *)
Definition letter_ : ascii -> bool :=
  union (range "A" "Z") (union (range "a" "z") (char "_")).

(** [[-\s.]] *)
Definition separator : ascii -> bool :=
  union (char "-") (union Js.is_ws (char ".")).

(** [/^[a-zA-Z0-9_]+$/] *)
Definition username_re : regex := Plus (Class word).

(** [/^[+]?[(]?[0-9]{1,4}[)]?[-\s.]?[(]?[0-9]{1,4}[)]?[-\s.]?[0-9]{1,9}$/] *)
Definition phone_re : regex :=
  Cat [Opt (Class (char "+")); Opt (Class (char "("));
       Between 1 4 (Class digit); Opt (Class (char ")"));
       Opt (Class separator); Opt (Class (char "("));
       Between 1 4 (Class digit); Opt (Class (char ")"));
       Opt (Class separator); Between 1 9 (Class digit)].

(** [/^[A-Za-z_]+\/[A-Za-z_]+$/] *)
Definition timezone_re : regex :=
  Cat [Plus (Class letter_); Class (char "/"); Plus (Class letter_)].

(** [/^[a-f0-9]{64}$/] *)
Definition hash_re : regex :=
  Times 64 (Class (union (range "a" "f") digit)).

End Patterns.

(** *** Reusable field schemas *)

Definition emailSchema (rt : Runtime) : ZodType :=
  z_string no_params
    [email rt "Invalid email format";
     max 255 "Email must be at most 255 characters";
     toLowerCase;
     trim].

Definition phoneNumberSchema : ZodType :=
  z_string no_params
    [min 10 "Phone number must be at least 10 characters";
     max 20 "Phone number must be at most 20 characters";
     regex Patterns.phone_re "Invalid phone number format";
     trim].

Definition urlSchema (rt : Runtime) : ZodType :=
  z_string no_params
    [url rt "Invalid URL format";
     max 2048 "URL must be at most 2048 characters"].

Definition timezoneSchema : ZodType :=
  z_string no_params
    [min 1 "Timezone is required";
     max 50 "Timezone must be at most 50 characters";
     regex Patterns.timezone_re
       "Timezone must be in IANA format (e.g., Europe/Kiev)"].

(** [new Date(date) <= new Date()] *)
Definition not_in_future (rt : Runtime) (v : option Js.value) : bool :=
  match v with
  | Some (VStr date) =>
      match Date_parse rt date with
      | Some t => t <=? now rt
      | None => false
      end
  | _ => false
  end.

(** [(new Date().getTime() - birthDate.getTime())
      / (1000 * 60 * 60 * 24 * 365.25) <= 120].  The quotient is taken
    exactly: that of the doubles lies on the same side of 120. *)
Definition age_at_most_120 (rt : Runtime) (v : option Js.value) : bool :=
  match v with
  | Some (VStr date) =>
      match Date_parse rt date with
      | Some t =>
          let age :=
            (inject_Z (now rt - t) / (1000 * 60 * 60 * 24 * 365.25))%Q in
          Qle_bool age 120
      | None => false
      end
  | _ => false
  end.

Definition dateOfBirthSchema (rt : Runtime) : ZodType :=
  z_string no_params
    [datetime rt "Date of birth must be a valid ISO 8601 date"]
  |> refine (not_in_future rt) "Date of birth cannot be in the future"
  |> refine (age_at_most_120 rt)
       "Date of birth seems invalid (age > 120 years)".

(** *** createUserSchema *)

Definition createUserSchema (rt : Runtime) : ZodObject :=
  z_object [
    ("id",
     z_number (type_errors "User ID is required" "User ID must be a number")
       [int (Some "User ID must be an integer");
        positive "User ID must be positive"]);
    ("first_name",
     z_string
       (type_errors "First name is required" "First name must be a string")
       [min 1 "First name must be at least 1 character";
        max 100 "First name must be at most 100 characters";
        trim]);
    ("username",
     z_string no_params
       [min 3 "Username must be at least 3 characters";
        max 50 "Username must be at most 50 characters";
        regex Patterns.username_re
          "Username can only contain letters, numbers, and underscores";
        trim]
     |> optional |> nullable);
    ("last_name",
     z_string no_params
       [max 100 "Last name must be at most 100 characters"; trim]
     |> optional |> nullable);
    ("photo_url", urlSchema rt |> optional |> nullable);
    ("role", userRoleSchema |> optional);
    ("language", userLanguageSchema |> optional)
  ].

(** *** updateUserSchema *)

Definition updateUserSchema (rt : Runtime) : ZodObject :=
  z_object [
    ("id",
     z_number no_params [int None; positive "User ID must be positive"]);
    ("username",
     z_string no_params
       [min 3 "Username must be at least 3 characters";
        max 50 "Username must be at most 50 characters";
        regex Patterns.username_re
          "Username can only contain letters, numbers, and underscores";
        trim]
     |> optional |> nullable);
    ("first_name",
     z_string no_params
       [min 1 "First name must be at least 1 character";
        max 100 "First name must be at most 100 characters";
        trim]
     |> optional);
    ("last_name",
     z_string no_params
       [max 100 "Last name must be at most 100 characters"; trim]
     |> optional |> nullable);
    ("photo_url", urlSchema rt |> optional |> nullable);
    ("email", emailSchema rt |> optional |> nullable);
    ("phone_number", phoneNumberSchema |> optional |> nullable);
    ("level", userLevelSchema |> optional);
    ("height_cm",
     z_number no_params
       [int (Some "Height must be an integer");
        gte 50 "Height must be at least 50 cm";
        lte 250 "Height must be at most 250 cm"]
     |> optional |> nullable);
    ("weight_kg",
     z_number no_params
       [gte 20 "Weight must be at least 20 kg";
        lte 300 "Weight must be at most 300 kg"]
     |> optional |> nullable);
    ("date_of_birth", dateOfBirthSchema rt |> optional |> nullable);
    ("gender", userGenderSchema |> optional |> nullable);
    ("experience_years",
     z_number no_params
       [int (Some "Experience years must be an integer");
        gte 0 "Experience years cannot be negative";
        lte 80 "Experience years must be at most 80"]
     |> optional |> nullable);
    ("goals",
     z_string no_params
       [max 1000 "Goals must be at most 1000 characters"; trim]
     |> optional |> nullable);
    ("injuries",
     z_string no_params
       [max 1000 "Injuries must be at most 1000 characters"; trim]
     |> optional |> nullable);
    ("notes",
     z_string no_params
       [max 2000 "Notes must be at most 2000 characters"; trim]
     |> optional |> nullable);
    ("language", userLanguageSchema |> optional);
    ("timezone", timezoneSchema |> optional);
    ("notifications_enabled", z_boolean no_params |> optional);
    ("bank_account_number",
     z_string no_params
       [min 8 "Bank account number must be at least 8 characters";
        max 34 "Bank account number must be at most 34 characters";
        trim]
     |> optional |> nullable);
    ("bank_account_holder",
     z_string no_params
       [min 2 "Bank account holder name must be at least 2 characters";
        max 100 "Bank account holder name must be at most 100 characters";
        trim]
     |> optional |> nullable);
    ("bank_name",
     z_string no_params
       [min 2 "Bank name must be at least 2 characters";
        max 100 "Bank name must be at most 100 characters";
        trim]
     |> optional |> nullable);
    ("paypal_email", emailSchema rt |> optional |> nullable);
    ("payout_method", payoutMethodSchema |> optional |> nullable)
  ].

(** *** loginSchema *)

(** The refinement of [auth_date]:
    [const now = Math.floor(Date.now() / 1000);
     const fiveMinutesAgo = now - 300;
     return timestamp >= fiveMinutesAgo && timestamp <= now + 60;] *)
Definition auth_date_in_window (rt : Runtime) (v : option Js.value) : bool :=
  match v with
  | Some (VNum timestamp) =>
      let now := now rt / 1000 in
      let fiveMinutesAgo := now - 300 in
      Js.ge timestamp (of_Z fiveMinutesAgo) && Js.le timestamp (of_Z (now + 60))
  | _ => false
  end.

Definition loginSchema (rt : Runtime) : ZodObject :=
  z_object [
    ("id",
     z_number
       (type_errors "Telegram ID is required" "Telegram ID must be a number")
       [int (Some "Telegram ID must be an integer");
        positive "Telegram ID must be positive"]);
    ("first_name",
     z_string
       (type_errors "First name is required" "First name must be a string")
       [min 1 "First name must be at least 1 character";
        max 100 "First name must be at most 100 characters";
        trim]);
    ("username",
     z_string no_params
       [min 3 "Username must be at least 3 characters";
        max 50 "Username must be at most 50 characters";
        trim]
     |> optional);
    ("last_name",
     z_string no_params
       [max 100 "Last name must be at most 100 characters"; trim]
     |> optional);
    ("photo_url", urlSchema rt |> optional);
    ("auth_date",
     z_number
       (type_errors "Authentication date is required"
          "Authentication date must be a number")
       [int (Some "Authentication date must be an integer");
        positive "Authentication date must be positive"]
     |> refine (auth_date_in_window rt)
          "Authentication date is invalid or expired");
    ("hash",
     z_string
       (type_errors "Authentication hash is required" "Hash must be a string")
       [min 64 "Invalid hash format";
        max 64 "Invalid hash format";
        regex Patterns.hash_re "Hash must be a valid SHA-256 hex string"])
  ].

(** *** createUserRecordSchema *)

Definition createUserRecordSchema (rt : Runtime) : ZodObject :=
  z_object [
    ("exercise_name",
     z_string
       (type_errors "Exercise name is required"
          "Exercise name must be a string")
       [min 1 "Exercise name must be at least 1 character";
        max 100 "Exercise name must be at most 100 characters";
        trim]);
    ("record_type",
     z_string
       (type_errors "Record type is required" "Record type must be a string")
       [min 1 "Record type must be at least 1 character";
        max 50 "Record type must be at most 50 characters";
        trim]);
    ("value",
     z_number
       (type_errors "Record value is required" "Record value must be a number")
       [positive "Record value must be positive";
        lte 100000 "Record value seems unreasonably high"]);
    ("unit",
     z_string no_params [max 20 "Unit must be at most 20 characters"; trim]
     |> optional);
    ("achieved_at",
     z_string no_params
       [datetime rt "Achieved date must be a valid ISO 8601 date"]
     |> refine (not_in_future rt) "Achieved date cannot be in the future"
     |> optional)
  ].

(** *** paginationQuerySchema *)

(** [(val) => parseInt(val, 10)]; the schema below it only yields
    strings. *)
Definition parseInt10 (val : option Js.value) : option Js.value :=
  match val with
  | Some (VStr s) => Some (VNum (parseInt s))
  | _ => Some (VNum NaN)
  end.

(** [(val) => !isNaN(val) && val > 0] *)
Definition page_ok (val : option Js.value) : bool :=
  match val with
  | Some (VNum n) => negb (isNaN n) && Js.gt n (of_Z 0)
  | _ => false
  end.

(** [(val) => !isNaN(val) && val > 0 && val <= 100] *)
Definition limit_ok (val : option Js.value) : bool :=
  match val with
  | Some (VNum n) => negb (isNaN n) && Js.gt n (of_Z 0) && Js.le n (of_Z 100)
  | _ => false
  end.

Definition paginationQuerySchema : ZodObject :=
  z_object [
    ("page",
     z_string no_params []
     |> optional
     |> default (VStr "1")
     |> transform parseInt10
     |> refine page_ok "Page must be a positive number");
    ("limit",
     z_string no_params []
     |> optional
     |> default (VStr "10")
     |> transform parseInt10
     |> refine limit_ok "Limit must be between 1 and 100");
    ("sortBy", z_string no_params [s_max 50 None] |> optional);
    ("order", z_enum ["asc"; "desc"] no_params |> optional |> default (VStr "asc"))
  ].

(** The request shapes of [userSchemas]. *)
Definition userSchemas (rt : Runtime) : list (string * ZodObject) :=
  [("createUser", createUserSchema rt);
   ("updateUser", updateUserSchema rt);
   ("login", loginSchema rt);
   ("createUserRecord", createUserRecordSchema rt);
   ("paginationQuery", paginationQuerySchema)].

(** ** The middleware of [validate.middleware.ts] *)

(** [ApiErrorCode] of [api.types.ts]. *)
Inductive ApiErrorCode :=
| UNAUTHORIZED | INVALID_TOKEN | TOKEN_EXPIRED | TELEGRAM_AUTH_FAILED
| FORBIDDEN | INSUFFICIENT_PERMISSIONS
| NOT_FOUND | USER_NOT_FOUND | WORKOUT_NOT_FOUND | COMMUNITY_NOT_FOUND
| VALIDATION_ERROR | INVALID_INPUT | MISSING_REQUIRED_FIELD
| ALREADY_EXISTS | USER_ALREADY_EXISTS | DUPLICATE_ENTRY
| INTERNAL_ERROR | DATABASE_ERROR | EXTERNAL_SERVICE_ERROR.

Module Middleware.

Inductive ValidationTarget := Body | Params | Query.

Record ValidationOptions := {
  stripUnknown : option bool;
  abortEarly : option bool;
}.

(** The three payloads of an Express request. *)
Record Request := {
  body : option Js.value;
  params : option Js.value;
  query : option Js.value;
}.

(** [req[target]] and [req[target] = v], the latter where the payload is a
    plain property of the request (for other requests see [Host]
    below). *)
Definition get (target : ValidationTarget) (req : Request) : option Js.value :=
  match target with
  | Body => body req
  | Params => params req
  | Query => query req
  end.

Definition set (target : ValidationTarget) (v : option Js.value)
    (req : Request) : Request :=
  match target with
  | Body => {| body := v; params := params req; query := query req |}
  | Params => {| body := body req; params := v; query := query req |}
  | Query => {| body := body req; params := params req; query := v |}
  end.

(** The JSON of an error response.  A property whose value is undefined
    is not serialised: [value] and [details] are options. *)
Record Detail := {
  field : string;
  message : string;
  value : option Js.value;
}.

Record ErrorBody := {
  success : bool;
  error_message : string;
  error_code : ApiErrorCode;
  error_details : option (list Detail);
}.

Record Response := {
  statusCode : Z;
  json : ErrorBody;
}.

(** What a handler has done when its promise settles: called [next()]
    with the request as it left it, or sent a response. *)
Inductive Outcome :=
| Next (req : Request)
| Sent (req : Request) (res : Response).

(** The part of [process.env] that the server reads.  A handler runs with
    it at hand; the two middlewares never look at it. *)
Record ProcessEnv := { NODE_ENV : option string }.

(** [err.path.join('.')] *)
Definition join_path (path : list string) : string := String.concat "." path.

(** [{ field: err.path.join('.'), message: err.message,
       value: err.code === 'invalid_type' ? undefined : err.received }] *)
Definition format_error (err : Zod.ZodIssue) : Detail :=
  {| field := join_path (Zod.path err);
     message := Zod.message err;
     value := if decide (Zod.code err = Zod.invalid_type) then None
              else Zod.received err |}.

Definition validation_failed (details : list Detail) : Response :=
  {| statusCode := 400;
     json := {| success := false;
                error_message := "Validation failed";
                error_code := VALIDATION_ERROR;
                error_details := Some details |} |}.

Definition internal_error : Response :=
  {| statusCode := 500;
     json := {| success := false;
                error_message := "Internal validation error";
                error_code := INTERNAL_ERROR;
                error_details := None |} |}.

Definition validate (schema : Zod.ZodSchema) (target : ValidationTarget)
    (options : ValidationOptions) (env : ProcessEnv) (req : Request)
    : Outcome :=
  let abortEarly :=
    match abortEarly options with Some b => b | None => false end in
  let dataToValidate := get target req in
  match schema dataToValidate with
  | Zod.Resolved validated => Next (set target validated req)
  | Zod.Rejected error =>
      let validationErrors := map format_error (Zod.errors error) in
      Sent req
        (validation_failed
           (if abortEarly then [format_error (Zod.first_error error)]
            else validationErrors))
  | Zod.Threw _ => Sent req internal_error
  end.

Definition no_options : ValidationOptions :=
  {| stripUnknown := None; abortEarly := None |}.

Definition validateBody (schema : Zod.ZodSchema) := validate schema Body no_options.
Definition validateParams (schema : Zod.ZodSchema) := validate schema Params no_options.
Definition validateQuery (schema : Zod.ZodSchema) := validate schema Query no_options.

(** *** validateMultiple *)

Record Schemas := {
  for_body : option Zod.ZodSchema;
  for_params : option Zod.ZodSchema;
  for_query : option Zod.ZodSchema;
}.

(** [validationPromises] zipped with [targets]: [parseAsync] is called on
    every schema provided, in this order, before anything is awaited. *)
Definition validationPromises (schemas : Schemas) (req : Request)
    : list (ValidationTarget * Zod.Settled) :=
  match for_body schemas with
  | Some s => [(Body, s (body req))]
  | None => []
  end
  ++ match for_params schemas with
     | Some s => [(Params, s (params req))]
     | None => []
     end
  ++ match for_query schemas with
     | Some s => [(Query, s (query req))]
     | None => []
     end.

Definition is_rejection (p : ValidationTarget * Zod.Settled) : bool :=
  match p.2 with
  | Zod.Resolved _ => false
  | _ => true
  end.

(** [results.forEach((result, index) => req[targets[index]] = result)] *)
Fixpoint commit (results : list (ValidationTarget * Zod.Settled))
    (req : Request) : Request :=
  match results with
  | (target, Zod.Resolved result) :: rest => commit rest (set target result req)
  | _ :: rest => commit rest req
  | [] => req
  end.

(** [Promise.all] rejects with the reason of the promise that rejects
    first.  Which of several rejecting parses that is depends on how many
    microtask rounds each takes; [race] stands for it: the rejected
    promise of that rank, in the order of the list, was first. *)
Definition validateMultiple (schemas : Schemas) (race : nat)
    (env : ProcessEnv) (req : Request) : Outcome :=
  let promises := validationPromises schemas req in
  match filter (fun p => is_rejection p = true) promises with
  | [] => Next (commit promises req)
  | r :: rs =>
      match (nth (race mod (S (length rs))) (r :: rs) r).2 with
      | Zod.Rejected error =>
          Sent req (validation_failed (map format_error (Zod.errors error)))
      | _ => Sent req internal_error
      end
  end.

(** *** Hosts that refuse an assignment

    [validate] and [validateMultiple] above are the handlers on a request
    whose three payloads are plain properties, which an assignment
    replaces.  A host can define a payload by a getter alone, as Express 5
    does for [req.query]: the assignment [req[target] = validated], made in
    strict mode inside the [try] block, then throws a [TypeError], and the
    [catch] block answers it as it answers any fault that is no
    [ZodError].  The handlers below take the host into account. *)

Record Host := { writable : ValidationTarget -> bool }.

Definition validate_on (host : Host) (schema : Zod.ZodSchema)
    (target : ValidationTarget) (options : ValidationOptions)
    (env : ProcessEnv) (req : Request) : Outcome :=
  let abortEarly :=
    match abortEarly options with Some b => b | None => false end in
  let dataToValidate := get target req in
  match schema dataToValidate with
  | Zod.Resolved validated =>
      if writable host target then Next (set target validated req)
      else Sent req internal_error
  | Zod.Rejected error =>
      let validationErrors := map format_error (Zod.errors error) in
      Sent req
        (validation_failed
           (if abortEarly then [format_error (Zod.first_error error)]
            else validationErrors))
  | Zod.Threw _ => Sent req internal_error
  end.

(** The [forEach] of [validateMultiple]: the assignments are made in the
    order of the targets and stop at the first that throws; the request
    keeps those made before.  The boolean tells whether all were made. *)
Fixpoint commit_on (host : Host) (results : list (ValidationTarget * Zod.Settled))
    (req : Request) : Request * bool :=
  match results with
  | (target, Zod.Resolved result) :: rest =>
      if writable host target then commit_on host rest (set target result req)
      else (req, false)
  | _ :: rest => commit_on host rest req
  | [] => (req, true)
  end.

Definition validateMultiple_on (host : Host) (schemas : Schemas) (race : nat)
    (env : ProcessEnv) (req : Request) : Outcome :=
  let promises := validationPromises schemas req in
  match filter (fun p => is_rejection p = true) promises with
  | [] =>
      match commit_on host promises req with
      | (req', true) => Next req'
      | (req', false) => Sent req' internal_error
      end
  | r :: rs =>
      match (nth (race mod (S (length rs))) (r :: rs) r).2 with
      | Zod.Rejected error =>
          Sent req (validation_failed (map format_error (Zod.errors error)))
      | _ => Sent req internal_error
      end
  end.

End Middleware.

(** ** The server of [index.ts] *)

Module Server.
Import Middleware.

(** An [Error], with the two properties the server reads. *)
Record Error := {
  err_message : string;
  err_stack : option string;
}.

(** [{ success, error: { message, code, stack } }]; [stack] is not
    serialised when it is not spread into the object or is undefined. *)
Record ErrorJson := {
  success : bool;
  message : string;
  code : string;
  stack : option string;
}.

Record Response := {
  statusCode : Z;
  json : ErrorJson;
}.

(** [process.env.NODE_ENV === mode] *)
Definition node_env_is (env : ProcessEnv) (mode : string) : bool :=
  match NODE_ENV env with
  | Some v => String.eqb v mode
  | None => false
  end.

(** The request logger is installed when the server starts with
    [process.env.NODE_ENV === 'development']. *)
Definition requestLogging (env : ProcessEnv) : bool :=
  node_env_is env "development".

(** [process.env.NODE_ENV || 'development'], the environment that
    [/health] reports. *)
Definition environment (env : ProcessEnv) : string :=
  match NODE_ENV env with
  | Some v => if String.eqb v "" then "development" else v
  | None => "development"
  end.

(** The handler of unmatched routes. *)
Definition notFoundHandler : Response :=
  {| statusCode := 404;
     json := {| success := false;
                message := "Endpoint not found";
                code := "NOT_FOUND";
                stack := None |} |}.

(** The global error handler. *)
Definition globalErrorHandler (env : ProcessEnv) (err : Error) : Response :=
  {| statusCode := 500;
     json := {| success := false;
                message := if node_env_is env "production"
                           then "Internal server error"
                           else err_message err;
                code := "INTERNAL_ERROR";
                stack := if node_env_is env "development"
                         then err_stack err
                         else None |} |}.

End Server.

(** ** The union types and type guards of [database.types.ts] *)

Module Database.

Definition UserRole : list string := ["athlete"; "coach"; "admin"].
Definition UserLevel : list string := ["scaled"; "intermediate"; "rx"].
Definition UserGender : list string := ["male"; "female"; "other"].
Definition UserLanguage : list string := ["uk"; "en"; "ru"].
Definition PayoutMethod : list string := ["bank_transfer"; "paypal"; "stripe"].

(** [user.role === role], on a user as the object it is at run time. *)
Definition role_is (user : gmap string Js.value) (role : string) : bool :=
  match user !! "role" with
  | Some (VStr s) => String.eqb s role
  | _ => false
  end.

Definition isCoach (user : gmap string Js.value) : bool :=
  role_is user "coach".

Definition isAdmin (user : gmap string Js.value) : bool :=
  role_is user "admin".

Definition hasElevatedPrivileges (user : gmap string Js.value) : bool :=
  role_is user "coach" || role_is user "admin".

End Database.

(** ** A runtime for worked examples

    A clock fixed at 2023-11-14T22:13:20Z, a [Date] that reads two
    dates, and simple stand-ins for the format checks. *)

Module Example.

Definition contains (c : ascii) (s : string) : bool :=
  existsb (fun x => Ascii.eqb x c) (list_ascii_of_string s).

Definition no_space (s : string) : bool :=
  forallb (fun x => negb (Js.is_ws x)) (list_ascii_of_string s).

Definition runtime : Runtime :=
  {| now := 1700000000000;
     Date_parse := fun s =>
       if String.eqb s "2000-01-01T00:00:00Z" then Some 946684800000
       else if String.eqb s "2100-01-01T00:00:00Z" then Some 4102444800000
       else None;
     isUrl := fun s => String.prefix "http://" s || String.prefix "https://" s;
     isEmail := fun s =>
       contains "@" s && no_space s && String.eqb (Js.toLowerCase s) s;
     isDatetime := fun s =>
       String.eqb s "2000-01-01T00:00:00Z"
       || String.eqb s "2100-01-01T00:00:00Z" |}.

End Example.

(** * The vocabulary of the statements *)

Import Middleware.

(** The key under which an object schema reported an issue. *)
Definition issue_key (i : ZodIssue) : string :=
  match path i with
  | key :: _ => key
  | [] => ""
  end.

(** The issues of a field under its key, round by round. *)
Definition rounds_of (p : string * ParseReturn) : list (list ZodIssue) :=
  map (map (with_key p.1)) (issues p.2).

(** The issues found on the way down, before any promise callback ran. *)
Definition direct_issues (pairs : list (string * ParseReturn)) : list ZodIssue :=
  concat (map (fun p => map (with_key p.1) (hd [] (issues p.2))) pairs).

(** The issues that promise callbacks pushed. *)
Definition deferred_issues (pairs : list (string * ParseReturn)) : list ZodIssue :=
  concat (foldr merge [] (map (fun p => tl (rounds_of p)) pairs)).

(** [l] without the occurrences of [k] at its start. *)
Fixpoint skip_key (k : string) (l : list string) : list string :=
  match l with
  | x :: l' => if String.eqb k x then skip_key k l' else l
  | [] => []
  end.

(** [in_order keys l]: [l] lists keys in the order of [keys], each any
    number of times. *)
Fixpoint in_order (keys l : list string) : bool :=
  match keys with
  | [] => match l with [] => true | _ => false end
  | k :: keys' => in_order keys' (skip_key k l)
  end.

(** The object that [mergeObjectSync] builds when no field aborts. *)
Definition add_property (acc : gmap string Js.value) (p : string * ParseReturn)
    : gmap string Js.value :=
  match Zod.value p.2 with
  | Some v => if String.eqb p.1 "__proto__" then acc else <[p.1 := v]> acc
  | None => acc
  end.

(** The object of the values of all fields. *)
Definition collect (pairs : list (string * ParseReturn))
    (acc : gmap string Js.value) : gmap string Js.value :=
  foldl add_property acc pairs.

(** A shape whose keys are distinct, none of them [__proto__]. *)
Definition well_keyed (o : ZodObject) : Prop :=
  NoDup (shape o).*1 /\ "__proto__" ∉ (shape o).*1.

(** On the way down a schema reports violations of its declared type,
    bounds, formats and enum values; what a promise callback pushes later
    is the failure of a refinement.  And a result that is not valid comes
    with an issue. *)
Record well_behaved (t : ZodType) : Prop := {
  wb_direct x : Forall (fun i => code i <> custom) (hd [] (issues (t x)));
  wb_deferred x : Forall (fun i => code i = custom) (concat (tl (issues (t x))));
  wb_sound x : status (t x) <> valid -> concat (issues (t x)) <> [];
  wb_valid x : status (t x) = valid -> issues (t x) = [];
}.

(** The [details] of the response a handler sent. *)
Definition details_of (out : Outcome) : list Detail :=
  match out with
  | Sent _ res =>
      match error_details (json res) with
      | Some details => details
      | None => []
      end
  | Next _ => []
  end.

(** All fields of the payload [m] but those named are valid. *)
Definition others_valid (o : ZodObject) (m : gmap string Js.value)
    (except : list string) : Prop :=
  Forall (fun f => f.1 ∈ except \/ status (f.2 (m !! f.1)) = valid) (shape o).

(** Requests and options of the worked examples. *)
Definition abort_early : ValidationOptions :=
  {| stripUnknown := None; abortEarly := Some true |}.

Definition query_of (fields : list (string * Js.value)) : Request :=
  {| body := None; params := None; query := obj fields |}.

Definition body_of (fields : list (string * Js.value)) : Request :=
  {| body := obj fields; params := None; query := None |}.

(** A schema whose evaluation fails with a fault that is no [ZodError]. *)
Definition faulty (text : string) : ZodSchema := fun _ => Threw text.

(** The strings of a response. *)
Definition strings_of (out : Outcome) : list string :=
  match out with
  | Sent _ res =>
      error_message (json res)
      :: match error_details (json res) with
         | Some details => map message details
         | None => []
         end
  | Next _ => []
  end.

(** [accepts t x y]: the schema [t] finds nothing wrong with [x] and yields
    [y]. *)
Definition accepts (t : ZodType) (x y : option Js.value) : Prop :=
  status (t x) = valid /\ Zod.value (t x) = y /\ issues (t x) = [].

(** The issues that an object schema reports under one key. *)
Definition field_issues (o : ZodObject) (data : option Js.value) (k : string)
    : list ZodIssue :=
  filter (fun i => issue_key i = k) (parse_object o data).2.

(** The failure of the refinement of limit. *)
Definition limit_violation : ZodIssue :=
  {| code := custom; path := ["limit"];
     Zod.message := "Limit must be between 1 and 100"; received := None |}.

(** The first and the last character of a string. *)
Definition first_char (s : string) : option ascii :=
  match s with
  | String c _ => Some c
  | EmptyString => None
  end.

Fixpoint last_char (s : string) : option ascii :=
  match s with
  | String c s' =>
      match last_char s' with
      | Some d => Some d
      | None => Some c
      end
  | EmptyString => None
  end.

(** A string that does not start with white space. *)
Definition starts_clean (s : string) : Prop :=
  forall c, first_char s = Some c -> is_ws c = false.

(** A string that does not end with white space. *)
Definition ends_clean (s : string) : Prop :=
  forall c, last_char s = Some c -> is_ws c = false.

(** A pattern whose words neither start nor end with white space. *)
Definition clean (r : Regex.regex) : Prop :=
  forall c, (Regex.first_in r c = true -> is_ws c = false)
         /\ (Regex.last_in r c = true -> is_ws c = false).

(** [stable_at t x]: when [t] accepts [x], it accepts what it made of [x]
    and leaves that as it is. *)
Definition stable_at (t : ZodType) (x : option Js.value) : Prop :=
  status (t x) = valid ->
  status (t (Zod.value (t x))) = valid
  /\ Zod.value (t (Zod.value (t x))) = Zod.value (t x).

(** [keeps t]: [t] changes nothing in what it accepts. *)
Definition keeps (t : ZodType) : Prop :=
  forall x, status (t x) = valid -> Zod.value (t x) = x.

(** Checks that leave the string alone. *)
Definition plain (cs : list StringCheck) : bool :=
  forallb (fun c => match c with s_trim | s_toLowerCase => false | _ => true end) cs.

(** The assumption on Zod's email pattern: what it matches, it matches in
    lower case and trimmed. *)
Definition email_check_stable (rt : Runtime) : Prop :=
  forall s, isEmail rt s = true -> isEmail rt (Js.trim (Js.toLowerCase s)) = true.

(** The string under key [k] is at least [n] long also when trimmed. *)
Definition survives_trim (m : gmap string Js.value) (k : string) (n : Z) : Prop :=
  forall s, m !! k = Some (VStr s) -> n <= str_length (Js.trim s).

(** The strings that a schema bounds in length from below and trims after
    that, with the bound. *)
Definition trimmed_minimums (name : string) : list (string * Z) :=
  if String.eqb name "createUser" then [("first_name", 1)]
  else if String.eqb name "updateUser" then
    [("first_name", 1); ("bank_account_number", 8);
     ("bank_account_holder", 2); ("bank_name", 2)]
  else if String.eqb name "login" then [("first_name", 1); ("username", 3)]
  else if String.eqb name "createUserRecord" then
    [("exercise_name", 1); ("record_type", 1)]
  else [].

(** The type mismatch of a number where a string is declared. *)
Definition expected_string (key : string) : ZodIssue :=
  {| code := invalid_type; path := [key];
     Zod.message := "Expected string, received number";
     received := Some (VStr "number") |}.

(** The messages that update-user reports under [key], for a payload with
    a valid id and the one other field [key := v]. *)
Definition update_issues (key : string) (v : Js.value) : list string :=
  map Zod.message
    (field_issues (updateUserSchema Example.runtime) (obj [("id", num 7); (key, v)]) key).

(** The schema that [validateMultiple] is given for a target. *)
Definition schema_for (schemas : Schemas) (target : ValidationTarget)
    : option ZodSchema :=
  match target with
  | Body => for_body schemas
  | Params => for_params schemas
  | Query => for_query schemas
  end.

(** [{ [target]: schema }], the argument of [validateMultiple] with one
    schema. *)
Definition only (target : ValidationTarget) (schema : ZodSchema) : Schemas :=
  match target with
  | Body => {| for_body := Some schema; for_params := None; for_query := None |}
  | Params => {| for_body := None; for_params := Some schema; for_query := None |}
  | Query => {| for_body := None; for_params := None; for_query := Some schema |}
  end.

(** A schema of a single value: its issues carry no path of their own. *)
Definition flat (t : ZodType) : Prop :=
  forall x, Forall (fun i => path i = []) (concat (issues (t x))).

(** The keys a payload must have, by schema of the registry. *)
Definition required_keys (name : string) : list string :=
  if String.eqb name "createUser" then ["id"; "first_name"]
  else if String.eqb name "updateUser" then ["id"]
  else if String.eqb name "login" then ["id"; "first_name"; "auth_date"; "hash"]
  else if String.eqb name "createUserRecord" then
    ["exercise_name"; "record_type"; "value"]
  else [].

(** The keys declared [.nullable()], by schema of the registry. *)
Definition nullable_keys (name : string) : list string :=
  if String.eqb name "createUser" then ["username"; "last_name"; "photo_url"]
  else if String.eqb name "updateUser" then
    ["username"; "last_name"; "photo_url"; "email"; "phone_number";
     "height_cm"; "weight_kg"; "date_of_birth"; "gender"; "experience_years";
     "goals"; "injuries"; "notes"; "bank_account_number";
     "bank_account_holder"; "bank_name"; "paypal_email"; "payout_method"]
  else [].

(** The issue of a value of the wrong type, or of none, under [key]. *)
Definition type_issue (key message found : string) : ZodIssue :=
  {| code := invalid_type; path := [key]; Zod.message := message;
     received := Some (VStr found) |}.

(** The enum schemas, each with the union type of [database.types.ts]
    it stands for and with its message. *)
Definition enum_schemas : list (ZodType * list string * string) :=
  [(userRoleSchema, Database.UserRole, "Role must be athlete, coach, or admin");
   (userLevelSchema, Database.UserLevel,
    "Level must be scaled, intermediate, or rx");
   (userGenderSchema, Database.UserGender,
    "Gender must be male, female, or other");
   (userLanguageSchema, Database.UserLanguage, "Language must be uk, en, or ru");
   (payoutMethodSchema, Database.PayoutMethod,
    "Payout method must be bank_transfer, paypal, or stripe")].

(** All characters of [s] are in the class [p]. *)
Definition all_chars (p : ascii -> bool) (s : string) : bool :=
  forallb p (list_ascii_of_string s).

(** [[a-f0-9]] *)
Definition lower_hex : ascii -> bool :=
  Regex.union (Regex.range "a" "f") Patterns.digit.

(** The characters that occur in a phone number: digits, [+], the two
    parentheses and the separators. *)
Definition phone_char : ascii -> bool :=
  Regex.union Patterns.digit
    (Regex.union (Regex.char "+")
       (Regex.union (Regex.char "(")
          (Regex.union (Regex.char ")") Patterns.separator))).

(** The characters that the classes of a pattern accept. *)
Fixpoint alphabet (r : Regex.regex) (c : ascii) : bool :=
  match r with
  | Regex.Void | Regex.Eps => false
  | Regex.Class p => p c
  | Regex.Seq r1 r2 | Regex.Alt r1 r2 => alphabet r1 c || alphabet r2 c
  | Regex.Star r1 => alphabet r1 c
  end.

(** The messages of the issues that an object schema reports under one
    key. *)
Definition reported (o : ZodObject) (m : gmap string Js.value) (k : string)
    : list string :=
  map Zod.message (field_issues o (Some (VObj m)) k).

(** The handler that Express runs after [first] called [next()]. *)
Definition and_then (first second : Request -> Outcome) (req : Request)
    : Outcome :=
  match first req with
  | Next req' => second req'
  | Sent req' res => Sent req' res
  end.

(** [validate(schema, target)] when there is a schema, else a handler
    that only calls [next()]. *)
Definition validate_if (schema : option ZodSchema) (target : ValidationTarget)
    (env : ProcessEnv) (req : Request) : Outcome :=
  match schema with
  | Some s => validate s target no_options env req
  | None => Next req
  end.

(** The text fields that are bounded in length and trimmed, by schema of
    the registry: key, least and greatest length. *)
Definition text_fields (name : string) : list (string * Z * Z) :=
  if String.eqb name "createUser" then
    [("first_name", 1, 100); ("last_name", 0, 100)]
  else if String.eqb name "updateUser" then
    [("first_name", 1, 100); ("last_name", 0, 100); ("goals", 0, 1000);
     ("injuries", 0, 1000); ("notes", 0, 2000);
     ("bank_account_number", 8, 34); ("bank_account_holder", 2, 100);
     ("bank_name", 2, 100)]
  else if String.eqb name "login" then
    [("first_name", 1, 100); ("username", 3, 50); ("last_name", 0, 100)]
  else if String.eqb name "createUserRecord" then
    [("exercise_name", 1, 100); ("record_type", 1, 50); ("unit", 0, 20)]
  else [].

(** [details] is the list of the issues [found], each as [validate] and
    [validateMultiple] format it: the path joined by dots, the message,
    and the received value unless the issue is a type mismatch. *)
Definition describes (details : list Detail) (found : list ZodIssue) : Prop :=
  Forall2
    (fun d i =>
       field d = String.concat "." (path i)
       /\ message d = Zod.message i
       /\ Middleware.value d
          = (if decide (code i = invalid_type) then None else received i))
    details found.

(** The runtime [rt] when its clock reads [t]. *)
Definition at_clock (rt : Runtime) (t : Z) : Runtime :=
  {| now := t;
     Date_parse := Date_parse rt;
     isUrl := isUrl rt;
     isEmail := isEmail rt;
     isDatetime := isDatetime rt |}.

(** [stable_to t t' x]: when [t] accepts [x], [t'] accepts what [t] made of
    [x] and leaves that as it is. *)
Definition stable_to (t t' : ZodType) (x : option Js.value) : Prop :=
  status (t x) = valid ->
  status (t' (Zod.value (t x))) = valid
  /\ Zod.value (t' (Zod.value (t x))) = Zod.value (t x).

(** The refinements that read the clock, by schema of the registry: the
    key and the check. *)
Definition clock_checks (name : string)
    : list (string * (Runtime -> option Js.value -> bool)) :=
  if String.eqb name "updateUser" then
    [("date_of_birth", not_in_future); ("date_of_birth", age_at_most_120)]
  else if String.eqb name "login" then [("auth_date", auth_date_in_window)]
  else if String.eqb name "createUserRecord" then
    [("achieved_at", not_in_future)]
  else [].

(** The values of [out] that a refinement reads pass it when the clock is
    that of [rt']. *)
Definition in_time (rt' : Runtime) (name : string) (out : gmap string Js.value)
    : Prop :=
  Forall
    (fun c => forall v, out !! c.1 = Some v -> v <> VNull -> c.2 rt' (Some v) = true)
    (clock_checks name).

(** The place of a target in the order in which [validateMultiple] treats
    them. *)
Definition rank (target : ValidationTarget) : nat :=
  match target with
  | Body => 0
  | Params => 1
  | Query => 2
  end.

(** A host that defines the query by a getter alone. *)
Definition query_by_getter : Host :=
  {| writable := fun target =>
       match target with Query => false | _ => true end |}.

(** * Facts about the embedding *)

(** ** Issues of an object parse *)

Section ObjectIssues.
Import Zod.

Lemma pushed_eq pairs :
  pushed pairs = concat (foldr merge [] (map rounds_of pairs)).
Proof.
  unfold pushed. do 2 f_equal. apply map_ext. by intros [k r].
Qed.

Lemma merge_nil_r a : merge a [] = a.
Proof. by destruct a. Qed.

Lemma head_merge a b :
  hd [] (merge a b) = hd [] a ++ hd [] b.
Proof.
  destruct a as [|x a], b as [|y b]; simpl; try done.
  by rewrite app_nil_r.
Qed.

Lemma tail_merge a b : tl (merge a b) = merge (tl a) (tl b).
Proof.
  destruct a as [|x a], b as [|y b]; simpl; try done.
  by rewrite merge_nil_r.
Qed.

Lemma tl_map {A B} (f : A -> B) (l : list A) : tl (map f l) = map f (tl l).
Proof. by destruct l. Qed.

Lemma concat_hd_tl (l : list (list ZodIssue)) :
  concat l = hd [] l ++ concat (tl l).
Proof. by destruct l. Qed.

Lemma elem_of_concat_merge i a b :
  i ∈ concat (merge a b) -> i ∈ concat a \/ i ∈ concat b.
Proof.
  revert b. induction a as [|x a IH]; intros [|y b]; simpl; auto.
  rewrite !elem_of_app. intros [[Hi|Hi]|Hi]; auto.
  destruct (IH _ Hi); auto.
Qed.

(** A filter that keeps nothing of one side sees only the other side. *)
Lemma filter_concat_merge_l (P : ZodIssue -> Prop) `{!forall i, Decision (P i)} a b :
  filter P (concat b) = [] ->
  filter P (concat (merge a b)) = filter P (concat a).
Proof.
  revert b. induction a as [|x a IH]; intros [|y b]; simpl; try done.
  rewrite !filter_app. intros Hnil.
  apply app_eq_nil in Hnil as [Hy Hb].
  by rewrite Hy, app_nil_r, IH.
Qed.

Lemma filter_concat_merge_r (P : ZodIssue -> Prop) `{!forall i, Decision (P i)} a b :
  filter P (concat a) = [] ->
  filter P (concat (merge a b)) = filter P (concat b).
Proof.
  revert b. induction a as [|x a IH]; intros [|y b]; simpl; try done.
  rewrite !filter_app. intros Hnil.
  apply app_eq_nil in Hnil as [Hx Ha].
  by rewrite Hx, IH.
Qed.

Lemma issue_key_with_key k i : issue_key (with_key k i) = k.
Proof. done. Qed.

Lemma filter_key_rounds_of k p :
  filter (fun i => issue_key i = k) (concat (rounds_of p))
  = if decide (p.1 = k) then concat (rounds_of p) else [].
Proof.
  unfold rounds_of. destruct p as [k' r]; simpl.
  induction (issues r) as [|x l IH]; simpl.
  - by case_decide.
  - rewrite filter_app, IH. case_decide as Hk.
    + f_equal. clear IH. induction x as [|i x IHx]; [done|]. simpl.
      rewrite filter_cons, decide_True by done. by rewrite IHx.
    + rewrite app_nil_r. clear IH. induction x as [|i x IHx]; [done|]. simpl.
      by rewrite filter_cons, decide_False.
Qed.

(** No issue is lost and none is invented: under the key of a field, the
    shared list holds the issues of that field, all of them, in the order
    in which the field pushed them. *)
Lemma pushed_of_field pairs k r :
  NoDup pairs.*1 ->
  (k, r) ∈ pairs ->
  filter (fun i => issue_key i = k) (pushed pairs)
  = map (with_key k) (concat (issues r)).
Proof.
  rewrite pushed_eq. induction pairs as [|[k' r'] pairs IH]; simpl.
  - by intros _ ?%elem_of_nil.
  - intros [Hnotin Hnd]%NoDup_cons [Heq|Hin]%elem_of_cons.
    + injection Heq as <- <-.
      rewrite filter_concat_merge_l.
      * rewrite (filter_key_rounds_of k (k, r)); simpl.
        rewrite decide_True by done. unfold rounds_of; simpl.
        by rewrite concat_map.
      * clear IH. induction pairs as [|[k2 r2] pairs IH2]; [done|]. simpl in *.
        apply not_elem_of_cons in Hnotin as [Hne Hnotin].
        apply NoDup_cons in Hnd as [_ Hnd].
        rewrite filter_concat_merge_r; [by apply IH2|].
        rewrite (filter_key_rounds_of k (k2, r2)); simpl.
        by rewrite decide_False.
    + rewrite filter_concat_merge_r; [by apply IH|].
      rewrite (filter_key_rounds_of k (k', r')); simpl.
      rewrite decide_False; [done|]. intros ->.
      apply Hnotin. apply list_elem_of_fmap. by exists (k, r).
Qed.


Lemma pushed_split pairs :
  pushed pairs = direct_issues pairs ++ deferred_issues pairs.
Proof.
  rewrite pushed_eq, concat_hd_tl. unfold direct_issues, deferred_issues.
  f_equal.
  - induction pairs as [|[k r] pairs IH]; [done|]. simpl.
    rewrite head_merge, IH. f_equal. unfold rounds_of; simpl.
    by destruct (issues r).
  - f_equal. induction pairs as [|[k r] pairs IH]; [done|]. simpl.
    by rewrite tail_merge, IH.
Qed.

Lemma elem_of_deferred_issues i pairs :
  i ∈ deferred_issues pairs ->
  exists k r j, (k, r) ∈ pairs /\ j ∈ concat (tl (issues r)) /\ i = with_key k j.
Proof.
  unfold deferred_issues. induction pairs as [|[k r] pairs IH]; simpl.
  - by intros ?%elem_of_nil.
  - intros [Hi|Hi]%elem_of_concat_merge.
    + exists k, r. unfold rounds_of in Hi; simpl in Hi.
      rewrite tl_map, <- concat_map in Hi.
      apply list_elem_of_fmap in Hi as (j & -> & Hj).
      exists j. split_and!; [left|done..].
    + destruct (IH Hi) as (k' & r' & j & ? & ? & ?).
      exists k', r', j. split_and!; [by right|done..].
Qed.

Lemma skip_key_app_same k (n : list ZodIssue) l :
  skip_key k (map issue_key (map (with_key k) n) ++ l) = skip_key k l.
Proof.
  induction n as [|i n IH]; [done|]. simpl. by rewrite String.eqb_refl.
Qed.

Lemma skip_key_other k l :
  k ∉ l -> skip_key k l = l.
Proof.
  destruct l as [|x l]; [done|]. simpl.
  intros [Hne _]%not_elem_of_cons.
  by apply String.eqb_neq in Hne as ->.
Qed.

Lemma direct_issues_keys pairs :
  Forall (fun k => k ∈ pairs.*1) (map issue_key (direct_issues pairs)).
Proof.
  unfold direct_issues. induction pairs as [|[k r] pairs IH]; [done|]. simpl.
  rewrite map_app. apply Forall_app. split.
  - apply Forall_forall. intros x Hx.
    rewrite map_map in Hx. apply list_elem_of_fmap in Hx as (j & -> & _). left.
  - eapply Forall_impl; [exact IH|]. intros x Hx. by right.
Qed.

Lemma direct_issues_in_order pairs :
  NoDup pairs.*1 ->
  in_order pairs.*1 (map issue_key (direct_issues pairs)) = true.
Proof.
  induction pairs as [|[k r] pairs IH]; [done|].
  intros [Hnotin Hnd]%NoDup_cons. simpl.
  change (direct_issues ((k, r) :: pairs))
    with (map (with_key k) (hd [] (issues r)) ++ direct_issues pairs).
  rewrite map_app, skip_key_app_same, skip_key_other; [by apply IH|].
  intros Hin. apply Hnotin.
  pose proof (direct_issues_keys pairs) as Hall.
  rewrite Forall_forall in Hall. by apply Hall.
Qed.

End ObjectIssues.

(** ** The value of an object parse *)

Section ObjectValue.
Import Zod.

Lemma mergeObjectSync_valid pairs st acc :
  Forall (fun p => status p.2 = valid) pairs ->
  mergeObjectSync st pairs acc = (st, Some (Js.VObj (collect pairs acc))).
Proof.
  revert st acc. induction pairs as [|[k r] pairs IH]; intros st acc; [done|].
  intros [Hr Hrest]%Forall_cons. simpl in *. rewrite Hr.
  by rewrite IH by done.
Qed.

Lemma mergeObjectSync_valid_inv pairs st acc out :
  mergeObjectSync st pairs acc = (valid, out) ->
  st = valid /\ Forall (fun p => status p.2 = valid) pairs.
Proof.
  revert st acc. induction pairs as [|[k r] pairs IH]; intros st acc; simpl.
  - intros [= -> _]. by split.
  - destruct (status r) eqn:Hr; [| |done]; intros [Hst Hall]%IH.
    + split; [done|]. by constructor.
    + done.
Qed.

Lemma collect_lookup_notin pairs acc k :
  k ∉ pairs.*1 -> collect pairs acc !! k = acc !! k.
Proof.
  revert acc. induction pairs as [|[k' r] pairs IH]; intros acc; [done|].
  intros [Hne Hnotin]%not_elem_of_cons. simpl in *.
  unfold collect in *; simpl. rewrite IH by done.
  unfold add_property; simpl. destruct (value r); [|done].
  destruct (String.eqb k' "__proto__"); [done|].
  by rewrite lookup_insert_ne.
Qed.

Lemma collect_lookup pairs acc k r :
  NoDup pairs.*1 -> k <> "__proto__" -> (k, r) ∈ pairs ->
  collect pairs acc !! k
  = match value r with Some v => Some v | None => acc !! k end.
Proof.
  revert acc. induction pairs as [|[k' r'] pairs IH]; intros acc; simpl.
  - by intros _ _ ?%elem_of_nil.
  - intros [Hnotin Hnd]%NoDup_cons Hk [Heq|Hin]%elem_of_cons.
    + injection Heq as <- <-. unfold collect; simpl.
      fold (collect pairs (add_property acc (k, r))).
      rewrite collect_lookup_notin by done.
      unfold add_property; simpl. destruct (value r); [|done].
      apply String.eqb_neq in Hk as ->. by rewrite lookup_insert_eq.
    + unfold collect; simpl.
      fold (collect pairs (add_property acc (k', r'))).
      rewrite IH by done.
      destruct (value r); [done|].
      unfold add_property; simpl. destruct (value r'); [|done].
      destruct (String.eqb k' "__proto__"); [done|].
      rewrite lookup_insert_ne; [done|]. intros ->.
      apply Hnotin. apply list_elem_of_fmap. by exists (k, r).
Qed.

Lemma parse_pairs_keys o m : (parse_pairs o m).*1 = (shape o).*1.
Proof.
  unfold parse_pairs. induction (shape o) as [|[k t] l IH]; [done|].
  cbn. f_equal. exact IH.
Qed.

Lemma elem_of_parse_pairs o m k t :
  (k, t) ∈ shape o -> (k, t (m !! k)) ∈ parse_pairs o m.
Proof.
  unfold parse_pairs. intros Hin.
  apply list_elem_of_fmap. by exists (k, t).
Qed.

Lemma parse_pairs_valid o m :
  Forall (fun p => status p.2 = valid) (parse_pairs o m)
  <-> Forall (fun f => status (f.2 (m !! f.1)) = valid) (shape o).
Proof.
  unfold parse_pairs. rewrite Forall_map.
  apply Forall_iff. by intros [k t].
Qed.

(** The promise of [parseAsync] resolves exactly when the payload is an
    object and every field of the shape is valid; it then resolves with
    the object of the fields' values. *)
Lemma parseAsync_resolved o data v :
  parseAsync o data = Resolved v <->
  exists m, data = Some (Js.VObj m)
    /\ Forall (fun f => status (f.2 (m !! f.1)) = valid) (shape o)
    /\ v = Some (Js.VObj (collect (parse_pairs o m) ∅)).
Proof.
  unfold parseAsync, parse_object. split.
  - destruct data as [[| | | | |m]|]; simpl; try done.
    destruct (mergeObjectSync valid (parse_pairs o m) ∅) as [st out] eqn:Hm.
    destruct st; simpl.
    + intros [= <-]. exists m.
      apply mergeObjectSync_valid_inv in Hm as Hall. destruct Hall as [_ Hall].
      rewrite mergeObjectSync_valid in Hm by done. injection Hm as <-.
      split_and!; [done| |done]. by apply parse_pairs_valid.
    + by destruct (pushed _).
    + by destruct (pushed _).
  - intros (m & -> & Hall & ->). simpl.
    by rewrite mergeObjectSync_valid by by apply parse_pairs_valid.
Qed.

Lemma resolved_lookup o m out k t :
  well_keyed o ->
  parseAsync o (Some (Js.VObj m)) = Resolved (Some (Js.VObj out)) ->
  (k, t) ∈ shape o ->
  status (t (m !! k)) = valid /\ out !! k = value (t (m !! k)).
Proof.
  intros [Hnd Hproto] (m' & [= <-] & Hall & [= ->])%parseAsync_resolved Hin.
  split.
  - rewrite Forall_forall in Hall. by apply (Hall (k, t)).
  - rewrite (collect_lookup _ _ k (t (m !! k))).
    + by destruct (value _).
    + by rewrite parse_pairs_keys.
    + intros ->. apply Hproto. apply list_elem_of_fmap. by exists ("__proto__", t).
    + by apply elem_of_parse_pairs.
Qed.

Lemma resolved_undeclared o m out k :
  parseAsync o (Some (Js.VObj m)) = Resolved (Some (Js.VObj out)) ->
  k ∉ (shape o).*1 -> out !! k = None.
Proof.
  intros (m' & [= <-] & Hall & [= ->])%parseAsync_resolved Hnotin.
  rewrite collect_lookup_notin; [done|]. by rewrite parse_pairs_keys.
Qed.

(** A rejection carries the shared issue list. *)
Lemma parseAsync_rejected o m e :
  parseAsync o (Some (Js.VObj m)) = Rejected e ->
  errors e = pushed (parse_pairs o m).
Proof.
  unfold parseAsync, parse_object; simpl.
  destruct (mergeObjectSync _ _ _) as [[] out]; simpl; [done|..];
    destruct (pushed _); try done; by intros [= <-].
Qed.

End ObjectValue.

(** ** What every schema of the file has in common *)

Section Behaviour.
Import Zod.

Lemma elem_of_merge_l i a b : i ∈ concat a -> i ∈ concat (merge a b).
Proof.
  revert b. induction a as [|x a IH]; intros [|y b]; simpl; auto.
  - by intros ?%elem_of_nil.
  - rewrite !elem_of_app. intros [Hi|Hi]; auto.
Qed.

Lemma elem_of_merge_r i a b : i ∈ concat b -> i ∈ concat (merge a b).
Proof.
  revert b. induction a as [|x a IH]; intros [|y b]; simpl; auto.
  - by intros ?%elem_of_nil.
  - rewrite !elem_of_app. intros [Hi|Hi]; auto.
Qed.

Lemma nonempty_elem {A} (l : list A) : l <> [] <-> exists x, x ∈ l.
Proof.
  destruct l as [|x l]; split; try done.
  - by intros [x ?%elem_of_nil].
  - intros _. exists x. left.
  Qed.

Lemma string_checks_codes p cs s :
  Forall (fun i => code i <> custom) (string_checks p cs s).2.
Proof.
  revert s. induction cs as [|c cs IH]; intros s; simpl; [done|].
  destruct (string_check p c s) as [s1 i1] eqn:Hc.
  specialize (IH s1). destruct (string_checks p cs s1) as [s2 i2]. simpl in *.
  apply Forall_app. split; [|done].
  destruct c; simpl in Hc; injection Hc as <- <-;
    repeat case_match; by repeat constructor.
Qed.

Lemma wb_z_string p cs : well_behaved (z_string p cs).
Proof.
  split; intros x; unfold z_string;
    destruct x as [[| | |s| |]|]; simpl; try by repeat constructor.
  all: pose proof (string_checks_codes p cs s) as Hcodes;
    destruct (string_checks p cs s) as [s' found]; simpl in *.
  all: by destruct found.
Qed.

Lemma number_check_codes p c n :
  Forall (fun i => code i <> custom) (number_check p c n).
Proof. destruct c; simpl; repeat case_match; by repeat constructor. Qed.

Lemma wb_z_number p cs : well_behaved (z_number p cs).
Proof.
  assert (forall n, Forall (fun i => code i <> custom)
                      (concat (map (fun c => number_check p c n) cs))) as Hcodes.
  { intros n. induction cs as [|c cs IH]; simpl; [done|].
    apply Forall_app. split; [apply number_check_codes|done]. }
  split; intros x; unfold z_number;
    destruct x as [[| |n| | |]|]; simpl; try by repeat constructor.
  all: specialize (Hcodes n); destruct (isNaN n); simpl;
    try by repeat constructor.
  all: by destruct (concat _).
Qed.

Lemma wb_z_boolean p : well_behaved (z_boolean p).
Proof.
  split; intros x; unfold z_boolean;
    destruct x as [[| | | | |]|]; simpl; by repeat constructor.
Qed.

Lemma wb_z_enum values p : well_behaved (z_enum values p).
Proof.
  split; intros x; unfold z_enum;
    destruct x as [[| | |s| |]|]; simpl; try by repeat constructor.
  all: by case_bool_decide; simpl; repeat constructor.
Qed.

Lemma wb_optional t : well_behaved t -> well_behaved (optional t).
Proof.
  intros [H1 H2 H3 H4].
  split; intros [x|]; unfold optional; simpl; auto; by repeat constructor.
Qed.

Lemma wb_nullable t : well_behaved t -> well_behaved (nullable t).
Proof.
  intros [H1 H2 H3 H4].
  split; intros [[]|]; unfold nullable; simpl; auto; by repeat constructor.
Qed.

Lemma wb_default d t : well_behaved t -> well_behaved (default d t).
Proof.
  intros [H1 H2 H3 H4]. split; intros [x|]; unfold default; simpl; auto.
Qed.

Lemma wb_transform f t : well_behaved t -> well_behaved (transform f t).
Proof.
  intros [H1 H2 H3 H4]. split; intros x; unfold transform;
    specialize (H1 x); specialize (H2 x); specialize (H3 x);
    specialize (H4 x); destruct (status (t x)); simpl; auto.
Qed.

Lemma wb_refine check msg t : well_behaved t -> well_behaved (refine check msg t).
Proof.
  intros [H1 H2 H3 H4]. split; intros x; unfold refine;
    specialize (H1 x); specialize (H2 x); specialize (H3 x);
    specialize (H4 x).
  - destruct (check (value (t x))), (status (t x)); simpl; auto;
      rewrite head_merge; simpl; by rewrite app_nil_r.
  - destruct (check (value (t x))), (status (t x)); simpl; auto;
      rewrite tail_merge; simpl; apply Forall_forall; intros i Hi;
      apply elem_of_concat_merge in Hi as [Hi|Hi];
      try (rewrite Forall_forall in H2; by apply H2).
    all: unfold at_round in Hi; rewrite concat_app in Hi; simpl in Hi;
      apply elem_of_app in Hi as [Hi|Hi];
      [ exfalso; clear -Hi; induction (settled (t x)); simpl in Hi;
        [by apply elem_of_nil in Hi|done]
      | by apply list_elem_of_singleton in Hi as ->; simpl in * ].
  - destruct (check (value (t x))), (status (t x)) eqn:Hst; simpl; auto.
    all: intros _; apply nonempty_elem; eexists; apply elem_of_merge_r;
      unfold at_round; rewrite concat_app; apply elem_of_app; right; left.
  - destruct (check (value (t x))), (status (t x)) eqn:Hst; simpl; auto; done.
Qed.

End Behaviour.

Create HintDb zod.

#[global] Hint Resolve wb_z_string wb_z_number wb_z_boolean wb_z_enum
  wb_optional wb_nullable wb_default wb_transform wb_refine : zod.

(** ** The registry *)

Ltac registry_cases H :=
  repeat (apply elem_of_cons in H as [[= -> ->]|H]);
  [..|by apply elem_of_nil in H].

Ltac unfold_schemas :=
  unfold createUserSchema, updateUserSchema, loginSchema,
    createUserRecordSchema, paginationQuerySchema, emailSchema,
    phoneNumberSchema, urlSchema, timezoneSchema, dateOfBirthSchema,
    userRoleSchema, userLevelSchema, userGenderSchema, userLanguageSchema,
    payoutMethodSchema; cbn [shape].

Section Registry.
Import Zod.

Lemma registry_well_keyed rt name o :
  (name, o) ∈ userSchemas rt -> well_keyed o.
Proof.
  intros Hin. unfold userSchemas in Hin. registry_cases Hin.
  all: split; [apply (bool_decide_unpack _)|apply (bool_decide_unpack _)];
    by vm_compute.
Qed.

Lemma registry_well_behaved rt name o :
  (name, o) ∈ userSchemas rt ->
  Forall (fun f => well_behaved f.2) (shape o).
Proof.
  intros Hin. unfold userSchemas in Hin. registry_cases Hin.
  all: unfold_schemas; repeat apply Forall_cons_2; try apply Forall_nil_2;
    cbn [snd]; auto 10 with zod.
Qed.

End Registry.

(** ** Rejections *)

Section Rejections.
Import Zod.

Lemma concat_merge_quiet a b : concat a = [] -> concat (merge a b) = concat b.
Proof.
  revert b. induction a as [|x a IH]; intros [|y b]; simpl; try done.
  intros [-> Ha]%app_eq_nil. simpl. by rewrite IH.
Qed.

Lemma pushed_cons_quiet k r pairs :
  concat (issues r) = [] -> pushed ((k, r) :: pairs) = pushed pairs.
Proof.
  intros Hq. rewrite !pushed_eq. simpl. apply concat_merge_quiet.
  unfold rounds_of; simpl. by rewrite <- concat_map, Hq.
Qed.

Lemma pushed_cons_direct k r l pairs :
  issues r = [l] ->
  pushed ((k, r) :: pairs) = map (with_key k) l ++ pushed pairs.
Proof.
  intros Hl. rewrite !pushed_eq. simpl. unfold rounds_of at 1; simpl.
  rewrite Hl. simpl.
  destruct (foldr merge [] (map rounds_of pairs)); simpl; [|by rewrite app_assoc].
  by rewrite !app_nil_r.
Qed.

Lemma pushed_all_quiet pairs :
  Forall (fun p => concat (issues p.2) = []) pairs -> pushed pairs = [].
Proof.
  induction 1 as [|[k r] pairs Hq _ IH]; [done|].
  by rewrite pushed_cons_quiet.
Qed.

Lemma elem_of_pushed k r i pairs :
  (k, r) ∈ pairs -> i ∈ concat (issues r) -> with_key k i ∈ pushed pairs.
Proof.
  rewrite pushed_eq. induction pairs as [|[k' r'] pairs IH]; simpl.
  - by intros ?%elem_of_nil.
  - intros [Heq|Hin]%elem_of_cons Hi.
    + injection Heq as <- <-. apply elem_of_merge_l.
      unfold rounds_of; simpl. rewrite <- concat_map.
      apply list_elem_of_fmap. by exists i.
    + apply elem_of_merge_r. by apply IH.
Qed.

(** With well-behaved fields, a parse fails exactly when an issue was
    pushed, and the promise then rejects with all of them: it never fails
    without a [ZodError]. *)
Lemma parseAsync_settles o data :
  Forall (fun f => well_behaved f.2) (shape o) ->
  match parseAsync o data with
  | Resolved _ =>
      exists m, data = Some (Js.VObj m) /\ pushed (parse_pairs o m) = []
  | Rejected e =>
      match data with
      | Some (Js.VObj m) => errors e = pushed (parse_pairs o m)
      | _ => errors e = [invalid_type_issue no_params "object" data]
      end
  | Threw _ => False
  end.
Proof.
  intros Hwb.
  destruct (parseAsync o data) as [v|e|text] eqn:Hp.
  - apply parseAsync_resolved in Hp as (m & -> & Hall & ->).
    exists m. split; [done|]. apply pushed_all_quiet.
    unfold parse_pairs. rewrite Forall_map.
    rewrite Forall_forall in Hall, Hwb. apply Forall_forall.
    intros [k t] Hin. simpl. rewrite wb_valid; [done|by apply (Hwb (k, t))|].
    by apply (Hall (k, t)).
  - destruct data as [[| | | | |m]|]; try (by injection Hp as <-).
    by apply parseAsync_rejected.
  - destruct data as [[| | | | |m]|]; try done.
    unfold parseAsync, parse_object in Hp; simpl in Hp.
    destruct (mergeObjectSync valid (parse_pairs o m) ∅) as [st out] eqn:Hm.
    assert (pushed (parse_pairs o m) <> []) as Hne.
    { assert (st <> valid) as Hst by (by intros ->).
      assert (~ Forall (fun p => status p.2 = valid) (parse_pairs o m)) as Hex.
      { intros Hall. rewrite mergeObjectSync_valid in Hm by done. congruence. }
      apply not_Forall_Exists in Hex; [|intros p; apply _].
      apply Exists_exists in Hex as ([k r] & Hin & Hr). simpl in Hr.
      assert (exists t, (k, t) ∈ shape o /\ r = t (m !! k)) as (t & Ht & ->).
      { unfold parse_pairs in Hin. apply list_elem_of_fmap in Hin as ([k' t] & [= -> ->] & ?).
        by exists t. }
      rewrite Forall_forall in Hwb. specialize (Hwb _ Ht). simpl in Hwb.
      apply (wb_sound _ Hwb), nonempty_elem in Hr as [i Hi].
      apply nonempty_elem. exists (with_key k i).
      eapply elem_of_pushed; [|done]. by apply elem_of_parse_pairs. }
    destruct st, (pushed (parse_pairs o m)); simpl in Hp; done.
Qed.

Lemma parseAsync_rejects o m i rest :
  Forall (fun f => well_behaved f.2) (shape o) ->
  pushed (parse_pairs o m) = i :: rest ->
  parseAsync o (Some (Js.VObj m))
  = Rejected {| first_error := i; more_errors := rest |}.
Proof.
  intros Hwb Hpushed.
  pose proof (parseAsync_settles o (Some (Js.VObj m)) Hwb) as Hs.
  destruct (parseAsync o _) as [v|[i' rest']|text]; [|..|done].
  - destruct Hs as (m' & [= <-] & Hnil). congruence.
  - unfold errors in Hs; simpl in Hs. rewrite Hpushed in Hs. by injection Hs as -> ->.
Qed.

End Rejections.

(** * Properties of the validation pipeline *)

Import Middleware.

(** C1, as stated, fails on the pagination query [page=0&order=up]: page
    is declared before order, but its violation is that of a refinement
    and is reported after the enum violation of order; with abortEarly the
    one entry kept is that of order.  Likewise for update-user with a
    date_of_birth in the future and an unknown gender: gender, declared
    after date_of_birth, is reported before it. *)
Lemma details_out_of_declaration_order :
  let env := {| NODE_ENV := None |} in
  let req := query_of [("page", VStr "0"); ("order", VStr "up")] in
  let run options :=
    map field
      (details_of (validate (parseAsync paginationQuerySchema) Query options env req)) in
  let req' :=
    body_of [("id", num 7); ("date_of_birth", VStr "2100-01-01T00:00:00Z");
             ("gender", VStr "unknown")] in
  let run' options :=
    map field
      (details_of (validate (parseAsync (updateUserSchema Example.runtime)) Body
                     options env req')) in
  (shape paginationQuerySchema).*1 = ["page"; "limit"; "sortBy"; "order"]
  /\ run no_options = ["order"; "page"]
  /\ in_order (shape paginationQuerySchema).*1 (run no_options) = false
  /\ run abort_early = ["order"]
  /\ run' no_options = ["gender"; "date_of_birth"]
  /\ in_order (shape (updateUserSchema Example.runtime)).*1 (run' no_options)
     = false
  /\ run' abort_early = ["gender"].
Proof. by vm_compute. Qed.

(** Fields that are valid push nothing: only the others matter. *)
Lemma pushed_except o m except :
  Forall (fun f => well_behaved f.2) (shape o) ->
  others_valid o m except ->
  pushed (parse_pairs o m)
  = pushed (parse_pairs (z_object (filter (fun f => f.1 ∈ except) (shape o))) m).
Proof.
  unfold others_valid, parse_pairs. rewrite !pushed_eq. cbn [shape].
  intros Hwb Hothers. f_equal.
  induction (shape o) as [|[k t] l IH]; [done|].
  apply Forall_cons in Hwb as [Hwb Hwbs].
  apply Forall_cons in Hothers as [Hk Hothers]. cbn [fst snd] in *.
  rewrite filter_cons. case_decide as Hin; simpl.
  - by rewrite IH.
  - destruct Hk as [?|Hv]; [done|].
    unfold rounds_of at 1; simpl. rewrite (wb_valid _ Hwb) by done.
    simpl. by apply IH.
Qed.

Lemma update_user_example rt target options env req m s :
  get target req = Some (VObj m) ->
  m !! "email" = Some (VStr s) ->
  isEmail rt s = false ->
  m !! "height_cm" = Some (num 10) ->
  m !! "weight_kg" = Some (num 1000) ->
  others_valid (updateUserSchema rt) m ["email"; "height_cm"; "weight_kg"] ->
  let email := {| field := "email"; message := "Invalid email format"; Middleware.value := None |} in
  let long := {| field := "email"; message := "Email must be at most 255 characters"; Middleware.value := None |} in
  let height := {| field := "height_cm"; message := "Height must be at least 50 cm"; Middleware.value := None |} in
  let weight := {| field := "weight_kg"; message := "Weight must be at most 300 kg"; Middleware.value := None |} in
  validate (parseAsync (updateUserSchema rt)) target options env req
  = Sent req
      {| statusCode := 400;
         json := {| success := false;
                    error_message := "Validation failed";
                    error_code := VALIDATION_ERROR;
                    error_details :=
                      Some (match abortEarly options with
                            | Some true => [email]
                            | _ =>
                                email
                                :: (if 255 <? str_length s then [long] else [])
                                ++ [height; weight]
                            end) |} |}.
Proof.
  intros Hget Hemail Hbad Hheight Hweight Hothers email long height weight.
  unfold validate. rewrite Hget.
  assert (Forall (fun f => well_behaved f.2) (shape (updateUserSchema rt))) as Hwb.
  { apply (registry_well_behaved rt "updateUser"). unfold userSchemas.
    apply list_elem_of_further, list_elem_of_here. }
  destruct (255 <? str_length s) eqn:Hlen.
  all: erewrite parseAsync_rejects; [| done |];
    [|rewrite (pushed_except _ _ _ Hwb Hothers);
    unfold parse_pairs; cbn [shape];
    change (filter _ (shape (updateUserSchema rt)))
      with [("email", emailSchema rt |> optional |> nullable);
            ("height_cm",
             z_number no_params
               [int (Some "Height must be an integer");
                gte 50 "Height must be at least 50 cm";
                lte 250 "Height must be at most 250 cm"]
             |> optional |> nullable);
            ("weight_kg",
             z_number no_params
               [gte 20 "Weight must be at least 20 kg";
                lte 300 "Weight must be at most 300 kg"]
             |> optional |> nullable)];
    cbn [map]; rewrite Hemail, Hheight, Hweight;
    (erewrite (pushed_cons_direct "email");
     [|unfold nullable, optional, emailSchema, z_string; cbn;
       rewrite Hbad, Hlen; reflexivity]);
    (erewrite (pushed_cons_direct "height_cm"); [|by vm_compute]);
    (erewrite (pushed_cons_direct "weight_kg"); [|by vm_compute]);
    reflexivity];
    by destruct (abortEarly options) as [[]|].
Qed.

Lemma direct_issues_codes pairs :
  Forall (fun p => Forall (fun i => code i <> custom) (hd [] (issues p.2))) pairs ->
  Forall (fun i => code i <> custom) (direct_issues pairs).
Proof.
  unfold direct_issues. induction 1 as [|[k r] pairs Hr _ IH]; [done|].
  simpl. apply Forall_app. split; [|done].
  simpl in Hr. induction Hr; simpl; constructor; auto.
Qed.

Lemma rejection_in_two_phases o m e :
  well_keyed o ->
  Forall (fun f => well_behaved f.2) (shape o) ->
  parseAsync o (Some (VObj m)) = Rejected e ->
  exists direct deferred,
    errors e = direct ++ deferred
    /\ Forall (fun i => code i <> custom) direct
    /\ Forall (fun i => code i = custom) deferred
    /\ in_order (shape o).*1 (map issue_key direct) = true.
Proof.
  intros [Hnd _] Hwb Hrej.
  exists (direct_issues (parse_pairs o m)), (deferred_issues (parse_pairs o m)).
  split_and!.
  - by rewrite (parseAsync_rejected _ _ _ Hrej), pushed_split.
  - apply direct_issues_codes. unfold parse_pairs. apply Forall_map.
    eapply Forall_impl; [exact Hwb|]. intros [k t] Ht. apply (wb_direct _ Ht).
  - apply Forall_forall. intros i (k & r & j & Hin & Hj & ->)%elem_of_deferred_issues.
    unfold parse_pairs in Hin.
    apply list_elem_of_fmap in Hin as ([k' t] & [= -> ->] & Hin).
    rewrite Forall_forall in Hwb. specialize (Hwb _ Hin).
    pose proof (wb_deferred _ Hwb (m !! k')) as Hd.
    rewrite Forall_forall in Hd. simpl. by apply Hd.
  - rewrite <- (parse_pairs_keys o m). apply direct_issues_in_order.
    by rewrite parse_pairs_keys.
Qed.

(** C1 (amended).  When a schema of the registry rejects an object payload,
    [details] holds every failure of every field, none dropped after the
    first: first the violations of declared types, bounds, formats and enum
    values, in field-declaration order, then the failures of refinements
    (which promise callbacks report later).  Update-user with height_cm=10,
    weight_kg=1000, a malformed email of at most 255 characters and all
    other fields valid yields exactly the three entries email, height_cm,
    weight_kg, in this order; a malformed email of more than 255 characters
    is reported twice, for its format and for its length, which makes four
    entries.  With abortEarly, [details] holds exactly one entry, the first
    of the list. *)
Theorem validate_reports_every_failure rt :
  (forall name o target options env req m e,
     (name, o) ∈ userSchemas rt ->
     get target req = Some (VObj m) ->
     parseAsync o (Some (VObj m)) = Rejected e ->
     (forall k t, (k, t) ∈ shape o ->
        filter (fun i => issue_key i = k) (errors e)
        = map (with_key k) (concat (issues (t (m !! k)))))
     /\ (exists direct deferred,
           errors e = direct ++ deferred
           /\ Forall (fun i => code i <> custom) direct
           /\ Forall (fun i => code i = custom) deferred
           /\ in_order (shape o).*1 (map issue_key direct) = true)
     /\ validate (parseAsync o) target options env req
        = Sent req
            {| statusCode := 400;
               json := {| success := false;
                          error_message := "Validation failed";
                          error_code := VALIDATION_ERROR;
                          error_details :=
                            Some (match abortEarly options with
                                  | Some true => [format_error (first_error e)]
                                  | _ => map format_error (errors e)
                                  end) |} |})
  /\ (forall target options env req m s,
        get target req = Some (VObj m) ->
        m !! "email" = Some (VStr s) ->
        isEmail rt s = false ->
        m !! "height_cm" = Some (num 10) ->
        m !! "weight_kg" = Some (num 1000) ->
        others_valid (updateUserSchema rt) m ["email"; "height_cm"; "weight_kg"] ->
        let email :=
          {| field := "email"; message := "Invalid email format";
             Middleware.value := None |} in
        let long :=
          {| field := "email"; message := "Email must be at most 255 characters";
             Middleware.value := None |} in
        let height :=
          {| field := "height_cm"; message := "Height must be at least 50 cm";
             Middleware.value := None |} in
        let weight :=
          {| field := "weight_kg"; message := "Weight must be at most 300 kg";
             Middleware.value := None |} in
        validate (parseAsync (updateUserSchema rt)) target options env req
        = Sent req
            {| statusCode := 400;
               json := {| success := false;
                          error_message := "Validation failed";
                          error_code := VALIDATION_ERROR;
                          error_details :=
                            Some (match abortEarly options with
                                  | Some true => [email]
                                  | _ =>
                                      if 255 <? str_length s
                                      then [email; long; height; weight]
                                      else [email; height; weight]
                                  end) |} |}).
Proof.
  split.
  - intros name o target options env req m e Hin Hget Hrej.
    pose proof (registry_well_keyed _ _ _ Hin) as Hkeys.
    pose proof (registry_well_behaved _ _ _ Hin) as Hwb.
    split_and!.
    + intros k t Ht. rewrite (parseAsync_rejected _ _ _ Hrej).
      apply pushed_of_field; [|by apply elem_of_parse_pairs].
      rewrite parse_pairs_keys. apply Hkeys.
    + by apply (rejection_in_two_phases o m).
    + unfold validate. rewrite Hget, Hrej. by destruct (abortEarly options) as [[]|].
  - intros target options env req m s Hget Hemail Hbad Hh Hw Hothers.
    cbv zeta.
    rewrite (update_user_example rt target options env req m s) by done.
    by destruct (abortEarly options) as [[]|], (255 <? str_length s).
Qed.

(** The update-user example of C1 at a concrete payload. *)
Lemma validate_reports_every_failure_witness :
  let req :=
    body_of [("id", num 7); ("email", VStr "not-an-email");
             ("height_cm", num 10); ("weight_kg", num 1000)] in
  validate (parseAsync (updateUserSchema Example.runtime)) Body no_options
    {| NODE_ENV := None |} req
  = Sent req
      {| statusCode := 400;
         json := {| success := false;
                    error_message := "Validation failed";
                    error_code := VALIDATION_ERROR;
                    error_details :=
                      Some [{| field := "email"; message := "Invalid email format";
                               Middleware.value := None |};
                            {| field := "height_cm";
                               message := "Height must be at least 50 cm";
                               Middleware.value := None |};
                            {| field := "weight_kg";
                               message := "Weight must be at most 300 kg";
                               Middleware.value := None |}] |} |}.
Proof.
  intros req.
  apply (proj2 (validate_reports_every_failure Example.runtime) Body no_options
           {| NODE_ENV := None |} req
           (list_to_map
              [("id", num 7); ("email", VStr "not-an-email");
               ("height_cm", num 10); ("weight_kg", num 1000)])
           "not-an-email");
    [reflexivity|by vm_compute..|].
  unfold others_valid. unfold_schemas.
  repeat apply Forall_cons_2; try apply Forall_nil_2;
    first [ by right; vm_compute
          | left; cbn [fst]; repeat first [apply list_elem_of_here | apply list_elem_of_further] ].
Defined.




Lemma elem_of_validationPromises schemas req target r :
  (target, r) ∈ validationPromises schemas req
  <-> exists s, schema_for schemas target = Some s /\ r = s (get target req).
Proof.
  unfold validationPromises, schema_for.
  destruct target, (for_body schemas), (for_params schemas),
    (for_query schemas); cbn; split;
    first [ intros (s & [= <-] & ->); set_solver
          | intros (s & [=] & _)
          | intros Hin;
            repeat (apply elem_of_cons in Hin as [[=]|Hin]; subst; eauto);
            by apply elem_of_nil in Hin ].
Qed.

Lemma rejection_can_come_first schemas req target s :
  schema_for schemas target = Some s ->
  is_rejection (target, s (get target req)) = true ->
  exists race r rs,
    filter (fun p => is_rejection p = true) (validationPromises schemas req)
    = r :: rs
    /\ nth (race mod S (length rs)) (r :: rs) r = (target, s (get target req)).
Proof.
  intros Hs Hrej.
  assert (Hin : (target, s (get target req))
                ∈ filter (fun p => is_rejection p = true)
                    (validationPromises schemas req)).
  { apply list_elem_of_filter. split; [done|].
    apply elem_of_validationPromises. by exists s. }
  destruct (filter _ (validationPromises schemas req)) as [|r rs];
    [by apply elem_of_nil in Hin|].
  apply list_elem_of_lookup in Hin as [i Hi].
  exists i, r, rs. split; [done|].
  pose proof (lookup_lt_Some _ _ _ Hi) as Hlt. cbn [length] in Hlt.
  rewrite Nat.mod_small by done. by apply nth_lookup_Some.
Qed.


Lemma describes_format_error found : describes (map format_error found) found.
Proof. induction found as [|i found IH]; constructor; [done|exact IH]. Qed.




(** C8, as stated, fails: no configuration makes the response show the
    text of the fault; with NODE_ENV=development the response is the one of
    production. *)
Lemma fault_text_hidden_in_every_mode :
  let run mode :=
    validate (faulty "boom") Body no_options {| NODE_ENV := mode |} (body_of []) in
  run (Some "development") = run (Some "production")
  /\ run None = run (Some "production")
  /\ strings_of (run (Some "development")) = ["Internal validation error"].
Proof. by vm_compute. Qed.

(** C8 (amended).  When the evaluation of the schema fails with a fault
    that is no [ZodError], [validate] answers 500 with
    [{success: false, error: {message: "Internal validation error",
    code: "INTERNAL_ERROR"}}], without [details]: the same response for
    every fault and in every configuration, so that the text of the fault
    is never in it.  No runtime flag is read.  [validateMultiple] gives
    this answer whenever the rejection that [Promise.all] reports is such a
    fault: under every order of settlement when no schema rejects with a
    [ZodError], however many faults there are, and under some order
    otherwise; beside a [ZodError] the answer is this one or the 400 of the
    [ZodError], and in both the request is left as it was. *)
Theorem internal_error_response text :
  (forall schema target options env req,
     schema (get target req) = Threw text ->
     validate schema target options env req
     = Sent req
         {| statusCode := 500;
            json := {| success := false;
                       error_message := "Internal validation error";
                       error_code := INTERNAL_ERROR;
                       error_details := None |} |})
  /\ (forall schemas race env req target s,
        schema_for schemas target = Some s ->
        s (get target req) = Threw text ->
        (forall other s' e,
           schema_for schemas other = Some s' ->
           s' (get other req) <> Rejected e) ->
        validateMultiple schemas race env req
        = Sent req
            {| statusCode := 500;
               json := {| success := false;
                          error_message := "Internal validation error";
                          error_code := INTERNAL_ERROR;
                          error_details := None |} |})
  /\ (forall schemas race env req target s,
        schema_for schemas target = Some s ->
        s (get target req) = Threw text ->
        (exists race',
           validateMultiple schemas race' env req
           = Sent req
               {| statusCode := 500;
                  json := {| success := false;
                             error_message := "Internal validation error";
                             error_code := INTERNAL_ERROR;
                             error_details := None |} |})
        /\ (validateMultiple schemas race env req
            = Sent req
                {| statusCode := 500;
                   json := {| success := false;
                              error_message := "Internal validation error";
                              error_code := INTERNAL_ERROR;
                              error_details := None |} |}
            \/ exists other s' e details,
                 schema_for schemas other = Some s'
                 /\ s' (get other req) = Rejected e
                 /\ describes details (errors e)
                 /\ validateMultiple schemas race env req
                    = Sent req
                        {| statusCode := 400;
                           json := {| success := false;
                                      error_message := "Validation failed";
                                      error_code := VALIDATION_ERROR;
                                      error_details := Some details |} |})).
Proof.
  assert (Hany : forall schemas race env req target s,
            schema_for schemas target = Some s ->
            s (get target req) = Threw text ->
            validateMultiple schemas race env req
            = Sent req internal_error
            \/ exists other s' e,
                 schema_for schemas other = Some s'
                 /\ s' (get other req) = Rejected e
                 /\ validateMultiple schemas race env req
                    = Sent req (validation_failed (map format_error (errors e)))).
  { intros schemas race env req target s Hs Ht.
    destruct (rejection_can_come_first schemas req target s Hs)
      as (_ & r & rs & Hf & _); [by rewrite Ht|].
    unfold validateMultiple. rewrite Hf.
    set (n := (race mod S (length rs))%nat).
    assert (nth n (r :: rs) r ∈ filter (fun p => is_rejection p = true)
                  (validationPromises schemas req)) as Hnth.
    { rewrite Hf. apply list_elem_of_In, nth_In. simpl.
      apply Nat.mod_upper_bound. lia. }
    apply list_elem_of_filter in Hnth as [_ Hin].
    destruct (nth n (r :: rs) r) as [other [v|e|text']]; cbn [snd];
      [by left| |by left].
    right. apply elem_of_validationPromises in Hin as (s' & Hs' & He).
    by exists other, s', e. }
  split_and!.
  - intros schema target options env req Hthrew.
    unfold validate. by rewrite Hthrew.
  - intros schemas race env req target s Hs Ht Hno.
    destruct (Hany schemas race env req target s Hs Ht)
      as [H|(other & s' & e & Hs' & He & _)]; [done|].
    by destruct (Hno other s' e Hs').
  - intros schemas race env req target s Hs Ht. split.
    + destruct (rejection_can_come_first schemas req target s Hs)
        as (race' & r & rs & Hf & Hn); [by rewrite Ht|].
      exists race'. unfold validateMultiple. by rewrite Hf, Hn, Ht.
    + destruct (Hany schemas race env req target s Hs Ht)
        as [H|(other & s' & e & Hs' & He & H)]; [by left|].
      right. exists other, s', e, (map format_error (errors e)).
      split_and!; [done|done|apply describes_format_error|done].
Qed.

(** C8 (amended) at a fault "boom" in development mode. *)
Lemma internal_error_response_witness :
  validate (faulty "boom") Body no_options {| NODE_ENV := Some "development" |}
    (body_of [])
  = Sent (body_of [])
      {| statusCode := 500;
         json := {| success := false;
                    error_message := "Internal validation error";
                    error_code := INTERNAL_ERROR;
                    error_details := None |} |}.
Proof.
  apply (proj1 (internal_error_response "boom")). reflexivity.
Defined.

(** C9.  When [validate] lets a request pass with a schema of the
    registry, the payload it stored is an object that has no key outside
    the shape of the schema: unknown keys are always stripped.  The option
    [stripUnknown] changes nothing, with any schema and on any request. *)
Theorem unknown_keys_always_stripped rt name o target options env req req' :
  (name, o) ∈ userSchemas rt ->
  validate (parseAsync o) target options env req = Next req' ->
  (exists out,
     get target req' = Some (VObj out)
     /\ forall k, k ∉ (shape o).*1 -> out !! k = None)
  /\ (forall flag (schema : ZodSchema) target' env' req'',
        validate schema target'
          {| stripUnknown := flag; abortEarly := abortEarly options |} env' req''
        = validate schema target' options env' req'').
Proof.
  intros Hin Hnext. unfold validate in *.
  destruct (parseAsync o (get target req)) as [v| |] eqn:Hp; [|done..].
  injection Hnext as <-. split; [|done].
  apply parseAsync_resolved in Hp as Hp'. destruct Hp' as (m & Hm & _ & ->).
  rewrite Hm in Hp. eexists. split; [by destruct target|].
  intros k Hk. by apply (resolved_undeclared _ _ _ _ Hp).
Qed.

(** C9 at a pagination query with an undeclared key [admin]. *)
Lemma unknown_keys_always_stripped_witness :
  let req :=
    query_of [("page", VStr "2"); ("admin", VBool true); ("limit", VStr "5")] in
  exists out,
    validate (parseAsync paginationQuerySchema) Query no_options
      {| NODE_ENV := None |} req
    = Next {| body := None; params := None; query := Some (VObj out) |}
    /\ out !! "admin" = None.
Proof.
  intros req.
  assert (exists out,
            validate (parseAsync paginationQuerySchema) Query no_options
              {| NODE_ENV := None |} req
            = Next {| body := None; params := None; query := Some (VObj out) |})
    as [out Hnext] by (eexists; by vm_compute).
  exists out. split; [done|].
  assert (("paginationQuery", paginationQuerySchema) ∈ userSchemas Example.runtime)
    as Hin by (by repeat first [apply list_elem_of_here | apply list_elem_of_further]).
  destruct (unknown_keys_always_stripped _ _ _ _ _ _ _ _ Hin Hnext)
    as [(out' & Hget & Hstrip) _].
  injection Hget as <-. apply Hstrip.
  apply (bool_decide_unpack _). by vm_compute.
Defined.


(** ** Numbers *)

Section Numbers.

Lemma isInteger_of_Z z : isInteger (of_Z z) = true.
Proof. unfold isInteger, of_Z; simpl. by rewrite Z.mod_1_r. Qed.

Lemma le_of_Z a b : Js.le (of_Z a) (of_Z b) = (a <=? b).
Proof. unfold Js.le, of_Z, Qle_bool; simpl. by rewrite !Z.mul_1_r. Qed.

Lemma lt_of_Z a b : Js.lt (of_Z a) (of_Z b) = (a <? b).
Proof.
  unfold Js.lt, of_Z, Qle_bool; simpl. rewrite !Z.mul_1_r.
  by rewrite Z.ltb_antisym.
Qed.

Lemma double_of_Z_small z : Z.abs z < 2 ^ 53 -> double_of_Z z = of_Z z.
Proof.
  intros Hz. unfold double_of_Z.
  by apply Z.ltb_lt in Hz as ->.
Qed.

(** Rounding to a double keeps a positive integer positive. *)
Lemma double_of_Z_positive z :
  0 < z ->
  isNaN (double_of_Z z) = false /\ Js.gt (double_of_Z z) (of_Z 0) = true.
Proof.
  intros Hz. unfold double_of_Z.
  destruct (Z.abs z <? 2 ^ 53) eqn:Hsmall.
  - split; [done|]. unfold Js.gt. rewrite lt_of_Z. by apply Z.ltb_lt.
  - apply Z.ltb_ge in Hsmall. rewrite Z.abs_eq in * by lia.
    set (e := Z.log2 z - 52).
    assert (0 < e) as He.
    { unfold e. assert (53 <= Z.log2 z); [|lia].
      apply Z.log2_le_pow2; lia. }
    assert (0 < 2 ^ e) as Hpow by (apply Z.pow_pos_nonneg; lia).
    assert (0 < z / 2 ^ e) as Hq.
    { apply Z.div_str_pos. split; [done|].
      transitivity (2 ^ Z.log2 z); [|apply Z.log2_spec; lia].
      apply Z.pow_le_mono_r; unfold e; lia. }
    set (q' := if (_ || _)%bool then _ else _).
    assert (0 < q') as Hq' by (unfold q'; case_match; lia).
    destruct (2 ^ 1024 <=? q' * 2 ^ e).
    + split; [done|]. unfold Js.gt, Js.lt, of_Z.
      assert ((z <? 0) = false) as -> by (apply Z.ltb_ge; lia). done.
    + split; [done|]. unfold Js.gt. rewrite lt_of_Z. apply Z.ltb_lt.
      rewrite Z.sgn_pos by done. nia.
Qed.

End Numbers.

(** ** Acceptance *)

Section Acceptance.

Lemma accepts_optional_absent t : accepts (optional t) None None.
Proof. done. Qed.

Lemma accepts_optional t v y :
  accepts t (Some v) y -> accepts (optional t) (Some v) y.
Proof. done. Qed.

Lemma accepts_nullable_absent t y :
  accepts t None y -> accepts (nullable t) None y.
Proof. done. Qed.

Lemma accepts_nullable_null t : accepts (nullable t) (Some VNull) (Some VNull).
Proof. done. Qed.

Lemma accepts_nullable t v y :
  v <> VNull -> accepts t (Some v) y -> accepts (nullable t) (Some v) y.
Proof. by destruct v. Qed.

Lemma accepts_default_absent d t y :
  accepts t (Some d) y -> accepts (default d t) None y.
Proof. done. Qed.

Lemma accepts_default d t v y :
  accepts t (Some v) y -> accepts (default d t) (Some v) y.
Proof. done. Qed.

Lemma accepts_transform f t x y :
  accepts t x y -> accepts (transform f t) x (f y).
Proof.
  intros (Hs & Hv & Hi). unfold accepts, transform. rewrite Hs. simpl.
  by rewrite Hv, Hi.
Qed.

Lemma accepts_refine check msg t x y :
  accepts t x y -> check y = true -> accepts (refine check msg t) x y.
Proof.
  intros (Hs & Hv & Hi) Hc. unfold accepts, refine.
  rewrite Hs, Hv, Hc. by simpl.
Qed.

(** A refinement that fails on an accepted value is the only issue. *)
Lemma refine_fails check msg t x y :
  accepts t x y -> check y = false ->
  status (refine check msg t x) = dirty
  /\ concat (issues (refine check msg t x))
     = [{| code := custom; path := []; Zod.message := msg; received := None |}].
Proof.
  intros (Hs & Hv & Hi) Hc. unfold refine.
  rewrite Hs, Hv, Hc, Hi. simpl. split; [done|].
  unfold at_round. rewrite concat_app. simpl.
  assert (forall n, concat (replicate n ([] : list ZodIssue)) = []) as ->; [|done].
  intros n. by induction n.
Qed.

Lemma accepts_z_number p cs n :
  isNaN n = false ->
  concat (map (fun c => number_check p c n) cs) = [] ->
  accepts (z_number p cs) (Some (VNum n)) (Some (VNum n)).
Proof.
  intros Hn Hc. unfold accepts, z_number. simpl. by rewrite Hn, Hc.
Qed.

Lemma accepts_z_string p cs s s' :
  string_checks p cs s = (s', []) ->
  accepts (z_string p cs) (Some (VStr s)) (Some (VStr s')).
Proof. intros Hc. unfold accepts, z_string. by rewrite Hc. Qed.

Lemma accepts_z_enum values p s :
  s ∈ values -> accepts (z_enum values p) (Some (VStr s)) (Some (VStr s)).
Proof.
  intros Hs. unfold accepts, z_enum. by rewrite bool_decide_eq_true_2.
Qed.

End Acceptance.

Lemma field_issues_eq o m k t :
  well_keyed o -> (k, t) ∈ shape o ->
  field_issues o (Some (VObj m)) k
  = map (with_key k) (concat (issues (t (m !! k)))).
Proof.
  intros [Hnd _] Hin. unfold field_issues; simpl.
  apply pushed_of_field; [by rewrite parse_pairs_keys|].
  by apply elem_of_parse_pairs.
Qed.

Lemma resolves_when_valid o m :
  Forall (fun f => status (f.2 (m !! f.1)) = valid) (shape o) ->
  exists out, parseAsync o (Some (VObj m)) = Resolved (Some (VObj out)).
Proof.
  intros Hall. eexists. apply parseAsync_resolved. by exists m.
Qed.

Lemma rejects_when_issue o m k i :
  Forall (fun f => well_behaved f.2) (shape o) ->
  i ∈ field_issues o (Some (VObj m)) k ->
  exists e, parseAsync o (Some (VObj m)) = Rejected e /\ i ∈ errors e.
Proof.
  intros Hwb Hi. unfold field_issues in Hi; simpl in Hi.
  apply list_elem_of_filter in Hi as [_ Hi].
  pose proof (parseAsync_settles o (Some (VObj m)) Hwb) as Hs.
  destruct (parseAsync o (Some (VObj m))) as [v|e|text]; [|exists e|done].
  - destruct Hs as (m' & [= <-] & Hnil). rewrite Hnil in Hi.
    by apply elem_of_nil in Hi.
  - by rewrite Hs.
Qed.

Ltac in_registry :=
  unfold userSchemas;
  by repeat first [apply list_elem_of_here | apply list_elem_of_further].

Ltac in_shape :=
  unfold_schemas;
  by repeat first [apply list_elem_of_here | apply list_elem_of_further].

(** C5.  For a login payload whose auth_date is a positive integer [t],
    with [now] the current time in seconds, no failure is reported for
    auth_date exactly when [now - 300 <= t <= now + 60]; outside the window
    the failure reported is that of the refinement. *)
Theorem auth_date_window rt m t :
  m !! "auth_date" = Some (VNum (of_Z t)) ->
  0 < t ->
  let now := now rt / 1000 in
  (field_issues (loginSchema rt) (Some (VObj m)) "auth_date" = []
   <-> now - 300 <= t <= now + 60)
  /\ (~ (now - 300 <= t <= now + 60) ->
      field_issues (loginSchema rt) (Some (VObj m)) "auth_date"
      = [{| code := custom; path := ["auth_date"];
            Zod.message := "Authentication date is invalid or expired";
            received := None |}])
  /\ (t = now - 300 \/ t = now + 60 ->
      field_issues (loginSchema rt) (Some (VObj m)) "auth_date" = [])
  /\ (t = now - 301 \/ t = now + 61 ->
      field_issues (loginSchema rt) (Some (VObj m)) "auth_date" <> []).
Proof.
  intros Hm Ht now.
  erewrite field_issues_eq;
    [|apply (registry_well_keyed rt "login"); in_registry|in_shape].
  rewrite Hm.
  match goal with
  | |- context [refine ?c ?msg ?t ?x] =>
      assert (accepts t x x) as Hacc;
      [|pose proof (accepts_refine c msg t x x Hacc) as Hpass;
        pose proof (refine_fails c msg t x x Hacc) as Hfail;
        destruct (c x) eqn:Hc]
  end.
  { apply accepts_z_number; [done|]. cbn -[isInteger Js.le of_Z].
    rewrite isInteger_of_Z, le_of_Z.
    by assert ((t <=? 0) = false) as -> by (apply Z.leb_gt; lia). }
  all: unfold auth_date_in_window, Js.ge in Hc; rewrite !le_of_Z in Hc;
    fold now in Hc.
  - apply andb_true_iff in Hc as [H1%Z.leb_le H2%Z.leb_le].
    destruct Hpass as (_ & _ & ->); [done|]. simpl.
    split_and!; try done; lia.
  - destruct Hfail as [_ ->]; [done|]. simpl.
    apply andb_false_iff in Hc as [H1%Z.leb_gt|H2%Z.leb_gt];
      (split_and!; [split; [done|lia]|done|lia|done]).
Qed.

(** C5 at the lower boundary: the clock of the example runtime reads
    1700000000 s, and auth_date is 300 s before. *)
Lemma auth_date_window_witness :
  let m : gmap string Js.value :=
    list_to_map [("id", num 7); ("auth_date", num 1699999700)] in
  field_issues (loginSchema Example.runtime) (Some (VObj m)) "auth_date" = [].
Proof.
  intros m.
  apply (proj1 (proj2 (proj2 (auth_date_window Example.runtime m 1699999700
                                ltac:(by vm_compute) ltac:(lia))))).
  left. by vm_compute.
Defined.


(** ** The pagination query *)

Lemma pagination_well_keyed : well_keyed paginationQuerySchema.
Proof. apply (registry_well_keyed Example.runtime "paginationQuery"). in_registry. Qed.

Lemma pagination_well_behaved :
  Forall (fun f => well_behaved f.2) (shape paginationQuerySchema).
Proof.
  apply (registry_well_behaved Example.runtime "paginationQuery"). in_registry.
Qed.

(** C6, as stated, fails on [limit=abc]: the violation reported is the
    one reported for [limit=101], of code custom, and no type violation. *)
Lemma limit_abc_is_no_type_violation :
  let run s :=
    validate (parseAsync paginationQuerySchema) Query no_options
      {| NODE_ENV := None |} (query_of [("limit", VStr s)]) in
  let abc := query_of [("limit", VStr "abc")] in
  parseAsync paginationQuerySchema (query abc)
  = Rejected {| first_error := limit_violation; more_errors := [] |}
  /\ code limit_violation <> invalid_type
  /\ details_of (run "abc") = details_of (run "101")
  /\ details_of (run "abc")
     = [{| field := "limit"; message := "Limit must be between 1 and 100";
           Middleware.value := None |}].
Proof. by vm_compute. Qed.

(** C6 (amended).  For a pagination query: an absent page, limit or order
    is no failure and normalises to 1, 10 and 'asc'; limit="100" is no
    failure and normalises to the integer 100; limit="101", "0" and "abc"
    all fail with the one violation of the refinement, "Limit must be
    between 1 and 100" (for "abc" too, which parses to NaN: no type
    violation is reported);
    order is no failure exactly when it is absent, 'asc' or 'desc'. *)
Theorem pagination_query_rules m :
  let o := paginationQuerySchema in
  let data := Some (VObj m) in
  (forall out,
     parseAsync o data = Resolved (Some (VObj out)) ->
     (m !! "page" = None -> out !! "page" = Some (num 1))
     /\ (m !! "limit" = None -> out !! "limit" = Some (num 10))
     /\ (m !! "order" = None -> out !! "order" = Some (VStr "asc"))
     /\ (m !! "limit" = Some (VStr "100") ->
         out !! "limit" = Some (num 100))
     /\ (out !! "order" = Some (VStr "asc")
         \/ out !! "order" = Some (VStr "desc")))
  /\ (m !! "page" = None -> field_issues o data "page" = [])
  /\ (m !! "limit" = None \/ m !! "limit" = Some (VStr "100") ->
      field_issues o data "limit" = [])
  /\ (m !! "limit" = Some (VStr "101") \/ m !! "limit" = Some (VStr "0")
      \/ m !! "limit" = Some (VStr "abc") ->
      field_issues o data "limit" = [limit_violation])
  /\ (field_issues o data "order" = []
      <-> m !! "order" = None \/ m !! "order" = Some (VStr "asc")
          \/ m !! "order" = Some (VStr "desc"))
  /\ (others_valid o m ["limit"] ->
      m !! "limit" = None \/ m !! "limit" = Some (VStr "100") ->
      exists out, parseAsync o data = Resolved (Some (VObj out)))
  /\ (m !! "limit" = Some (VStr "101") \/ m !! "limit" = Some (VStr "0")
      \/ m !! "limit" = Some (VStr "abc") ->
      exists e, parseAsync o data = Rejected e /\ limit_violation ∈ errors e)
  /\ parseInt "abc" = NaN
  /\ limit_ok (Some (VNum NaN)) = false.
Proof.
  assert (forall m : gmap string Js.value,
            m !! "limit" = Some (VStr "101") \/ m !! "limit" = Some (VStr "0")
            \/ m !! "limit" = Some (VStr "abc") ->
            field_issues paginationQuerySchema (Some (VObj m)) "limit"
            = [limit_violation]) as Hbad.
  { intros m' Hm.
    erewrite field_issues_eq; [|apply pagination_well_keyed|in_shape].
    by destruct Hm as [->|[->| ->]]. }
  intros o data. subst o data. split_and!; [..|done|done].
  7:{ intros Hm.
      apply (rejects_when_issue paginationQuerySchema m "limit").
      - apply pagination_well_behaved.
      - rewrite (Hbad m Hm). left. }
  6:{ intros Hothers Hm. apply resolves_when_valid.
      unfold others_valid in Hothers. revert Hothers. unfold_schemas.
      intros Hothers.
      repeat match goal with
             | H : Forall _ (_ :: _) |- _ => apply Forall_cons in H as [? H]
             end.
      cbn [fst snd] in *.
      repeat apply Forall_cons_2; try apply Forall_nil_2; cbn [fst snd];
        try (match goal with
             | H : _ ∈ _ \/ ?P |- ?P =>
                 destruct H as [H|H]; [|exact H];
                 exfalso; apply list_elem_of_singleton in H; discriminate H
             end).
      by destruct Hm as [->| ->]. }
  - intros out Hres.
    pose proof (fun k t =>
                  resolved_lookup paginationQuerySchema m out k t
                    pagination_well_keyed Hres) as Hout.
    split_and!.
    + intros Hm. edestruct (Hout "page") as [_ ->]; [in_shape|].
      by rewrite Hm.
    + intros Hm. edestruct (Hout "limit") as [_ ->]; [in_shape|].
      by rewrite Hm.
    + intros Hm. edestruct (Hout "order") as [_ ->]; [in_shape|].
      by rewrite Hm.
    + intros Hm. edestruct (Hout "limit") as [_ ->]; [in_shape|].
      by rewrite Hm.
    + edestruct (Hout "order") as [Hst ->]; [in_shape|]. revert Hst.
      unfold default, optional, z_enum.
      destruct (m !! "order") as [[| | |s| |]|]; simpl; try done; [|by left].
      case_bool_decide as Hs; [|done]. intros _.
      apply elem_of_cons in Hs as [->|Hs]; [by left|].
      apply list_elem_of_singleton in Hs as ->. by right.
  - intros Hm. erewrite field_issues_eq; [|apply pagination_well_keyed|in_shape].
    by rewrite Hm.
  - intros Hm. erewrite field_issues_eq; [|apply pagination_well_keyed|in_shape].
    by destruct Hm as [->| ->].
  - apply Hbad.
  - erewrite field_issues_eq; [|apply pagination_well_keyed|in_shape].
    unfold default, optional, z_enum.
    destruct (m !! "order") as [[| | |s| |]|]; simpl;
      try (split; [done|by intros [?|[?|?]]]); [|split; auto].
    case_bool_decide as Hs; simpl.
    + split; [intros _|done].
      apply elem_of_cons in Hs as [->|Hs]; [by right; left|].
      apply list_elem_of_singleton in Hs as ->. by right; right.
    + split; [done|]. intros [?|[[= ->]|[= ->]]]; [done|..];
        exfalso; apply Hs; [left|right; left].
Qed.

(** C6 (amended) at [limit=101&page=3]. *)
Lemma pagination_query_rules_witness :
  field_issues paginationQuerySchema
    (obj [("limit", VStr "101"); ("page", VStr "3")]) "limit"
  = [limit_violation].
Proof.
  apply (pagination_query_rules
           (list_to_map [("limit", VStr "101"); ("page", VStr "3")])).
  left. by vm_compute.
Defined.

(** ** parseInt *)

Lemma digit_is_no_space_or_sign c d :
  digit_of c = Some d ->
  is_ws c = false /\ c <> "-"%char /\ c <> "+"%char.
Proof.
  intros Hd.
  assert (48 <= charCode c <= 57) as Hc.
  { unfold digit_of in Hd.
    destruct (48 <=? charCode c) eqn:H1, (charCode c <=? 57) eqn:H2; try done. lia. }
  split_and!.
  - unfold is_ws. destruct (9 <=? charCode c) eqn:H1, (charCode c <=? 13) eqn:H2,
      (charCode c =? 32) eqn:H3, (charCode c =? 160) eqn:H4; try done; lia.
  - intros ->. vm_compute in Hc. destruct Hc as [Hc _]. by apply Hc.
  - intros ->. vm_compute in Hc. destruct Hc as [Hc _]. by apply Hc.
Qed.

(** On a string that starts with a digit, [parseInt] is the double of its
    leading decimal number, whatever follows. *)
Lemma parseInt_decimal_prefix s n :
  decimal_prefix s = Some n -> parseInt s = double_of_Z n.
Proof.
  destruct s as [|c s]; [done|]. intros Hp. unfold parseInt.
  assert (exists d, digit_of c = Some d) as [d Hd].
  { simpl in Hp. destruct (digit_of c); [by eexists|done]. }
  destruct (digit_is_no_space_or_sign c d Hd) as (Hws & Hminus & Hplus).
  cbn [trimStart]. rewrite Hws.
  assert (match String c s with
          | String "-" r => (-1, r)
          | String "+" r => (1, r)
          | _ => (1, String c s)
          end = (1, String c s)) as ->.
  { destruct c as [[] [] [] [] [] [] [] []]; try done. }
  rewrite Hp. by rewrite Z.mul_1_l.
Qed.

Lemma accepts_page s n :
  decimal_prefix s = Some n -> 0 < n ->
  accepts
    (z_string no_params []
     |> optional |> default (VStr "1") |> transform parseInt10
     |> refine page_ok "Page must be a positive number")
    (Some (VStr s)) (Some (VNum (double_of_Z n))).
Proof.
  intros Hp Hn. apply accepts_refine.
  - rewrite <- (parseInt_decimal_prefix s n Hp).
    apply (accepts_transform parseInt10 _ _ (Some (VStr s))).
    by apply accepts_default, accepts_optional, accepts_z_string.
  - unfold page_ok. destruct (double_of_Z_positive n Hn) as [-> ->]. done.
Qed.

Lemma accepts_limit s n :
  decimal_prefix s = Some n -> 1 <= n <= 100 ->
  accepts
    (z_string no_params []
     |> optional |> default (VStr "10") |> transform parseInt10
     |> refine limit_ok "Limit must be between 1 and 100")
    (Some (VStr s)) (Some (num n)).
Proof.
  intros Hp Hn. unfold num.
  rewrite <- (double_of_Z_small n) by lia.
  apply accepts_refine.
  - rewrite <- (parseInt_decimal_prefix s n Hp).
    apply (accepts_transform parseInt10 _ _ (Some (VStr s))).
    by apply accepts_default, accepts_optional, accepts_z_string.
  - unfold limit_ok.
    destruct (double_of_Z_positive n) as [-> ->]; [lia|].
    rewrite double_of_Z_small, le_of_Z by lia. simpl. apply Z.leb_le. lia.
Qed.

(** C10.  The page and limit of a pagination query are accepted as soon as
    the string starts with a decimal number in range, whatever follows it,
    and they normalise to that number: limit to the leading number itself
    when it is between 1 and 100, page to the double nearest to the leading
    number when it is positive, which is the number itself below 2^53.
    So limit="10.5" and page="2abc" are accepted, as the integers 10 and
    2. *)
Theorem pagination_reads_decimal_prefix :
  (forall m s n,
     decimal_prefix s = Some n ->
     let data := Some (VObj m) in
     (m !! "limit" = Some (VStr s) -> 1 <= n <= 100 ->
      field_issues paginationQuerySchema data "limit" = []
      /\ forall out,
           parseAsync paginationQuerySchema data = Resolved (Some (VObj out)) ->
           out !! "limit" = Some (num n))
     /\ (m !! "page" = Some (VStr s) -> 0 < n ->
         field_issues paginationQuerySchema data "page" = []
         /\ (forall out,
               parseAsync paginationQuerySchema data = Resolved (Some (VObj out)) ->
               out !! "page" = Some (VNum (double_of_Z n)))
         /\ (n < 2 ^ 53 -> double_of_Z n = of_Z n)))
  /\ decimal_prefix "10.5" = Some 10
  /\ decimal_prefix "2abc" = Some 2
  /\ parseAsync paginationQuerySchema
       (obj [("limit", VStr "10.5"); ("page", VStr "2abc")])
     = Resolved
         (obj [("page", num 2); ("limit", num 10);
                       ("order", VStr "asc")]).
Proof.
  split_and!; [|by vm_compute..].
  intros m s n Hp data. subst data. split.
  - intros Hm Hn. destruct (accepts_limit s n Hp Hn) as (Hs & Hv & Hi). split.
    + erewrite field_issues_eq; [|apply pagination_well_keyed|in_shape].
      rewrite Hm. by rewrite Hi.
    + intros out Hres.
      edestruct (resolved_lookup paginationQuerySchema m out "limit")
        as [_ ->]; [apply pagination_well_keyed|done|in_shape|].
      rewrite Hm. exact Hv.
  - intros Hm Hn. destruct (accepts_page s n Hp Hn) as (Hs & Hv & Hi). split_and!.
    + erewrite field_issues_eq; [|apply pagination_well_keyed|in_shape].
      rewrite Hm. by rewrite Hi.
    + intros out Hres.
      edestruct (resolved_lookup paginationQuerySchema m out "page")
        as [_ ->]; [apply pagination_well_keyed|done|in_shape|].
      rewrite Hm. exact Hv.
    + intros Hsmall. apply double_of_Z_small. lia.
Qed.

(** C10 at [limit=10.5&page=2abc]. *)
Lemma pagination_reads_decimal_prefix_witness :
  field_issues paginationQuerySchema
    (obj [("limit", VStr "10.5"); ("page", VStr "2abc")]) "limit" = []
  /\ field_issues paginationQuerySchema
       (obj [("limit", VStr "10.5"); ("page", VStr "2abc")]) "page" = [].
Proof.
  pose proof (proj1 pagination_reads_decimal_prefix) as Hgen.
  split.
  - apply (Hgen (list_to_map [("limit", VStr "10.5"); ("page", VStr "2abc")])
             "10.5" 10); [by vm_compute..|lia].
  - apply (Hgen (list_to_map [("limit", VStr "10.5"); ("page", VStr "2abc")])
             "2abc" 2); [by vm_compute..|lia].
Defined.

(** ** Strings *)

Section Strings.

Lemma last_char_None s : last_char s = None -> s = "".
Proof. destruct s as [|c s]; [done|]. simpl. by destruct (last_char s). Qed.

Lemma append_nil_l s : "" +:+ s = s.
Proof. done. Qed.

Lemma append_cons c s1 s2 : String c s1 +:+ s2 = String c (s1 +:+ s2).
Proof. done. Qed.

Lemma last_char_app s1 s2 :
  last_char (s1 +:+ s2)
  = match last_char s2 with
    | Some d => Some d
    | None => last_char s1
    end.
Proof.
  induction s1 as [|c s1 IH].
  - rewrite append_nil_l. by destruct (last_char s2).
  - rewrite append_cons. simpl. rewrite IH. by destruct (last_char s2).
Qed.

Lemma trimStart_length s : str_length (trimStart s) <= str_length s.
Proof.
  unfold str_length. induction s as [|c s IH]; simpl; [done|].
  destruct (is_ws c); simpl; lia.
Qed.

Lemma trimEnd_length s : str_length (trimEnd s) <= str_length s.
Proof.
  unfold str_length. induction s as [|c s IH]; simpl; [done|].
  destruct (trimEnd s); [destruct (is_ws c)|]; simpl in *; lia.
Qed.

Lemma trim_length s : str_length (Js.trim s) <= str_length s.
Proof.
  unfold Js.trim. pose proof (trimEnd_length (trimStart s)).
  pose proof (trimStart_length s). lia.
Qed.

Lemma trimEnd_idem s : trimEnd (trimEnd s) = trimEnd s.
Proof.
  induction s as [|c s IH]; simpl; [done|].
  destruct (trimEnd s) as [|d t] eqn:Ht.
  - destruct (is_ws c) eqn:Hc; simpl; [done|]. by rewrite Hc.
  - change (trimEnd (String c (String d t)))
      with (match trimEnd (String d t) with
            | EmptyString => if is_ws c then EmptyString else String c EmptyString
            | u => String c u
            end).
    by rewrite IH.
Qed.

Lemma trimStart_clean s : starts_clean s -> trimStart s = s.
Proof.
  destruct s as [|c s]; [done|]. intros Hc. simpl. by rewrite (Hc c).
Qed.

Lemma trimEnd_clean s : ends_clean s -> trimEnd s = s.
Proof.
  unfold ends_clean. induction s as [|c s IH]; [done|]. simpl. intros Hc.
  destruct (last_char s) as [d|] eqn:Hl.
  - rewrite IH by done. destruct s; [done|done].
  - apply last_char_None in Hl as ->. simpl. by rewrite (Hc c).
Qed.

Lemma trim_clean s : starts_clean s -> ends_clean s -> Js.trim s = s.
Proof.
  intros Hs He. unfold Js.trim. rewrite trimStart_clean by done.
  by apply trimEnd_clean.
Qed.

Lemma trimStart_starts_clean s : starts_clean (trimStart s).
Proof.
  induction s as [|c s IH]; [done|]. simpl.
  destruct (is_ws c) eqn:Hc; [done|]. by intros d [= <-].
Qed.

Lemma trimEnd_starts_clean s : starts_clean s -> starts_clean (trimEnd s).
Proof.
  destruct s as [|c s]; [done|]. intros Hc. simpl.
  destruct (trimEnd s); [|by intros d [= <-]; apply Hc].
  rewrite (Hc c) by done. intros d [= <-]. by apply Hc.
Qed.

Lemma trim_idem s : Js.trim (Js.trim s) = Js.trim s.
Proof.
  unfold Js.trim.
  rewrite (trimStart_clean (trimEnd (trimStart s))).
  - apply trimEnd_idem.
  - apply trimEnd_starts_clean, trimStart_starts_clean.
Qed.

Lemma lower_char_idem c : lower_char (lower_char c) = lower_char c.
Proof. by destruct c as [[] [] [] [] [] [] [] []]. Qed.

Lemma is_ws_lower_char c : is_ws (lower_char c) = is_ws c.
Proof. by destruct c as [[] [] [] [] [] [] [] []]. Qed.

Lemma toLowerCase_idem s : Js.toLowerCase (Js.toLowerCase s) = Js.toLowerCase s.
Proof.
  induction s as [|c s IH]; [done|]. simpl. by rewrite lower_char_idem, IH.
Qed.

Lemma toLowerCase_length s : str_length (Js.toLowerCase s) = str_length s.
Proof.
  unfold str_length. induction s as [|c s IH]; [done|]. simpl. lia.
Qed.

Lemma toLowerCase_trimStart s :
  Js.toLowerCase (trimStart s) = trimStart (Js.toLowerCase s).
Proof.
  induction s as [|c s IH]; [done|]. simpl. rewrite is_ws_lower_char.
  by destruct (is_ws c).
Qed.

Lemma toLowerCase_trimEnd s :
  Js.toLowerCase (trimEnd s) = trimEnd (Js.toLowerCase s).
Proof.
  induction s as [|c s IH]; [done|]. simpl. rewrite <- IH, is_ws_lower_char.
  destruct (trimEnd s); [by destruct (is_ws c)|done].
Qed.

Lemma toLowerCase_trim s :
  Js.toLowerCase (Js.trim s) = Js.trim (Js.toLowerCase s).
Proof. unfold Js.trim. by rewrite toLowerCase_trimEnd, toLowerCase_trimStart. Qed.

End Strings.

(** ** Patterns *)

Section Patterns.
Import Regex.

Lemma nullable_lang r : nullable r = true -> lang r "".
Proof.
  induction r; simpl; try done.
  - intros _. constructor.
  - intros [H1 H2]%andb_true_iff. apply (lang_seq _ _ "" ""); auto.
  - intros [H1|H2]%orb_true_iff; [apply lang_alt_l|apply lang_alt_r]; auto.
  - intros _. constructor.
Qed.

Lemma deriv_lang c r s : lang (deriv c r) s -> lang r (String c s).
Proof.
  revert s. induction r as [| |p|r1 IH1 r2 IH2|r1 IH1 r2 IH2|r IH]; simpl; intros s Hl.
  - inversion Hl.
  - inversion Hl.
  - destruct (p c) eqn:Hp; inversion Hl; subst. by constructor.
  - assert (forall u, lang (Seq (deriv c r1) r2) u -> lang (Seq r1 r2) (String c u))
      as Hseq.
    { intros u Hu. inversion Hu as [| |? ? s1 s2 Hs1 Hs2| | | |]; subst.
      apply (lang_seq r1 r2 (String c s1) s2); auto. }
    destruct (nullable r1) eqn:Hn; [|by apply Hseq].
    inversion Hl; subst; [by apply Hseq|].
    apply (lang_seq r1 r2 "" (String c s)); [by apply nullable_lang|auto].
  - inversion Hl; subst; [apply lang_alt_l|apply lang_alt_r]; auto.
  - inversion Hl as [| |? ? s1 s2 Hs1 Hs2| | | |]; subst.
    apply (lang_star_app r (String c s1) s2); auto.
Qed.

(** Every string that the matcher accepts is a word of the pattern. *)
Lemma test_lang r s : test r s = true -> lang r s.
Proof.
  revert r. induction s as [|c s IH]; simpl; intros r Ht.
  - by apply nullable_lang.
  - by apply deriv_lang, IH.
Qed.

Lemma lang_nullable r s : lang r s -> s = "" -> nullable r = true.
Proof.
  induction 1 as [|p c Hp|r1 r2 s1 s2 _ IH1 _ IH2|r1 r2 s _ IH|r1 r2 s _ IH| |];
    simpl; intros Hs; try done.
  - destruct s1; [|done]. rewrite append_nil_l in Hs. by rewrite IH1, IH2.
  - by rewrite IH.
  - rewrite IH by done. apply orb_true_r.
Qed.

Lemma lang_deriv c r s s' :
  lang r s -> s = String c s' -> lang (deriv c r) s'.
Proof.
  intros Hl. revert s'.
  induction Hl as [|p d Hp|r1 r2 s1 s2 H1 IH1 H2 IH2|r1 r2 s _ IH|r1 r2 s _ IH
                  |r|r s1 s2 H1 IH1 H2 IH2];
    intros s' Hs; simpl; try done.
  - injection Hs as <- <-. rewrite Hp. constructor.
  - destruct s1 as [|d s1].
    + rewrite append_nil_l in Hs.
      rewrite (lang_nullable _ _ H1 eq_refl). apply lang_alt_r. by apply IH2.
    + rewrite append_cons in Hs. injection Hs as -> <-.
      assert (lang (Seq (deriv c r1) r2) (s1 +:+ s2)) as Hseq
        by (apply lang_seq; auto).
      destruct (nullable r1); [by apply lang_alt_l|done].
  - apply lang_alt_l. by apply IH.
  - apply lang_alt_r. by apply IH.
  - destruct s1 as [|d s1].
    + rewrite append_nil_l in Hs. by apply IH2.
    + rewrite append_cons in Hs. injection Hs as -> <-.
      apply lang_seq; auto.
Qed.

(** The matcher decides the words of the pattern. *)
Lemma test_spec r s : test r s = true <-> lang r s.
Proof.
  split; [apply test_lang|].
  revert r. induction s as [|c s IH]; simpl; intros r Hl.
  - by eapply lang_nullable.
  - apply IH. by eapply lang_deriv.
Qed.

Lemma lang_first r s c :
  lang r s -> first_char s = Some c -> first_in r c = true.
Proof.
  induction 1 as [|p d Hp|r1 r2 s1 s2 H1 IH1 H2 IH2|r1 r2 s _ IH|r1 r2 s _ IH
                 |r|r s1 s2 H1 IH1 H2 IH2];
    simpl; intros Hc; try done.
  - by injection Hc as <-.
  - destruct s1 as [|d s1].
    + rewrite append_nil_l in Hc.
      rewrite (lang_nullable _ _ H1 eq_refl), IH2 by done. apply orb_true_r.
    + rewrite append_cons in Hc. by rewrite IH1.
  - by rewrite IH.
  - rewrite IH by done. apply orb_true_r.
  - destruct s1 as [|d s1]; [rewrite append_nil_l in Hc|rewrite append_cons in Hc];
      auto.
Qed.

Lemma lang_last r s c :
  lang r s -> last_char s = Some c -> last_in r c = true.
Proof.
  induction 1 as [|p d Hp|r1 r2 s1 s2 H1 IH1 H2 IH2|r1 r2 s _ IH|r1 r2 s _ IH
                 |r|r s1 s2 H1 IH1 H2 IH2];
    simpl; intros Hc; try done.
  - by injection Hc as <-.
  - rewrite last_char_app in Hc. destruct (last_char s2) as [d|] eqn:Hl.
    + by rewrite IH2.
    + apply last_char_None in Hl as ->.
      rewrite (lang_nullable _ _ H2 eq_refl), IH1 by done. apply orb_true_r.
  - by rewrite IH.
  - rewrite IH by done. apply orb_true_r.
  - rewrite last_char_app in Hc. destruct (last_char s2) as [d|] eqn:Hl; auto.
Qed.

Lemma test_clean_trim r s : clean r -> test r s = true -> Js.trim s = s.
Proof.
  intros Hr Ht%test_lang. apply trim_clean.
  - intros c Hc. apply (proj1 (Hr c)). by eapply lang_first.
  - intros c Hc. apply (proj2 (Hr c)). by eapply lang_last.
Qed.

Lemma username_re_clean : clean Patterns.username_re.
Proof. intros c. by destruct c as [[] [] [] [] [] [] [] []]. Qed.

Lemma phone_re_clean : clean Patterns.phone_re.
Proof. intros c. by destruct c as [[] [] [] [] [] [] [] []]. Qed.

End Patterns.


(** ** A schema on its own output *)

Section Stability.

Lemma keeps_stable t x : keeps t -> stable_at t x.
Proof. intros Hk Hv. rewrite (Hk x Hv). split; [done|by apply Hk]. Qed.

Lemma keeps_z_number p cs : keeps (z_number p cs).
Proof.
  intros [[| |n| | |]|]; unfold z_number; simpl; try done.
  by destruct (isNaN n).
Qed.

Lemma keeps_z_boolean p : keeps (z_boolean p).
Proof. by intros [[]|]. Qed.

Lemma keeps_z_enum values p : keeps (z_enum values p).
Proof.
  intros [[| | |s| |]|]; unfold z_enum; simpl; try done.
  by case_bool_decide.
Qed.

Lemma string_checks_plain p cs s :
  plain cs = true -> (string_checks p cs s).1 = s.
Proof.
  revert s. induction cs as [|c cs IH]; intros s; simpl; [done|].
  intros [Hc Hcs]%andb_true_iff.
  destruct (string_check p c s) as [s1 i1] eqn:H1.
  assert (s1 = s) as -> by (destruct c; simpl in H1; by injection H1).
  specialize (IH s Hcs). by destruct (string_checks p cs s).
Qed.

Lemma keeps_z_string p cs : plain cs = true -> keeps (z_string p cs).
Proof.
  intros Hp [[| | |s| |]|]; unfold z_string; simpl; try done.
  pose proof (string_checks_plain p cs s Hp) as Hs.
  destruct (string_checks p cs s) as [s' found]. simpl in *. by subst.
Qed.

Lemma keeps_optional t : keeps t -> keeps (optional t).
Proof. intros Hk [x|]; [apply Hk|done]. Qed.

Lemma keeps_nullable t : keeps t -> keeps (nullable t).
Proof. intros Hk [[]|]; try apply Hk. done. Qed.

Lemma refine_valid check msg t x :
  status (refine check msg t x) = valid ->
  status (t x) = valid /\ check (Zod.value (t x)) = true
  /\ Zod.value (refine check msg t x) = Zod.value (t x).
Proof.
  unfold refine. destruct (status (t x)) eqn:Hs; simpl; try done;
    destruct (check (Zod.value (t x))); simpl; try done.
Qed.

Lemma refine_passes check msg t x :
  status (t x) = valid -> check (Zod.value (t x)) = true ->
  status (refine check msg t x) = valid
  /\ Zod.value (refine check msg t x) = Zod.value (t x).
Proof. intros Hs Hc. unfold refine. by rewrite Hs, Hc. Qed.

Lemma keeps_refine check msg t : keeps t -> keeps (refine check msg t).
Proof.
  intros Hk x (Hs & _ & ->)%refine_valid. by apply Hk.
Qed.

Lemma stable_optional t x : stable_at t x -> stable_at (optional t) x.
Proof.
  destruct x as [v|]; [|done]. unfold stable_at. simpl. intros Hst Hv.
  destruct (Hst Hv) as [H1 H2]. by destruct (Zod.value (t (Some v))).
Qed.

Lemma stable_nullable t x : stable_at t x -> stable_at (nullable t) x.
Proof.
  unfold stable_at.
  assert (forall y, status (t y) = valid -> Zod.value (t y) = y ->
                    status (nullable t y) = valid
                    /\ Zod.value (nullable t y) = y) as Hn.
  { intros [[]|]; simpl; auto. }
  destruct x as [[]|]; simpl; try done; intros Hst Hv;
    destruct (Hst Hv) as [H1 H2]; by apply Hn.
Qed.

Lemma stable_refine check msg t x :
  stable_at t x -> stable_at (refine check msg t) x.
Proof.
  intros Hst (Hs & Hc & Hv)%refine_valid. rewrite Hv.
  destruct (Hst Hs) as [H1 H2].
  destruct (refine_passes check msg t (Zod.value (t x))) as [-> ->];
    [done|by rewrite H2|done].
Qed.

Lemma stable_max_trim p n msg x :
  stable_at (z_string p [max n msg; trim]) x.
Proof.
  destruct x as [[| | |s| |]|]; try done.
  unfold stable_at, z_string; simpl.
  destruct (n <? str_length s) eqn:Hn; [done|]. intros _. simpl.
  apply Z.ltb_ge in Hn.
  assert ((n <? str_length (Js.trim s)) = false) as ->.
  { apply Z.ltb_ge. pose proof (trim_length s). lia. }
  simpl. by rewrite trim_idem.
Qed.

Lemma stable_min_max_trim p a ma b mb x :
  (forall s, x = Some (VStr s) -> a <= str_length (Js.trim s)) ->
  stable_at (z_string p [min a ma; max b mb; trim]) x.
Proof.
  destruct x as [[| | |s| |]|]; try done. intros Hmin.
  unfold stable_at, z_string; simpl.
  destruct (str_length s <? a) eqn:Ha; [done|].
  destruct (b <? str_length s) eqn:Hb; [done|]. intros _. simpl.
  apply Z.ltb_ge in Hb.
  assert ((str_length (Js.trim s) <? a) = false) as ->.
  { apply Z.ltb_ge. by apply Hmin. }
  assert ((b <? str_length (Js.trim s)) = false) as ->.
  { apply Z.ltb_ge. pose proof (trim_length s). lia. }
  simpl. by rewrite trim_idem.
Qed.

Lemma stable_regex_trim p a ma b mb r mr x :
  clean r ->
  stable_at (z_string p [min a ma; max b mb; regex r mr; trim]) x.
Proof.
  destruct x as [[| | |s| |]|]; try done. intros Hr.
  unfold stable_at, z_string; simpl.
  destruct (str_length s <? a) eqn:Ha; [done|].
  destruct (b <? str_length s) eqn:Hb; [done|].
  destruct (Regex.test r s) eqn:Ht; [|done]. intros _. simpl.
  pose proof (test_clean_trim r s Hr Ht) as Htrim.
  rewrite !Htrim, Ha, Hb, Ht. done.
Qed.

Lemma stable_email rt x : email_check_stable rt -> stable_at (emailSchema rt) x.
Proof.
  destruct x as [[| | |s| |]|]; try done. intros Hrt.
  unfold stable_at, emailSchema, z_string; simpl.
  destruct (isEmail rt s) eqn:He; [|done].
  destruct (255 <? str_length s) eqn:Hb; [done|]. intros _. simpl.
  rewrite (Hrt s He). apply Z.ltb_ge in Hb.
  assert ((255 <? str_length (Js.trim (Js.toLowerCase s))) = false) as ->.
  { apply Z.ltb_ge. pose proof (trim_length (Js.toLowerCase s)).
    rewrite toLowerCase_length in *. lia. }
  simpl. by rewrite toLowerCase_trim, toLowerCase_idem, trim_idem.
Qed.

(** An object schema whose fields are stable at the fields of a payload it
    accepts, accepts its own output and returns it unchanged. *)
Lemma object_fixed_point o m out :
  well_keyed o ->
  parseAsync o (Some (VObj m)) = Resolved (Some (VObj out)) ->
  Forall (fun f => stable_at f.2 (m !! f.1)) (shape o) ->
  parseAsync o (Some (VObj out)) = Resolved (Some (VObj out)).
Proof.
  intros Hkeys Hres Hst.
  assert (forall k t, (k, t) ∈ shape o ->
            status (t (out !! k)) = valid
            /\ Zod.value (t (out !! k)) = out !! k) as Hfield.
  { intros k t Hin.
    destruct (resolved_lookup o m out k t Hkeys Hres Hin) as [Hv ->].
    rewrite Forall_forall in Hst. by apply (Hst (k, t)). }
  apply parseAsync_resolved. exists out. split_and!; [done|..].
  - apply Forall_forall. intros [k t] Hin. by apply Hfield.
  - do 2 f_equal. apply map_eq. intros k.
    destruct (decide (k ∈ (shape o).*1)) as [Hk|Hk].
    + apply list_elem_of_fmap in Hk as ([k' t] & -> & Hin). simpl.
      rewrite (collect_lookup _ _ k' (t (out !! k'))).
      * destruct (Hfield k' t Hin) as [_ ->]. by destruct (out !! k').
      * rewrite parse_pairs_keys. apply Hkeys.
      * intros ->. apply Hkeys. apply list_elem_of_fmap. by exists ("__proto__", t).
      * by apply elem_of_parse_pairs.
    + rewrite collect_lookup_notin by by rewrite parse_pairs_keys.
      by rewrite (resolved_undeclared o m out k Hres Hk).
Qed.

End Stability.

Create HintDb stable.

#[global] Hint Resolve keeps_stable keeps_z_number keeps_z_boolean keeps_z_enum
  keeps_z_string keeps_optional keeps_nullable keeps_refine
  stable_optional stable_nullable stable_refine stable_max_trim
  stable_min_max_trim stable_regex_trim stable_email
  username_re_clean phone_re_clean : stable.


(** C4, as stated, fails on the empty pagination query: its normalised
    output [{page: 1, limit: 10, order: 'asc'}] is rejected. *)
Lemma pagination_output_rejected :
  let normalized :=
    obj [("page", num 1); ("limit", num 10);
                 ("order", VStr "asc")] in
  parseAsync paginationQuerySchema (obj []) = Resolved normalized
  /\ parseAsync paginationQuerySchema normalized
     = Rejected {| first_error := expected_string "page";
                   more_errors := [expected_string "limit"] |}.
Proof. by vm_compute. Qed.

Lemma parsed_number_rejected d check msg x :
  status ((z_string no_params [] |> optional |> default d
           |> transform parseInt10 |> refine check msg) x) = valid ->
  (forall v, check v = true -> exists n, v = Some (VNum n) /\ isNaN n = false) ->
  exists n,
    Zod.value ((z_string no_params [] |> optional |> default d
                |> transform parseInt10 |> refine check msg) x)
    = Some (VNum n)
    /\ concat (issues ((z_string no_params [] |> optional |> default d
                        |> transform parseInt10 |> refine check msg)
                         (Some (VNum n))))
       = [{| code := invalid_type; path := [];
             Zod.message := "Expected string, received number";
             received := Some (VStr "number") |}].
Proof.
  intros (Hs & Hc & ->)%refine_valid Hcheck.
  destruct (Hcheck _ Hc) as (n & -> & Hn). exists n. split; [done|].
  unfold refine, transform, default, optional, z_string, INVALID,
    invalid_type_issue. simpl. by rewrite Hn.
Qed.

(** ** A schema on its own output, at another reading of the clock *)

Section LaterClock.

Lemma stable_at_to t x : stable_at t x -> stable_to t t x.
Proof. done. Qed.

Lemma stable_to_optional t t' x :
  stable_to t t' x -> stable_to (optional t) (optional t') x.
Proof.
  destruct x as [v|]; [|done]. unfold stable_to. simpl. intros Hst Hv.
  destruct (Hst Hv) as [H1 H2]. by destruct (Zod.value (t (Some v))).
Qed.

Lemma stable_to_nullable t t' x :
  stable_to t t' x -> stable_to (nullable t) (nullable t') x.
Proof.
  unfold stable_to.
  assert (forall y, status (t' y) = valid -> Zod.value (t' y) = y ->
                    status (nullable t' y) = valid
                    /\ Zod.value (nullable t' y) = y) as Hn.
  { intros [[]|]; simpl; auto. }
  destruct x as [[]|]; simpl; try done; intros Hst Hv;
    destruct (Hst Hv) as [H1 H2]; by apply Hn.
Qed.

(** An object schema accepts the output of another one with the same keys,
    and returns it unchanged, when field by field the second is stable on
    what the first made. *)
Lemma object_fixed_point_to o o' m out :
  well_keyed o ->
  parseAsync o (Some (VObj m)) = Resolved (Some (VObj out)) ->
  Forall2 (fun f f' => f.1 = f'.1 /\ stable_to f.2 f'.2 (m !! f.1))
    (shape o) (shape o') ->
  parseAsync o' (Some (VObj out)) = Resolved (Some (VObj out)).
Proof.
  intros Hkeys Hres Hst.
  assert (Hsame : (shape o').*1 = (shape o).*1).
  { clear -Hst. induction Hst as [|f f' l l' [Hf _] _ IH]; [done|].
    rewrite !fmap_cons. by rewrite IH, Hf. }
  assert (Hkeys' : well_keyed o') by (unfold well_keyed; by rewrite Hsame).
  assert (forall k t', (k, t') ∈ shape o' ->
            status (t' (out !! k)) = valid
            /\ Zod.value (t' (out !! k)) = out !! k) as Hfield.
  { intros k t' Hin.
    assert (exists t, (k, t) ∈ shape o /\ stable_to t t' (m !! k))
      as (t & Hin0 & Hstable).
    { clear -Hst Hin. induction Hst as [|[k0 t0] [k1 t1] l l' [Hf Hs] _ IH].
      - by apply elem_of_nil in Hin.
      - cbn in Hf, Hs. subst k1.
        apply elem_of_cons in Hin as [[= -> ->]|Hin].
        + exists t0. split; [apply list_elem_of_here|done].
        + destruct (IH Hin) as (t & Ht & Hs'). exists t.
          split; [by apply list_elem_of_further|done]. }
    destruct (resolved_lookup o m out k t Hkeys Hres Hin0) as [Hv ->].
    by apply Hstable. }
  apply parseAsync_resolved. exists out. split_and!; [done|..].
  - apply Forall_forall. intros [k t] Hin. by apply Hfield.
  - do 2 f_equal. apply map_eq. intros k.
    destruct (decide (k ∈ (shape o').*1)) as [Hk|Hk].
    + apply list_elem_of_fmap in Hk as ([k' t] & -> & Hin). simpl.
      rewrite (collect_lookup _ _ k' (t (out !! k'))).
      * destruct (Hfield k' t Hin) as [_ ->]. by destruct (out !! k').
      * rewrite parse_pairs_keys. apply Hkeys'.
      * intros ->. apply Hkeys'. apply list_elem_of_fmap. by exists ("__proto__", t).
      * by apply elem_of_parse_pairs.
    + rewrite collect_lookup_notin by by rewrite parse_pairs_keys.
      rewrite Hsame in Hk. by rewrite (resolved_undeclared o m out k Hres Hk).
Qed.

End LaterClock.

Section ClockFields.

Lemma refine_fixed check msg t x :
  status (t x) = valid -> Zod.value (t x) = x -> check x = true ->
  status (refine check msg t x) = valid
  /\ Zod.value (refine check msg t x) = x.
Proof.
  intros Hs Hv Hc.
  destruct (refine_passes check msg t x Hs) as [H1 H2]; [by rewrite Hv|].
  by rewrite H2.
Qed.

(** A schema that changes nothing in what it accepts is followed by any
    schema that accepts the same values and changes nothing in them. *)
Lemma stable_to_keeps t t' x :
  keeps t ->
  (status (t x) = valid -> status (t' x) = valid /\ Zod.value (t' x) = x) ->
  stable_to t t' x.
Proof. intros Hk Ht Hv. rewrite (Hk x Hv). by apply Ht. Qed.

Lemma z_string_valid_inv p cs x :
  status (z_string p cs x) = valid -> exists s, x = Some (VStr s).
Proof. destruct x as [[| | |s| |]|]; try done. by exists s. Qed.

Lemma z_number_valid_inv p cs x :
  status (z_number p cs x) = valid -> exists n, x = Some (VNum n).
Proof.
  destruct x as [[| |n| | |]|]; try done. by exists n.
Qed.

End ClockFields.

Ltac same_schema rt t :=
  try change (url (at_clock rt t)) with (url rt);
  try change (email (at_clock rt t)) with (email rt);
  try change (datetime (at_clock rt t)) with (datetime rt);
  try change (emailSchema (at_clock rt t)) with (emailSchema rt);
  try change (urlSchema (at_clock rt t)) with (urlSchema rt).

Ltac later_registry H :=
  unfold userSchemas in H;
  repeat (let Heq := fresh "Heq" in
          apply elem_of_cons in H as [Heq|H];
          [first [discriminate Heq | injection Heq as ->]|]);
  try (by apply elem_of_nil in H).

Ltac plain_field :=
  split; [done|]; cbn [fst snd]; apply stable_at_to; eauto 10 with stable.

Ltac field_out key Hkeys Hres Hst Hout :=
  let Hl := fresh "Hl" in
  eassert (Hl : _ /\ _);
  [eapply (resolved_lookup _ _ _ key); [exact Hkeys|exact Hres|in_shape]|];
  destruct Hl as [Hst Hout].

(** What a schema accepted, it accepts again at another reading of the
    clock, when the values its refinements read are in time then. *)
Lemma accepted_again_later rt name o m out t o' :
  (name, o) ∈ userSchemas rt ->
  parseAsync o (Some (VObj m)) = Resolved (Some (VObj out)) ->
  name <> "paginationQuery" ->
  email_check_stable rt ->
  Forall (fun b => survives_trim m b.1 b.2) (trimmed_minimums name) ->
  (name, o') ∈ userSchemas (at_clock rt t) ->
  in_time (at_clock rt t) name out ->
  parseAsync o' (Some (VObj out)) = Resolved (Some (VObj out)).
Proof.
  intros Hin Hres Hname Hemail Hmin Hin' Htime.
  pose proof (registry_well_keyed _ _ _ Hin) as Hkeys.
  apply (object_fixed_point_to o o' m out Hkeys Hres).
  registry_cases Hin; [..|done]; later_registry Hin'.
  all: cbn in Hmin;
    repeat match goal with
           | H : Forall _ (_ :: _) |- _ => apply Forall_cons in H as [? H]
           end;
    unfold survives_trim in *; cbn [fst snd] in *.
  - unfold_schemas. same_schema rt t.
    repeat (constructor; [plain_field|]). constructor.
  - assert (Hdob : stable_to (dateOfBirthSchema rt |> optional |> nullable)
                     (dateOfBirthSchema (at_clock rt t) |> optional |> nullable)
                     (m !! "date_of_birth")).
    { apply stable_to_nullable, stable_to_optional.
      unfold dateOfBirthSchema. same_schema rt t.
      apply stable_to_keeps; [eauto 10 with stable|]. intros HR.
      field_out "date_of_birth" Hkeys Hres Hst Hout.
      pose proof HR as ((Hbase & _ & _)%refine_valid & _ & _)%refine_valid.
      pose proof Hbase as [s Hx]%z_string_valid_inv.
      rewrite Hx in *. clear Hx.
      cbn [nullable optional] in Hout.
      match type of HR with
      | status (?R _) = valid =>
          assert (Hk : keeps R) by eauto 10 with stable;
          rewrite (Hk _ HR) in Hout
      end.
      unfold in_time in Htime.
      change (clock_checks "updateUser")
        with [("date_of_birth", not_in_future); ("date_of_birth", age_at_most_120)]
        in Htime.
      apply Forall_cons in Htime as [Hf Htime].
      apply Forall_cons in Htime as [Ha _]. cbn [fst snd] in Hf, Ha.
      specialize (Hf _ Hout ltac:(done)). specialize (Ha _ Hout ltac:(done)).
      apply refine_fixed; [| |done].
      + by apply refine_fixed; [|apply keeps_z_string|].
      + by apply refine_fixed; [|apply keeps_z_string|]. }
    unfold_schemas. same_schema rt t.
    repeat (constructor; [first [plain_field|by split]|]). constructor.
  - assert (Hauth : stable_to
                      (z_number
                         (type_errors "Authentication date is required"
                            "Authentication date must be a number")
                         [int (Some "Authentication date must be an integer");
                          positive "Authentication date must be positive"]
                       |> refine (auth_date_in_window rt)
                            "Authentication date is invalid or expired")
                      (z_number
                         (type_errors "Authentication date is required"
                            "Authentication date must be a number")
                         [int (Some "Authentication date must be an integer");
                          positive "Authentication date must be positive"]
                       |> refine (auth_date_in_window (at_clock rt t))
                            "Authentication date is invalid or expired")
                      (m !! "auth_date")).
    { apply stable_to_keeps; [eauto 10 with stable|]. intros HR.
      field_out "auth_date" Hkeys Hres Hst Hout.
      pose proof HR as (Hbase & _ & _)%refine_valid.
      match type of HR with
      | status (?R _) = valid =>
          assert (Hk : keeps R) by eauto 10 with stable;
          rewrite (Hk _ HR) in Hout
      end.
      pose proof Hbase as [n Hx]%z_number_valid_inv.
      rewrite Hx in *. clear Hx.
      unfold in_time in Htime.
      change (clock_checks "login") with [("auth_date", auth_date_in_window)]
        in Htime.
      apply Forall_cons in Htime as [Hw _]. cbn [fst snd] in Hw.
      specialize (Hw _ Hout ltac:(done)).
      by apply refine_fixed; [|apply keeps_z_number|]. }
    unfold_schemas. same_schema rt t.
    repeat (constructor; [first [plain_field|by split]|]). constructor.
  - assert (Hat : stable_to
                    (z_string no_params
                       [datetime rt "Achieved date must be a valid ISO 8601 date"]
                     |> refine (not_in_future rt)
                          "Achieved date cannot be in the future"
                     |> optional)
                    (z_string no_params
                       [datetime rt "Achieved date must be a valid ISO 8601 date"]
                     |> refine (not_in_future (at_clock rt t))
                          "Achieved date cannot be in the future"
                     |> optional)
                    (m !! "achieved_at")).
    { apply stable_to_optional.
      apply stable_to_keeps; [eauto 10 with stable|]. intros HR.
      field_out "achieved_at" Hkeys Hres Hst Hout.
      pose proof HR as (Hbase & _ & _)%refine_valid.
      pose proof Hbase as [s Hx]%z_string_valid_inv.
      rewrite Hx in *. clear Hx.
      cbn [optional] in Hout.
      match type of HR with
      | status (?R _) = valid =>
          assert (Hk : keeps R) by eauto 10 with stable;
          rewrite (Hk _ HR) in Hout
      end.
      unfold in_time in Htime.
      change (clock_checks "createUserRecord")
        with [("achieved_at", not_in_future)] in Htime.
      apply Forall_cons in Htime as [Hf _]. cbn [fst snd] in Hf.
      specialize (Hf _ Hout ltac:(done)).
      by apply refine_fixed; [|apply keeps_z_string|]. }
    unfold_schemas. same_schema rt t.
    repeat (constructor; [first [plain_field|by split]|]). constructor.
Qed.

(** C4 (amended).  A schema of the registry other than
    paginationQuerySchema, evaluated on the normalised output of a payload
    it accepted, succeeds and returns that output unchanged when the second
    evaluation reads the same clock as the first; at another reading of the
    clock it does so provided that the values which the refinements on time
    read (auth_date; date_of_birth; achieved_at) still pass them then.  In
    both cases this is provided that the strings the schema bounds in
    length from below and trims afterwards still meet their bound when
    trimmed, and that the email format check accepts in lower case and
    trimmed what it accepts.  paginationQuerySchema always rejects its own
    normalised output: page and limit are integers there, where the schema
    declares strings. *)
Theorem normalisation_fixed_point rt name o m out :
  (name, o) ∈ userSchemas rt ->
  parseAsync o (Some (VObj m)) = Resolved (Some (VObj out)) ->
  (name = "paginationQuery" ->
   exists e,
     parseAsync o (Some (VObj out)) = Rejected e
     /\ filter (fun i => issue_key i = "page") (errors e) = [expected_string "page"]
     /\ filter (fun i => issue_key i = "limit") (errors e)
        = [expected_string "limit"])
  /\ (name <> "paginationQuery" ->
      email_check_stable rt ->
      Forall (fun b => survives_trim m b.1 b.2) (trimmed_minimums name) ->
      parseAsync o (Some (VObj out)) = Resolved (Some (VObj out))
      /\ forall t o',
           (name, o') ∈ userSchemas (at_clock rt t) ->
           in_time (at_clock rt t) name out ->
           parseAsync o' (Some (VObj out)) = Resolved (Some (VObj out))).
Proof.
  intros Hin Hres. split.
  - intros Hname. registry_cases Hin; try done. clear Hname.
    assert (field_issues paginationQuerySchema (Some (VObj out)) "page"
            = [expected_string "page"]
            /\ field_issues paginationQuerySchema (Some (VObj out)) "limit"
               = [expected_string "limit"]) as [Hpage Hlimit].
    { split.
      - edestruct (resolved_lookup paginationQuerySchema m out "page")
          as [Hv Hout]; [apply pagination_well_keyed|done|in_shape|].
        apply parsed_number_rejected in Hv as (n & Hn & Hi).
        + erewrite field_issues_eq; [|apply pagination_well_keyed|in_shape].
          rewrite Hout, Hn, Hi. done.
        + intros [[| |n| | |]|]; try done. unfold page_ok.
          intros [Hnan _]%andb_true_iff. exists n. split; [done|].
          by apply negb_true_iff.
      - edestruct (resolved_lookup paginationQuerySchema m out "limit")
          as [Hv Hout]; [apply pagination_well_keyed|done|in_shape|].
        apply parsed_number_rejected in Hv as (n & Hn & Hi).
        + erewrite field_issues_eq; [|apply pagination_well_keyed|in_shape].
          rewrite Hout, Hn, Hi. done.
        + intros [[| |n| | |]|]; try done. unfold limit_ok.
          intros [[Hnan _]%andb_true_iff _]%andb_true_iff. exists n.
          split; [done|]. by apply negb_true_iff. }
    pose proof (parseAsync_settles paginationQuerySchema (Some (VObj out))
                  pagination_well_behaved) as Hs.
    unfold field_issues in Hpage, Hlimit. simpl in Hpage, Hlimit.
    destruct (parseAsync paginationQuerySchema (Some (VObj out))) as [v|e|text];
      [|by exists e; rewrite Hs|done].
    destruct Hs as (m' & [= <-] & Hnil). by rewrite Hnil in Hpage.
  - intros Hname Hemail Hmin. split.
    + pose proof (registry_well_keyed _ _ _ Hin) as Hkeys.
      apply (object_fixed_point o m out Hkeys Hres).
      clear Hres Hkeys. registry_cases Hin; [..|done].
      all: cbn in Hmin;
        repeat match goal with
               | H : Forall _ (_ :: _) |- _ => apply Forall_cons in H as [? H]
               end;
        unfold survives_trim in *; cbn [fst snd] in *.
      all: unfold_schemas; repeat apply Forall_cons_2; try apply Forall_nil_2;
        cbn [fst snd]; eauto 10 with stable.
    + intros t o' Hin' Htime.
      by apply (accepted_again_later rt name o m out t o').
Qed.

Lemma no_space_clean s :
  Example.no_space s = true -> starts_clean s /\ ends_clean s.
Proof.
  unfold Example.no_space, starts_clean, ends_clean.
  induction s as [|c s IH]; simpl; [done|].
  intros [Hc Hs]%andb_true_iff. apply negb_true_iff in Hc.
  destruct (IH Hs) as [_ Hend]. split.
  - by intros d [= <-].
  - intros d. destruct (last_char s) as [e|]; intros [= <-]; auto.
Qed.

Lemma example_email_check_stable : email_check_stable Example.runtime.
Proof.
  intros s. simpl.
  intros [[Hat Hsp]%andb_true_iff Hlow%String.eqb_eq]%andb_true_iff.
  destruct (no_space_clean s Hsp) as [Hstart Hend].
  rewrite Hlow, (trim_clean s Hstart Hend), Hat, Hsp, Hlow.
  by rewrite String.eqb_refl.
Qed.

(** C4 (amended) at a create-user payload whose first_name is trimmed. *)
Lemma normalisation_fixed_point_witness :
  let normalized := obj [("id", num 7); ("first_name", VStr "Al")] in
  parseAsync (createUserSchema Example.runtime) normalized = Resolved normalized.
Proof.
  intros normalized.
  apply (proj2 (normalisation_fixed_point Example.runtime "createUser"
                  (createUserSchema Example.runtime)
                  (list_to_map [("id", num 7); ("first_name", VStr " Al ")])
                  (list_to_map [("id", num 7); ("first_name", VStr "Al")])
                  ltac:(in_registry) ltac:(by vm_compute))).
  - done.
  - apply example_email_check_stable.
  - repeat constructor. intros s Hs. vm_compute in Hs. injection Hs as <-.
    by vm_compute.
Defined.

(** C7.  The code accepts a first_name of white space only: the minimum
    length is checked on the string as sent, the string is trimmed after
    that, and the normalised first_name is empty. *)
Theorem blank_first_name_is_accepted rt :
  parseAsync (createUserSchema rt)
    (obj [("id", num 1); ("first_name", VStr " ")])
  = Resolved (obj [("id", num 1); ("first_name", VStr "")]).
Proof. by vm_compute. Qed.

(** * Further properties of the code *)

(** ** The middleware *)

Section Requests.

Lemma get_set target v req : get target (set target v req) = v.
Proof. by destruct target. Qed.

Lemma get_set_other target other v req :
  other <> target -> get other (set target v req) = get other req.
Proof. by destruct target, other. Qed.

End Requests.

(** X1.  [validate] either calls [next()] or sends a response, and it
    writes the request only when it calls [next()]: the target then holds
    what the schema resolved with and the two other payloads are as they
    were; a request that is answered is left as it was, with status 400
    for a [ZodError] and 500 otherwise. *)
Theorem validate_writes_only_the_target schema target options env req :
  match validate schema target options env req with
  | Next req' =>
      schema (get target req) = Resolved (get target req')
      /\ forall other, other <> target -> get other req' = get other req
  | Sent req' res =>
      req' = req
      /\ match schema (get target req) with
         | Resolved _ => False
         | Rejected _ => Middleware.statusCode res = 400
         | Threw _ => Middleware.statusCode res = 500
         end
  end.
Proof.
  unfold validate. destruct (schema (get target req)) as [v|e|text]; cbn.
  - split; [by rewrite get_set|].
    intros other Hne. by apply get_set_other.
  - done.
  - done.
Qed.

Section Hosts.

Lemma commit_on_writable host results req :
  (forall target, writable host target = true) ->
  commit_on host results req = (commit results req, true).
Proof.
  intros Hw. revert req. induction results as [|[target [v| |]] rest IH];
    intros req; cbn; rewrite ?Hw; auto.
Qed.

End Hosts.

(** X2.  When every schema given to [validateMultiple] resolves, what
    happens depends on the host alone.  Where the host lets every target
    that has a schema be assigned, the handler calls [next()] with each
    such target replaced by what its schema resolved with, and each target
    without a schema as it was.  Where the host refuses the assignment of a
    target that has a schema (the query, on a host that defines it by a
    getter alone), the handler answers 500 although no schema failed, and
    the targets treated before that one stay replaced: the request is
    written in part.  On a host that lets every target be assigned the
    handler is [validateMultiple] as taken above. *)
Theorem validateMultiple_commits_every_result host schemas race env req :
  (forall target s,
     schema_for schemas target = Some s -> exists v, s (get target req) = Resolved v) ->
  ((forall target s,
      schema_for schemas target = Some s -> writable host target = true) ->
   exists req',
     validateMultiple_on host schemas race env req = Next req'
     /\ forall target,
          match schema_for schemas target with
          | Some s => s (get target req) = Resolved (get target req')
          | None => get target req' = get target req
          end)
  /\ (forall refused s,
        schema_for schemas refused = Some s ->
        writable host refused = false ->
        (forall target s',
           schema_for schemas target = Some s' ->
           (rank target < rank refused)%nat -> writable host target = true) ->
        exists req',
          validateMultiple_on host schemas race env req
          = Sent req'
              {| statusCode := 500;
                 json := {| success := false;
                            error_message := "Internal validation error";
                            error_code := INTERNAL_ERROR;
                            error_details := None |} |}
          /\ forall target,
               match schema_for schemas target with
               | Some s' =>
                   if (rank target <? rank refused)%nat
                   then s' (get target req) = Resolved (get target req')
                   else get target req' = get target req
               | None => get target req' = get target req
               end)
  /\ ((forall target, writable host target = true) ->
      validateMultiple_on host schemas race env req
      = validateMultiple schemas race env req).
Proof.
  intros Hall.
  assert (Hsame : (forall target, writable host target = true) ->
                  validateMultiple_on host schemas race env req
                  = validateMultiple schemas race env req).
  { intros Hw. unfold validateMultiple_on, validateMultiple.
    by rewrite commit_on_writable. }
  apply and_assoc. split; [|exact Hsame]. clear Hsame.
  assert (Hb : forall s, for_body schemas = Some s ->
                 exists v, s (body req) = Resolved v)
    by (intros s Hs; apply (Hall Body s Hs)).
  assert (Hp : forall s, for_params schemas = Some s ->
                 exists v, s (params req) = Resolved v)
    by (intros s Hs; apply (Hall Params s Hs)).
  assert (Hq : forall s, for_query schemas = Some s ->
                 exists v, s (query req) = Resolved v)
    by (intros s Hs; apply (Hall Query s Hs)).
  clear Hall. unfold validateMultiple_on, validationPromises.
  destruct schemas as [[sb|] [sp|] [sq|]];
    cbn [for_body for_params for_query] in *;
    try (destruct (Hb sb eq_refl) as [vb Hvb]; rewrite Hvb);
    try (destruct (Hp sp eq_refl) as [vp Hvp]; rewrite Hvp);
    try (destruct (Hq sq eq_refl) as [vq Hvq]; rewrite Hvq);
    clear Hb Hp Hq; cbn [app];
    (split;
     [ intros Hw;
       pose proof (fun s => Hw Body s) as Hwb;
       pose proof (fun s => Hw Params s) as Hwp;
       pose proof (fun s => Hw Query s) as Hwq;
       cbn [schema_for for_body for_params for_query] in Hwb, Hwp, Hwq;
       cbn; rewrite ?(Hwb _ eq_refl), ?(Hwp _ eq_refl), ?(Hwq _ eq_refl);
       eexists; split; [reflexivity|];
       intros []; by cbn
     | intros refused s Hs Hr Hbefore;
       pose proof (fun s H => Hbefore Body s H) as Hwb;
       pose proof (fun s H => Hbefore Params s H) as Hwp;
       destruct refused; cbn [schema_for for_body for_params for_query] in Hs;
       try discriminate; cbn [rank] in *;
       cbn [schema_for for_body for_params for_query] in Hwb, Hwp;
       cbn; rewrite ?Hr, ?(Hwb _ eq_refl ltac:(lia)), ?(Hwp _ eq_refl ltac:(lia));
       rewrite ?Hr;
       eexists; (split; [reflexivity|]);
       intros []; by cbn ]).
Qed.

Lemma validateMultiple_commits_every_result_witness :
  let schemas :=
    {| for_body := Some (parseAsync (createUserSchema Example.runtime));
       for_params := None;
       for_query := Some (parseAsync paginationQuerySchema) |} in
  let req :=
    {| body := obj [("id", num 7); ("first_name", VStr " Ann ")];
       params := obj [("userId", VStr "7")];
       query := obj [("page", VStr "2")] |} in
  exists req',
    validateMultiple_on query_by_getter schemas 0 {| NODE_ENV := None |} req
    = Sent req'
        {| statusCode := 500;
           json := {| success := false;
                      error_message := "Internal validation error";
                      error_code := INTERNAL_ERROR;
                      error_details := None |} |}
    /\ forall target,
         match schema_for schemas target with
         | Some s' =>
             if (rank target <? rank Query)%nat
             then s' (get target req) = Resolved (get target req')
             else get target req' = get target req
         | None => get target req' = get target req
         end.
Proof.
  intros schemas req.
  refine (proj1 (proj2 (validateMultiple_commits_every_result query_by_getter
                          schemas 0 {| NODE_ENV := None |} req _))
            Query (parseAsync paginationQuerySchema) eq_refl eq_refl _).
  - intros target s Hs.
    destruct target; cbn in Hs; try discriminate; injection Hs as <-.
    + exists (obj [("id", num 7); ("first_name", VStr "Ann")]). by vm_compute.
    + exists (obj [("page", num 2); ("limit", num 10); ("order", VStr "asc")]).
      by vm_compute.
  - intros [] s' Hs Hr; cbn in *; first [done|lia].
Defined.

(** X3.  [validateMultiple] with a single schema does what [validate]
    does with that schema, that target and no options, whichever way the
    schema settles: for the body it is [validateBody], for the params
    [validateParams], for the query [validateQuery]. *)
Theorem validateMultiple_of_one_schema schema race env req :
  (forall target,
     validateMultiple (only target schema) race env req
     = validate schema target no_options env req)
  /\ validateMultiple (only Body schema) race env req
     = validateBody schema env req
  /\ validateMultiple (only Params schema) race env req
     = validateParams schema env req
  /\ validateMultiple (only Query schema) race env req
     = validateQuery schema env req.
Proof.
  assert (Hone : forall target,
            validateMultiple (only target schema) race env req
            = validate schema target no_options env req).
  { intros target. unfold validateMultiple, validate, validationPromises.
    destruct target; cbn [only for_body for_params for_query get app];
      rewrite filter_singleton by exact [];
      unfold is_rejection; cbn [snd];
      match goal with |- context [schema ?x] => destruct (schema x) end;
      cbn; by rewrite ?Nat.mod_1_r. }
  split_and!; [done|apply Hone..].
Qed.

(** ** What the details of a response name *)

Section Flat.

Lemma flat_z_string p cs : flat (z_string p cs).
Proof.
  intros [[| | |s| |]|]; try (by repeat constructor). cbn.
  destruct (string_checks p cs s) as [s' found] eqn:Hc. cbn.
  assert (Hall : Forall (fun i => path i = []) found).
  { change found with (s', found).2. rewrite <- Hc. clear Hc.
    revert s. induction cs as [|c cs IH]; intros s; cbn; [constructor|].
    destruct (string_check p c s) as [s1 i1] eqn:H1.
    specialize (IH s1). destruct (string_checks p cs s1) as [s2 i2]. cbn in *.
    apply Forall_app. split; [|done].
    destruct c; cbn in H1; injection H1 as <- <-;
      repeat case_match; by repeat constructor. }
  destruct found; cbn; [constructor|]. by rewrite app_nil_r.
Qed.

Lemma flat_z_number p cs : flat (z_number p cs).
Proof.
  intros [[| |n| | |]|]; try (by repeat constructor). unfold z_number. cbn.
  destruct (isNaN n); [by repeat constructor|]. cbn.
  assert (Hall : Forall (fun i => path i = [])
                   (concat (map (fun c => number_check p c n) cs))).
  { induction cs as [|c cs IH]; cbn; [constructor|].
    apply Forall_app. split; [|done].
    destruct c; cbn; repeat case_match; by repeat constructor. }
  destruct (concat _); cbn; [constructor|]. by rewrite app_nil_r.
Qed.

Lemma flat_z_boolean p : flat (z_boolean p).
Proof. intros [[]|]; by repeat constructor. Qed.

Lemma flat_z_enum values p : flat (z_enum values p).
Proof.
  intros [[| | |s| |]|]; try (by repeat constructor). cbn.
  case_bool_decide; by repeat constructor.
Qed.

Lemma flat_optional t : flat t -> flat (optional t).
Proof. intros Ht [v|]; [apply Ht|constructor]. Qed.

Lemma flat_nullable t : flat t -> flat (nullable t).
Proof. intros Ht [[]|]; first [apply Ht|constructor]. Qed.

Lemma flat_default d t : flat t -> flat (default d t).
Proof. intros Ht [v|]; apply Ht. Qed.

Lemma flat_transform f t : flat t -> flat (transform f t).
Proof. intros Ht x. specialize (Ht x). unfold transform. by destruct (status (t x)). Qed.

Lemma concat_at_round n i : concat (at_round n i) = [i].
Proof.
  unfold at_round. rewrite concat_app. cbn.
  replace (concat (replicate n [])) with (@nil ZodIssue); [done|].
  induction n; [done|]. by cbn.
Qed.

Lemma flat_refine check msg t : flat t -> flat (refine check msg t).
Proof.
  intros Ht x. specialize (Ht x). unfold refine.
  destruct (status (t x)), (check (Zod.value (t x))); cbn [issues]; try done;
    apply Forall_forall; intros i [Hi|Hi]%elem_of_concat_merge;
    try (by eapply Forall_forall in Ht);
    rewrite concat_at_round in Hi;
    apply elem_of_cons in Hi as [->|Hi]; [done|by apply elem_of_nil in Hi
                                         |done|by apply elem_of_nil in Hi].
Qed.

End Flat.

Create HintDb flat.

#[global] Hint Resolve flat_z_string flat_z_number flat_z_boolean flat_z_enum
  flat_optional flat_nullable flat_default flat_transform flat_refine : flat.

Lemma registry_flat rt name o :
  (name, o) ∈ userSchemas rt -> Forall (fun f => flat f.2) (shape o).
Proof.
  intros Hin. registry_cases Hin; unfold_schemas;
    repeat (apply Forall_cons_2; [cbn [snd]; auto 10 with flat|]);
    apply Forall_nil_2.
Qed.

Lemma elem_of_concat_map {A B} (f : A -> B) (l : list (list A)) y :
  y ∈ concat (map (map f) l) -> exists x, x ∈ concat l /\ y = f x.
Proof.
  induction l as [|a l IH]; cbn; [by intros ?%elem_of_nil|].
  intros [Hy|Hy]%elem_of_app.
  - apply list_elem_of_In, in_map_iff in Hy as (x & <- & Hx).
    exists x. split; [|done]. apply elem_of_app. left. by apply list_elem_of_In.
  - destruct (IH Hy) as (x & Hx & ->). exists x. split; [|done].
    apply elem_of_app. by right.
Qed.

Lemma elem_of_pushed_inv o m i :
  i ∈ pushed (parse_pairs o m) ->
  exists k t j,
    (k, t) ∈ shape o /\ j ∈ concat (issues (t (m !! k))) /\ i = with_key k j.
Proof.
  unfold parse_pairs, pushed. induction (shape o) as [|[k t] fields IH]; cbn.
  - by intros ?%elem_of_nil.
  - intros [Hi|Hi]%elem_of_concat_merge.
    + apply elem_of_concat_map in Hi as (j & Hj & ->).
      exists k, t, j. split_and!; [apply list_elem_of_here|done..].
    + destruct (IH Hi) as (k' & t' & j & Hin & Hj & ->).
      exists k', t', j. split_and!; [by apply list_elem_of_further|done..].
Qed.

(** X4.  Whatever [validate] reports for an object payload checked by a
    schema of the registry is about a declared field: the [field] of every
    entry of [details] is a key of the schema, never a nested path, and its
    [message] is that of an issue which the schema of that key raised on
    the value the payload has under that key. *)
Theorem details_name_declared_fields rt name o target options env req m d :
  (name, o) ∈ userSchemas rt ->
  get target req = Some (VObj m) ->
  d ∈ details_of (validate (parseAsync o) target options env req) ->
  exists t i,
    (field d, t) ∈ shape o
    /\ i ∈ concat (issues (t (m !! field d)))
    /\ message d = Zod.message i
    /\ Middleware.value d
       = (if decide (code i = invalid_type) then None else received i).
Proof.
  intros Hin Hget Hd. unfold validate in Hd. rewrite Hget in Hd.
  destruct (parseAsync o (Some (VObj m))) as [v|e|text] eqn:Hp; cbn in Hd;
    try (by apply elem_of_nil in Hd).
  assert (Hi : exists i, i ∈ errors e /\ d = format_error i).
  { destruct (match abortEarly options with Some b => b | None => false end).
    - apply elem_of_cons in Hd as [->|Hd]; [|by apply elem_of_nil in Hd].
      exists (first_error e). split; [apply list_elem_of_here|done].
    - apply elem_of_cons in Hd as [->|Hd].
      + exists (first_error e). split; [apply list_elem_of_here|done].
      + apply list_elem_of_In, in_map_iff in Hd as (i & <- & Hi).
        exists i. split; [|done].
        by apply list_elem_of_further, list_elem_of_In. }
  destruct Hi as (i & Hi & ->).
  rewrite (parseAsync_rejected _ _ _ Hp) in Hi.
  apply elem_of_pushed_inv in Hi as (k & t & j & Hk & Hj & ->).
  pose proof (registry_flat _ _ _ Hin) as Hflat.
  eapply Forall_forall in Hflat; [|exact Hk]. cbn in Hflat.
  specialize (Hflat (m !! k)). eapply Forall_forall in Hflat; [|exact Hj].
  assert (Hf : field (format_error (with_key k j)) = k).
  { unfold format_error, join_path. cbn. by rewrite Hflat. }
  rewrite Hf. by exists t, j.
Qed.

Lemma details_name_declared_fields_witness :
  let d := {| field := "order";
              message := "Invalid enum value. Expected 'asc' | 'desc', received 'up'";
              Middleware.value := Some (VStr "up") |} in
  exists t i,
    (field d, t) ∈ shape paginationQuerySchema
    /\ i ∈ concat (issues (t (Some (VStr "up"))))
    /\ message d = Zod.message i
    /\ Middleware.value d
       = (if decide (code i = invalid_type) then None else received i).
Proof.
  intros d.
  pose (m := list_to_map [("order", VStr "up")] : gmap string Js.value).
  assert (Hd : details_of
                 (validate (parseAsync paginationQuerySchema) Query no_options
                    {| NODE_ENV := None |} (query_of [("order", VStr "up")]))
               = [d]) by (by vm_compute).
  apply (details_name_declared_fields Example.runtime "paginationQuery"
           paginationQuerySchema Query no_options {| NODE_ENV := None |}
           (query_of [("order", VStr "up")]) m d).
  - in_registry.
  - reflexivity.
  - rewrite Hd. apply list_elem_of_here.
Defined.

(** X5.  A payload that is no object (a missing body, null, an array, a
    string, a number, a boolean) is answered by every object schema with
    status 400 and a single entry in [details], whose [field] is the empty
    string and which has no [value]: "Required" for a missing payload,
    "Expected object, received ..." otherwise. *)
Theorem payload_that_is_no_object o target options env req :
  (forall m, get target req <> Some (VObj m)) ->
  validate (parseAsync o) target options env req
  = Sent req
      (validation_failed
         [{| field := "";
             message :=
               match get target req with
               | None => "Required"
               | Some v =>
                   "Expected object, received "
                   +:+ type_name (getParsedType (Some v))
               end;
             Middleware.value := None |}]).
Proof.
  intros Hno. unfold validate.
  destruct (get target req) as [[| |n| | |m]|] eqn:Hget;
    try (by destruct (Hno m));
    try (by destruct (abortEarly options) as [[]|]).
  by destruct n, (abortEarly options) as [[]|].
Qed.

Lemma payload_that_is_no_object_witness :
  validate (parseAsync (createUserSchema Example.runtime)) Body no_options
    {| NODE_ENV := None |}
    {| body := None; params := None; query := None |}
  = Sent {| body := None; params := None; query := None |}
      (validation_failed
         [{| field := ""; message := "Required"; Middleware.value := None |}]).
Proof.
  apply (payload_that_is_no_object (createUserSchema Example.runtime) Body
           no_options {| NODE_ENV := None |}
           {| body := None; params := None; query := None |}).
  intros m. cbn. discriminate.
Defined.

(** X6.  With a schema of the registry, [validate] answers 500 in one
    case only: the schema resolved and the host refused the assignment of
    the target.  Where the host lets the target be assigned the 500 branch
    is never taken: the handler calls [next()] with what the schema
    resolved with, or answers 400 with at least one entry in [details]; it
    is then [validate] as taken above.  Where it does not, the handler
    never calls [next()]: a payload that the schema rejects is answered 400
    and one that it accepts is answered 500. *)
Theorem registry_schemas_fault_only_on_write host rt name o target options env req :
  (name, o) ∈ userSchemas rt ->
  match validate_on host (parseAsync o) target options env req with
  | Next req' =>
      writable host target = true
      /\ parseAsync o (get target req) = Resolved (get target req')
  | Sent req' res =>
      req' = req
      /\ ((Middleware.statusCode res = 400
           /\ (exists d details,
                 error_details (Middleware.json res) = Some (d :: details))
           /\ exists e, parseAsync o (get target req) = Rejected e)
          \/ (res = {| statusCode := 500;
                      json := {| success := false;
                                 error_message := "Internal validation error";
                                 error_code := INTERNAL_ERROR;
                                 error_details := None |} |}
              /\ writable host target = false
              /\ exists v, parseAsync o (get target req) = Resolved v))
  end
  /\ (writable host target = true ->
      validate_on host (parseAsync o) target options env req
      = validate (parseAsync o) target options env req).
Proof.
  intros Hin. split; [|intros Hw; unfold validate_on, validate; by rewrite Hw].
  unfold validate_on.
  pose proof (parseAsync_settles o (get target req)
                (registry_well_behaved _ _ _ Hin)) as Hs.
  destruct (parseAsync o (get target req)) as [v|e|text]; [| |done].
  - destruct (writable host target) eqn:Hw.
    + split; [done|]. by rewrite get_set.
    + split; [done|]. right. split_and!; [done..|by exists v].
  - split; [done|]. left. split_and!; [done| |by exists e].
    destruct (match abortEarly options with Some b => b | None => false end);
      by eexists _, _.
Qed.

(** X6 where the query is defined by a getter alone: a valid pagination
    query is answered 500. *)
Lemma registry_schemas_fault_only_on_write_witness :
  validate_on query_by_getter (parseAsync paginationQuerySchema) Query
    no_options {| NODE_ENV := None |} (query_of [("page", VStr "2")])
  = Sent (query_of [("page", VStr "2")])
      {| statusCode := 500;
         json := {| success := false;
                    error_message := "Internal validation error";
                    error_code := INTERNAL_ERROR;
                    error_details := None |} |}
  /\ exists v,
       parseAsync paginationQuerySchema
         (get Query (query_of [("page", VStr "2")])) = Resolved v.
Proof.
  split; [by vm_compute|].
  assert (Hv : parseAsync paginationQuerySchema
                 (get Query (query_of [("page", VStr "2")]))
               = Resolved
                   (obj [("page", num 2); ("limit", num 10); ("order", VStr "asc")]))
    by (by vm_compute).
  destruct (proj1 (registry_schemas_fault_only_on_write query_by_getter
                     Example.runtime "paginationQuery" paginationQuerySchema
                     Query no_options {| NODE_ENV := None |}
                     (query_of [("page", VStr "2")]) ltac:(in_registry)))
    as [_ [(_ & _ & e & He)|(_ & _ & Hres)]]; [|exact Hres].
  rewrite Hv in He. discriminate He.
Defined.

(** ** Which keys a payload must have, and which may be null *)

Ltac shape_keys Hk :=
  unfold createUserSchema, updateUserSchema, loginSchema,
    createUserRecordSchema, paginationQuerySchema in Hk;
  cbn [shape fmap list_fmap fst] in Hk;
  repeat (apply elem_of_cons in Hk as [->|Hk]);
  [..|by apply elem_of_nil in Hk].

Ltac evaluate_issues :=
  match goal with
  | |- context [map (with_key ?k) ?l] =>
      let v := eval vm_compute in (map (with_key k) l) in
      change (map (with_key k) l) with v
  end.

Ltac is_member := apply (bool_decide_unpack _); by vm_compute.

(** X7.  For every schema of the registry and every payload that lacks
    a declared key: the schema reports that key exactly when it is one of
    the required ones (id and first_name to create a user; id to update
    one; id, first_name, auth_date and hash to log in; exercise_name,
    record_type and value for a record; none for a pagination query), and
    it then reports one issue, a type mismatch with "undefined". *)
Theorem missing_keys rt name o m k :
  (name, o) ∈ userSchemas rt ->
  k ∈ (shape o).*1 ->
  m !! k = None ->
  (field_issues o (Some (VObj m)) k = [] <-> k ∉ required_keys name)
  /\ (k ∈ required_keys name ->
      exists message,
        field_issues o (Some (VObj m)) k = [type_issue k message "undefined"]).
Proof.
  intros Hin Hk Hm. pose proof (registry_well_keyed _ _ _ Hin) as Hwk.
  registry_cases Hin; shape_keys Hk;
    (erewrite field_issues_eq; [|exact Hwk|in_shape]); rewrite Hm;
    evaluate_issues;
    first
      [ split; [split; [intros _; is_member|done]|];
        intros Hreq; exfalso; revert Hreq; is_member
      | split; [split; [done|intros Hn; exfalso; apply Hn; is_member]|];
        intros _; eexists; reflexivity ].
Qed.

Lemma missing_keys_witness :
  exists message,
    field_issues (loginSchema Example.runtime) (obj [("id", num 7)]) "hash"
    = [type_issue "hash" message "undefined"].
Proof.
  refine (proj2 (missing_keys Example.runtime "login"
                   (loginSchema Example.runtime)
                   (list_to_map [("id", num 7)]) "hash" _ _ _) _).
  - in_registry.
  - is_member.
  - reflexivity.
  - is_member.
Defined.

(** X8.  For every schema of the registry and every payload that holds
    null under a declared key: the schema accepts the null exactly for the
    keys declared nullable (username, last_name and photo_url to create a
    user; eighteen keys to update one; none to log in, for a record or for a
    pagination query), and an accepted null is passed on as null. *)
Theorem null_values rt name o m k :
  (name, o) ∈ userSchemas rt ->
  k ∈ (shape o).*1 ->
  m !! k = Some VNull ->
  (field_issues o (Some (VObj m)) k = [] <-> k ∈ nullable_keys name)
  /\ (forall out,
        parseAsync o (Some (VObj m)) = Resolved (Some (VObj out)) ->
        k ∈ nullable_keys name /\ out !! k = Some VNull).
Proof.
  intros Hin Hk Hm. pose proof (registry_well_keyed _ _ _ Hin) as Hwk.
  registry_cases Hin; shape_keys Hk;
    (split;
     [ (erewrite field_issues_eq; [|exact Hwk|in_shape]); rewrite Hm;
       evaluate_issues;
       first [ split; [intros _; is_member|done]
             | split; [done|intros Hn; exfalso; revert Hn; is_member] ]
     | intros out Hout;
       match type of Hm with
       | _ !! ?key = _ =>
           eassert (Hl : _ /\ _);
           [eapply (resolved_lookup _ _ _ key); [exact Hwk|exact Hout|in_shape]|];
           destruct Hl as [Hst Hv]
       end;
       rewrite Hm in Hst, Hv;
       first [ split; [is_member|by rewrite Hv]
             | exfalso; revert Hst; by vm_compute ] ]).
Qed.

Lemma null_values_witness :
  field_issues (updateUserSchema Example.runtime)
    (obj [("id", num 7); ("weight_kg", VNull)]) "weight_kg" = []
  <-> "weight_kg" ∈ nullable_keys "updateUser".
Proof.
  refine (proj1 (null_values Example.runtime "updateUser"
                   (updateUserSchema Example.runtime)
                   (list_to_map [("id", num 7); ("weight_kg", VNull)])
                   "weight_kg" _ _ _)).
  - in_registry.
  - is_member.
  - reflexivity.
Defined.

(** ** The enum schemas *)

Lemma z_enum_with_error_map values msg x :
  (status (z_enum values (error_map msg) x) = valid
   <-> exists s, x = Some (VStr s) /\ s ∈ values)
  /\ (status (z_enum values (error_map msg) x) = valid ->
      Zod.value (z_enum values (error_map msg) x) = x)
  /\ (status (z_enum values (error_map msg) x) <> valid ->
      exists i,
        concat (issues (z_enum values (error_map msg) x)) = [i]
        /\ Zod.message i = msg
        /\ (code i = invalid_enum_value /\ received i = x
            \/ code i = invalid_type /\ forall s, x <> Some (VStr s))).
Proof.
  destruct x as [[| | |s| |]|]; cbn;
    try (split_and!;
         [ split; [done|by intros (s & [=] & _)]
         | done
         | intros _; eexists; split_and!; [reflexivity|done|by right] ]).
  case_bool_decide as Hs; cbn.
  - split_and!; [split; [by exists s|done]|done..].
  - split_and!.
    + split; [done|]. by intros (s' & [= <-] & Hs').
    + done.
    + intros _. eexists. split_and!; [reflexivity|done|by left].
Qed.

(** X9.  Each of the five enum schemas accepts exactly the strings of the
    union type it stands for ([UserRole], [UserLevel], [UserGender],
    [UserLanguage], [PayoutMethod]), in that spelling, and passes them on
    unchanged; anything else gets one issue with the message of the schema,
    whether it is a string outside the type (the string is then reported as
    received) or no string at all. *)
Theorem enum_schemas_match_the_union_types t members msg x :
  (t, members, msg) ∈ enum_schemas ->
  (status (t x) = valid <-> exists s, x = Some (VStr s) /\ s ∈ members)
  /\ (status (t x) = valid -> Zod.value (t x) = x)
  /\ (status (t x) <> valid ->
      exists i,
        concat (issues (t x)) = [i]
        /\ Zod.message i = msg
        /\ (code i = invalid_enum_value /\ received i = x
            \/ code i = invalid_type /\ forall s, x <> Some (VStr s))).
Proof.
  intros Hin. unfold enum_schemas in Hin.
  repeat (apply elem_of_cons in Hin as [[= -> -> ->]|Hin]);
    [..|by apply elem_of_nil in Hin];
    apply z_enum_with_error_map.
Qed.

Lemma enum_schemas_match_the_union_types_witness :
  status (userLevelSchema (Some (VStr "RX"))) = valid
  <-> exists s, Some (VStr "RX") = Some (VStr s) /\ s ∈ Database.UserLevel.
Proof.
  refine (proj1 (enum_schemas_match_the_union_types userLevelSchema
                   Database.UserLevel
                   "Level must be scaled, intermediate, or rx"
                   (Some (VStr "RX")) _)).
  unfold enum_schemas.
  by repeat first [apply list_elem_of_here | apply list_elem_of_further].
Defined.

(** ** Matching single-class patterns *)

Section Classes.
Import Regex.

Lemma test_Void s : test Void s = false.
Proof. by induction s. Qed.

Lemma test_Alt r1 r2 s : test (Alt r1 r2) s = test r1 s || test r2 s.
Proof. revert r1 r2. induction s as [|c s IH]; intros r1 r2; cbn; [done|apply IH]. Qed.

Lemma test_Seq_Void r s : test (Seq Void r) s = false.
Proof. by induction s. Qed.

Lemma test_Seq_Eps r s : test (Seq Eps r) s = test r s.
Proof.
  destruct s as [|c s]; cbn; [done|]. by rewrite test_Alt, test_Seq_Void.
Qed.

Lemma test_Seq_Class p r s :
  test (Seq (Class p) r) s
  = match s with
    | String c s' => p c && test r s'
    | EmptyString => false
    end.
Proof.
  destruct s as [|c s]; cbn; [done|].
  destruct (p c); [apply test_Seq_Eps|apply test_Seq_Void].
Qed.

Lemma test_Times_Class n p s :
  test (Times n (Class p)) s = (String.length s =? n)%nat && all_chars p s.
Proof.
  revert s. induction n as [|n IH]; intros s.
  - destruct s as [|c s]; cbn; [done|apply test_Void].
  - cbn [Times]. rewrite test_Seq_Class. destruct s as [|c s]; [done|].
    rewrite IH. cbn. unfold all_chars. by destruct (p c), (String.length s =? n)%nat.
Qed.

Lemma test_Star_Class p s : test (Star (Class p)) s = all_chars p s.
Proof.
  induction s as [|c s IH]; cbn; [done|].
  destruct (p c); cbn; [by rewrite test_Seq_Eps|apply test_Seq_Void].
Qed.

Lemma test_Plus_Class p s :
  test (Plus (Class p)) s
  = match s with
    | String _ _ => all_chars p s
    | EmptyString => false
    end.
Proof.
  unfold Plus. rewrite test_Seq_Class. destruct s as [|c s]; [done|].
  by rewrite test_Star_Class.
Qed.

End Classes.

(** ** Chains of string checks *)

Section Chains.

Lemma min_max_regex_issues p a ma b mb r mr s :
  map Zod.message
    (concat (issues (z_string p [min a ma; max b mb; regex r mr] (Some (VStr s)))))
  = (if str_length s <? a then [ma] else [])
    ++ (if b <? str_length s then [mb] else [])
    ++ (if Regex.test r s then [] else [mr]).
Proof.
  unfold z_string. cbn [string_checks string_check min max regex].
  destruct (str_length s <? a), (b <? str_length s), (Regex.test r s); reflexivity.
Qed.

Lemma min_max_regex_trim_issues p a ma b mb r mr s :
  map Zod.message
    (concat (issues (z_string p [min a ma; max b mb; regex r mr; trim]
                       (Some (VStr s)))))
  = (if str_length s <? a then [ma] else [])
    ++ (if b <? str_length s then [mb] else [])
    ++ (if Regex.test r s then [] else [mr]).
Proof.
  unfold z_string. cbn [string_checks string_check min max regex trim].
  destruct (str_length s <? a), (b <? str_length s), (Regex.test r s); reflexivity.
Qed.

Lemma min_max_trim_issues p a ma b mb s :
  map Zod.message
    (concat (issues (z_string p [min a ma; max b mb; trim] (Some (VStr s)))))
  = (if str_length s <? a then [ma] else [])
    ++ (if b <? str_length s then [mb] else []).
Proof.
  unfold z_string. cbn [string_checks string_check min max trim].
  destruct (str_length s <? a), (b <? str_length s); reflexivity.
Qed.

Lemma reported_eq o m k t :
  well_keyed o -> (k, t) ∈ shape o ->
  reported o m k = map Zod.message (concat (issues (t (m !! k)))).
Proof.
  intros Hwk Hk. unfold reported. rewrite (field_issues_eq _ _ _ _ Hwk Hk).
  rewrite map_map. by apply map_ext.
Qed.

End Chains.

(** ** The rules of single fields *)

Ltac keyed name :=
  match goal with
  | |- well_keyed (?f ?rt) => apply (registry_well_keyed rt name); in_registry
  end.

Ltac lookup_out key Hwk Hout Hst Hv :=
  let Hl := fresh "Hl" in
  eassert (Hl : _ /\ _);
  [eapply (resolved_lookup _ _ _ key); [exact Hwk|exact Hout|in_shape]|];
  destruct Hl as [Hst Hv].

Lemma valid_iff_quiet t x :
  well_behaved t -> status (t x) = valid <-> concat (issues (t x)) = [].
Proof.
  intros Hwb. split.
  - intros Hv. by rewrite (wb_valid _ Hwb).
  - intros Hq. destruct (decide (status (t x) = valid)) as [|Hn]; [done|].
    by destruct (wb_sound _ Hwb x Hn).
Qed.

Lemma quiet_messages (l : list ZodIssue) : map Zod.message l = [] <-> l = [].
Proof. by destruct l. Qed.

Lemma length_str_length s n : str_length s = Z.of_nat n <-> String.length s = n.
Proof. unfold str_length. lia. Qed.

(** X10.  The hash of a login payload, when it is a string: nothing is
    reported exactly when it has 64 characters, all of them digits or lower
    case letters a to f; a string of another length is reported twice
    ("Invalid hash format", then the message of the pattern); a string of 64
    characters with one outside that class once; an accepted hash is passed
    on as it is. *)
Theorem login_hash_rule rt m s :
  m !! "hash" = Some (VStr s) ->
  (reported (loginSchema rt) m "hash" = []
   <-> String.length s = 64%nat /\ all_chars lower_hex s = true)
  /\ (String.length s <> 64%nat ->
      reported (loginSchema rt) m "hash"
      = ["Invalid hash format"; "Hash must be a valid SHA-256 hex string"])
  /\ (String.length s = 64%nat -> all_chars lower_hex s = false ->
      reported (loginSchema rt) m "hash"
      = ["Hash must be a valid SHA-256 hex string"])
  /\ (forall out,
        parseAsync (loginSchema rt) (Some (VObj m)) = Resolved (Some (VObj out)) ->
        out !! "hash" = Some (VStr s)).
Proof.
  intros Hm.
  assert (Hwk : well_keyed (loginSchema rt)) by keyed "login".
  assert (Hr : reported (loginSchema rt) m "hash"
               = (if str_length s <? 64 then ["Invalid hash format"] else [])
                 ++ (if 64 <? str_length s then ["Invalid hash format"] else [])
                 ++ (if (String.length s =? 64)%nat && all_chars lower_hex s
                     then [] else ["Hash must be a valid SHA-256 hex string"])).
  { erewrite reported_eq; [|exact Hwk|in_shape]. rewrite Hm.
    rewrite min_max_regex_issues. unfold Patterns.hash_re.
    by rewrite test_Times_Class. }
  assert (Hout : forall out,
            parseAsync (loginSchema rt) (Some (VObj m)) = Resolved (Some (VObj out)) ->
            out !! "hash" = Some (VStr s)).
  { intros out Hout.
    lookup_out "hash" Hwk Hout Hst Hv. rewrite Hm in Hst, Hv. rewrite Hv.
    by apply keeps_z_string. }
  rewrite Hr. unfold str_length. clear Hr.
  destruct (Nat.eqb_spec (String.length s) 64) as [Hlen|Hlen];
    destruct (Z.ltb_spec (Z.of_nat (String.length s)) 64);
    destruct (Z.ltb_spec 64 (Z.of_nat (String.length s)));
    try lia; cbn [andb app];
    destruct (all_chars lower_hex s) eqn:Hall; split_and!; try done;
    try (by intros; lia);
    split; try done; by intros [? ?].
Qed.

Lemma login_hash_rule_witness :
  reported (loginSchema Example.runtime)
    (list_to_map [("hash", VStr "abc")]) "hash"
  = ["Invalid hash format"; "Hash must be a valid SHA-256 hex string"].
Proof.
  refine (proj1 (proj2 (login_hash_rule Example.runtime
                          (list_to_map [("hash", VStr "abc")]) "abc" _)) _).
  - reflexivity.
  - cbn. lia.
Defined.

Lemma all_chars_nonempty p s :
  match s with
  | String _ _ => all_chars p s
  | EmptyString => false
  end = negb (String.length s =? 0)%nat && all_chars p s.
Proof. by destruct s. Qed.

(** X11.  The username, when it is a string.  To create or update a user
    nothing is reported exactly when it has 3 to 50 characters, all of them
    letters, digits or underscores, and an accepted username is passed on as
    it is: the trim at the end of the chain finds nothing to remove.  To log
    in the length is checked alone, on the string as sent, and the username
    is passed on trimmed. *)
Theorem username_rule rt m s :
  m !! "username" = Some (VStr s) ->
  (forall o,
     o = createUserSchema rt \/ o = updateUserSchema rt ->
     (reported o m "username" = []
      <-> (3 <= String.length s <= 50)%nat /\ all_chars Patterns.word s = true)
     /\ (forall out,
           parseAsync o (Some (VObj m)) = Resolved (Some (VObj out)) ->
           out !! "username" = Some (VStr s)))
  /\ (reported (loginSchema rt) m "username" = []
      <-> (3 <= String.length s <= 50)%nat)
  /\ (forall out,
        parseAsync (loginSchema rt) (Some (VObj m)) = Resolved (Some (VObj out)) ->
        out !! "username" = Some (VStr (Js.trim s))).
Proof.
  intros Hm. split_and!.
  - intros o Ho.
    assert (Hwk : well_keyed o) by (destruct Ho as [->| ->]; keyed "createUser" || keyed "updateUser").
    assert (Hr : reported o m "username"
                 = map Zod.message
                     (concat (issues
                        (z_string no_params
                           [min 3 "Username must be at least 3 characters";
                            max 50 "Username must be at most 50 characters";
                            regex Patterns.username_re
                              "Username can only contain letters, numbers, and underscores";
                            trim] (Some (VStr s)))))).
    { destruct Ho as [->| ->];
        (erewrite reported_eq; [|exact Hwk|in_shape]); by rewrite Hm. }
    assert (Hiff : reported o m "username" = []
                   <-> (3 <= String.length s <= 50)%nat
                       /\ all_chars Patterns.word s = true).
    { rewrite Hr, min_max_regex_trim_issues. unfold Patterns.username_re.
      rewrite test_Plus_Class, all_chars_nonempty. unfold str_length.
      destruct (Z.ltb_spec (Z.of_nat (String.length s)) 3);
        destruct (Z.ltb_spec 50 (Z.of_nat (String.length s)));
        destruct (Nat.eqb_spec (String.length s) 0);
        destruct (all_chars Patterns.word s); cbn [negb andb app];
        split; try done; try (intros [? ?]; done || lia); try (intros; lia). }
    split; [done|]. intros out Hout.
    assert (Hq : reported o m "username" = []).
    { rewrite Hr. apply quiet_messages, valid_iff_quiet; [auto with zod|].
      destruct Ho as [->| ->]; lookup_out "username" Hwk Hout Hst Hv;
        by rewrite Hm in Hst. }
    assert (Htest : Regex.test Patterns.username_re s = true).
    { rewrite Hr, min_max_regex_trim_issues in Hq.
      destruct (Regex.test Patterns.username_re s); [done|].
      by destruct (str_length s <? 3), (50 <? str_length s). }
    assert (Hv : out !! "username" = Some (VStr (Js.trim s))).
    { destruct Ho as [->| ->]; lookup_out "username" Hwk Hout Hst Hv;
        rewrite Hm in Hv; rewrite Hv; clear; unfold z_string;
        cbn [nullable optional string_checks string_check min max regex trim];
        by destruct (str_length s <? 3), (50 <? str_length s),
             (Regex.test Patterns.username_re s). }
    rewrite Hv. do 2 f_equal. eapply test_clean_trim; [apply username_re_clean|done].
  - assert (Hwk : well_keyed (loginSchema rt)) by keyed "login".
    erewrite reported_eq; [|exact Hwk|in_shape]. rewrite Hm.
    cbn [optional]. rewrite min_max_trim_issues. unfold str_length.
    destruct (Z.ltb_spec (Z.of_nat (String.length s)) 3);
      destruct (Z.ltb_spec 50 (Z.of_nat (String.length s)));
      cbn [app]; split; try done; intros; lia.
  - intros out Hout.
    assert (Hwk : well_keyed (loginSchema rt)) by keyed "login".
    lookup_out "username" Hwk Hout Hst Hv. rewrite Hm in Hv. rewrite Hv. clear.
    unfold z_string. cbn [optional string_checks string_check min max trim].
    by destruct (str_length s <? 3), (50 <? str_length s).
Qed.

Lemma username_rule_witness :
  reported (loginSchema Example.runtime)
    (list_to_map [("username", VStr "a b c")]) "username" = []
  <-> (3 <= String.length "a b c" <= 50)%nat.
Proof.
  refine (proj1 (proj2 (username_rule Example.runtime
                          (list_to_map [("username", VStr "a b c")]) "a b c" _))).
  reflexivity.
Defined.

Section Alphabet.
Import Regex.

Lemma all_chars_app p s1 s2 :
  all_chars p (s1 +:+ s2) = all_chars p s1 && all_chars p s2.
Proof.
  induction s1 as [|c s1 IH]; [by rewrite append_nil_l|].
  rewrite append_cons. unfold all_chars in *. cbn. by rewrite IH, andb_assoc.
Qed.

Lemma all_chars_spec p s :
  all_chars p s = true <-> forall c, In c (list_ascii_of_string s) -> p c = true.
Proof. apply forallb_forall. Qed.

Lemma lang_alphabet r s : lang r s -> all_chars (alphabet r) s = true.
Proof.
  induction 1 as [|p c Hc|r1 r2 s1 s2 _ IH1 _ IH2|r1 r2 s _ IH|r1 r2 s _ IH
                  | |r s1 s2 _ IH1 _ IH2];
    rewrite ?all_chars_app, ?andb_true_iff, ?all_chars_spec in *;
    try done.
  - intros x [<-|[]]. done.
  - split; intros x Hx; cbn [alphabet].
    + by rewrite (IH1 x Hx).
    + by rewrite (IH2 x Hx), orb_true_r.
  - intros x Hx. cbn [alphabet]. by rewrite (IH x Hx).
  - intros x Hx. cbn [alphabet]. by rewrite (IH x Hx), orb_true_r.
Qed.

Lemma all_chars_impl (p q : ascii -> bool) s :
  (forall c, p c = true -> q c = true) ->
  all_chars p s = true -> all_chars q s = true.
Proof.
  intros Hpq. unfold all_chars. rewrite !forallb_forall. auto.
Qed.

Lemma phone_re_alphabet c : alphabet Patterns.phone_re c = true -> phone_char c = true.
Proof. destruct c as [[] [] [] [] [] [] [] []]; by vm_compute. Qed.

Lemma phone_re_last c : last_in Patterns.phone_re c = true -> Patterns.digit c = true.
Proof. destruct c as [[] [] [] [] [] [] [] []]; by vm_compute. Qed.

End Alphabet.

(** X12.  The phone number of an update, when it is a string: nothing is
    reported exactly when it has 10 to 20 characters and matches the
    pattern.  An accepted number holds nothing but digits, [+], parentheses,
    hyphens, dots and white space, ends with a digit, and is passed on as it
    is: the trim at the end of the chain finds nothing to remove. *)
Theorem phone_number_rule rt m s :
  m !! "phone_number" = Some (VStr s) ->
  (reported (updateUserSchema rt) m "phone_number" = []
   <-> (10 <= String.length s <= 20)%nat
       /\ Regex.test Patterns.phone_re s = true)
  /\ (reported (updateUserSchema rt) m "phone_number" = [] ->
      all_chars phone_char s = true
      /\ (exists c, last_char s = Some c /\ Patterns.digit c = true)
      /\ Js.trim s = s)
  /\ (forall out,
        parseAsync (updateUserSchema rt) (Some (VObj m))
        = Resolved (Some (VObj out)) ->
        out !! "phone_number" = Some (VStr s)).
Proof.
  intros Hm.
  assert (Hwk : well_keyed (updateUserSchema rt)) by keyed "updateUser".
  assert (Hr : reported (updateUserSchema rt) m "phone_number"
               = map Zod.message (concat (issues (phoneNumberSchema (Some (VStr s)))))).
  { erewrite reported_eq; [|exact Hwk|in_shape]. by rewrite Hm. }
  assert (Hiff : reported (updateUserSchema rt) m "phone_number" = []
                 <-> (10 <= String.length s <= 20)%nat
                     /\ Regex.test Patterns.phone_re s = true).
  { rewrite Hr. unfold phoneNumberSchema.
    rewrite min_max_regex_trim_issues. unfold str_length.
    destruct (Z.ltb_spec (Z.of_nat (String.length s)) 10);
      destruct (Z.ltb_spec 20 (Z.of_nat (String.length s)));
      destruct (Regex.test Patterns.phone_re s); cbn [app];
      split; try done; try (intros [? ?]; done || lia); try (intros; lia). }
  assert (Htrim : Regex.test Patterns.phone_re s = true -> Js.trim s = s).
  { intros Ht. eapply test_clean_trim; [apply phone_re_clean|done]. }
  split_and!; [done| |].
  - intros [Hlen Ht]%Hiff. split_and!; [| |by apply Htrim].
    + eapply all_chars_impl; [apply phone_re_alphabet|].
      by apply lang_alphabet, test_spec.
    + destruct (last_char s) as [c|] eqn:Hc.
      * exists c. split; [done|]. apply phone_re_last.
        eapply lang_last; [by apply test_spec|done].
      * apply last_char_None in Hc. subst s. cbn in Hlen. lia.
  - intros out Hout. lookup_out "phone_number" Hwk Hout Hst Hv.
    rewrite Hm in Hst, Hv.
    assert (Hq : reported (updateUserSchema rt) m "phone_number" = []).
    { rewrite Hr. apply quiet_messages, valid_iff_quiet; [|exact Hst].
      unfold phoneNumberSchema. auto with zod. }
    apply Hiff in Hq as [_ Ht]. rewrite Hv. clear -Ht Htrim.
    unfold phoneNumberSchema, z_string.
    cbn [nullable optional string_checks string_check min max regex trim].
    rewrite (Htrim Ht).
    by destruct (str_length s <? 10), (20 <? str_length s),
         (Regex.test Patterns.phone_re s).
Qed.

Lemma phone_number_rule_witness :
  all_chars phone_char "+38 (044) 1234567" = true
  /\ (exists c, last_char "+38 (044) 1234567" = Some c /\ Patterns.digit c = true)
  /\ Js.trim "+38 (044) 1234567" = "+38 (044) 1234567".
Proof.
  pose (m := list_to_map [("phone_number", VStr "+38 (044) 1234567")]
             : gmap string Js.value).
  assert (Hq : reported (updateUserSchema Example.runtime) m "phone_number" = [])
    by (by vm_compute).
  refine (proj1 (proj2 (phone_number_rule Example.runtime m
                          "+38 (044) 1234567" _)) Hq).
  reflexivity.
Defined.

Section Timezones.
Import Regex.

Lemma char_eq a c : char a c = true -> c = a.
Proof.
  unfold char, charCode. intros Hc%Z.eqb_eq.
  apply N2Z.inj in Hc. rewrite <- (ascii_N_embedding a), <- (ascii_N_embedding c).
  by rewrite Hc.
Qed.

Lemma lang_Plus_Class p s :
  lang (Plus (Class p)) s <-> s <> "" /\ all_chars p s = true.
Proof.
  rewrite <- test_spec, test_Plus_Class. destruct s.
  - split; [done|]. by intros [? _].
  - split; [done|]. by intros [_ ?].
Qed.

Lemma test_timezone_re s :
  test Patterns.timezone_re s = true
  <-> exists area city,
        s = area +:+ "/" +:+ city
        /\ area <> "" /\ city <> ""
        /\ all_chars Patterns.letter_ area = true
        /\ all_chars Patterns.letter_ city = true.
Proof.
  rewrite test_spec. unfold Patterns.timezone_re. cbn [Patterns.Cat]. split.
  - intros Hl. inversion Hl as [| |r1 r2 area rest Ha Hrest| | | |]; subst.
    inversion Hrest as [| |r1 r2 slash city Hs Hc| | | |]; subst.
    inversion Hs as [|p c Hp| | | | |]; subst.
    apply char_eq in Hp as ->.
    apply lang_Plus_Class in Ha as [? ?]. apply lang_Plus_Class in Hc as [? ?].
    by exists area, city.
  - intros (area & city & -> & Ha & Hc & Hla & Hlc).
    apply lang_seq; [by apply lang_Plus_Class|].
    apply (lang_seq _ _ "/" city); [by apply lang_class|by apply lang_Plus_Class].
Qed.

End Timezones.

(** X13.  The timezone of an update, when it is a string: nothing is
    reported exactly when it has at most 50 characters and is made of two
    non-empty words of letters and underscores with one slash between them.
    A zone of one word, of three, or with a digit, a hyphen or a plus sign
    is reported. *)
Theorem timezone_rule rt m s :
  m !! "timezone" = Some (VStr s) ->
  reported (updateUserSchema rt) m "timezone" = []
  <-> (String.length s <= 50)%nat
      /\ exists area city,
           s = area +:+ "/" +:+ city
           /\ area <> "" /\ city <> ""
           /\ all_chars Patterns.letter_ area = true
           /\ all_chars Patterns.letter_ city = true.
Proof.
  intros Hm.
  assert (Hwk : well_keyed (updateUserSchema rt)) by keyed "updateUser".
  erewrite reported_eq; [|exact Hwk|in_shape]. rewrite Hm.
  cbn [optional]. unfold timezoneSchema.
  rewrite min_max_regex_issues, <- test_timezone_re.
  destruct s as [|c s]; [by split; [|intros [_ ?]]|].
  unfold str_length.
  destruct (Z.ltb_spec (Z.of_nat (String.length (String c s))) 1) as [Hl|_];
    [cbn in Hl; lia|].
  destruct (Z.ltb_spec 50 (Z.of_nat (String.length (String c s))));
    destruct (Regex.test Patterns.timezone_re (String c s)); cbn [app];
    split; try done; try (intros [? ?]; done || lia); try (intros; lia).
Qed.

Lemma timezone_rule_witness :
  reported (updateUserSchema Example.runtime)
    (list_to_map [("timezone", VStr "America/Argentina/Salta")]) "timezone" = []
  <-> (String.length "America/Argentina/Salta" <= 50)%nat
      /\ exists area city,
           "America/Argentina/Salta" = area +:+ "/" +:+ city
           /\ area <> "" /\ city <> ""
           /\ all_chars Patterns.letter_ area = true
           /\ all_chars Patterns.letter_ city = true.
Proof.
  apply (timezone_rule Example.runtime
           (list_to_map [("timezone", VStr "America/Argentina/Salta")])).
  reflexivity.
Defined.

Lemma emailSchema_issues rt s :
  map Zod.message (concat (issues (emailSchema rt (Some (VStr s)))))
  = (if isEmail rt s then [] else ["Invalid email format"])
    ++ (if 255 <? str_length s
        then ["Email must be at most 255 characters"] else []).
Proof.
  unfold emailSchema, z_string.
  cbn [string_checks string_check email max toLowerCase trim].
  destruct (isEmail rt s), (255 <? str_length s); reflexivity.
Qed.

Lemma emailSchema_value rt s :
  Zod.value (emailSchema rt (Some (VStr s)))
  = Some (VStr (Js.trim (Js.toLowerCase s))).
Proof.
  unfold emailSchema, z_string.
  cbn [string_checks string_check email max toLowerCase trim].
  destruct (isEmail rt s), (255 <? str_length s); reflexivity.
Qed.

(** X14.  The two e-mail addresses of an update (email and paypal_email),
    when they are strings: the format and the length (at most 255) are
    checked on the string as sent, before it is put in lower case and
    trimmed.  An accepted address is passed on in lower case and trimmed,
    a form that putting it in lower case or trimming it again does not
    change, and with at most 255 characters. *)
Theorem email_rule rt m k s :
  k = "email" \/ k = "paypal_email" ->
  m !! k = Some (VStr s) ->
  (reported (updateUserSchema rt) m k = []
   <-> isEmail rt s = true /\ (String.length s <= 255)%nat)
  /\ (forall out,
        parseAsync (updateUserSchema rt) (Some (VObj m))
        = Resolved (Some (VObj out)) ->
        let e := Js.trim (Js.toLowerCase s) in
        out !! k = Some (VStr e)
        /\ Js.toLowerCase e = e /\ Js.trim e = e
        /\ (String.length e <= 255)%nat).
Proof.
  intros Hk Hm.
  assert (Hwk : well_keyed (updateUserSchema rt)) by keyed "updateUser".
  assert (Hr : reported (updateUserSchema rt) m k
               = map Zod.message (concat (issues (emailSchema rt (Some (VStr s)))))).
  { destruct Hk as [->| ->];
      (erewrite reported_eq; [|exact Hwk|in_shape]); by rewrite Hm. }
  assert (Hiff : reported (updateUserSchema rt) m k = []
                 <-> isEmail rt s = true /\ (String.length s <= 255)%nat).
  { rewrite Hr, emailSchema_issues. unfold str_length.
    destruct (isEmail rt s);
      destruct (Z.ltb_spec 255 (Z.of_nat (String.length s))); cbn [app];
      split; try done; try (intros [? ?]; done || lia); try (intros; lia). }
  split; [done|]. intros out Hout e.
  assert (Hst : status (emailSchema rt (Some (VStr s))) = valid
                /\ out !! k = Zod.value (emailSchema rt (Some (VStr s)))).
  { destruct Hk as [->| ->];
      match goal with
      | |- context [out !! ?key] => lookup_out key Hwk Hout Hst Hv
      end;
      rewrite Hm in Hst, Hv; by split. }
  destruct Hst as [Hst Hv].
  assert (Hq : reported (updateUserSchema rt) m k = []).
  { rewrite Hr. apply quiet_messages, valid_iff_quiet; [|exact Hst].
    unfold emailSchema. auto with zod. }
  apply Hiff in Hq as [_ Hlen]. rewrite Hv, emailSchema_value.
  split_and!; [done|..]; subst e.
  - by rewrite toLowerCase_trim, toLowerCase_idem.
  - apply trim_idem.
  - pose proof (trim_length (Js.toLowerCase s)) as Ht.
    rewrite toLowerCase_length in Ht. unfold str_length in Ht. lia.
Qed.

Lemma email_rule_witness :
  reported (updateUserSchema Example.runtime)
    (list_to_map [("email", VStr " Ann@Example.com ")]) "email" = []
  <-> isEmail Example.runtime " Ann@Example.com " = true
      /\ (String.length " Ann@Example.com " <= 255)%nat.
Proof.
  refine (proj1 (email_rule Example.runtime
                   (list_to_map [("email", VStr " Ann@Example.com ")])
                   "email" " Ann@Example.com " _ _)).
  - by left.
  - reflexivity.
Defined.

Section Dates.

(** 120 years, in milliseconds: 120 years of 365.25 days. *)
Lemma age_bound d :
  Qle_bool (inject_Z d / (1000 * 60 * 60 * 24 * 365.25))%Q 120
  = (d <=? 3786912000000).
Proof.
  apply eq_true_iff_eq. rewrite Qle_bool_iff, Z.leb_le.
  set (K := (1000 * 60 * 60 * 24 * 365.25)%Q).
  assert (HK : (0 < K)%Q) by (by vm_compute).
  assert (H120 : (120 * K == inject_Z 3786912000000)%Q) by (by vm_compute).
  rewrite Zle_Qle, <- H120, <- (Qmult_le_r _ _ K HK).
  rewrite (Qmult_comm (inject_Z d / K) K), Qmult_div_r; [done|].
  intros H0. rewrite H0 in HK. by vm_compute in HK.
Qed.

Lemma dateOfBirthSchema_issues rt s :
  map Zod.message (concat (issues (dateOfBirthSchema rt (Some (VStr s)))))
  = (if isDatetime rt s then []
     else ["Date of birth must be a valid ISO 8601 date"])
    ++ (if not_in_future rt (Some (VStr s)) then []
        else ["Date of birth cannot be in the future"])
    ++ (if age_at_most_120 rt (Some (VStr s)) then []
        else ["Date of birth seems invalid (age > 120 years)"]).
Proof.
  unfold dateOfBirthSchema, refine, z_string.
  cbn [string_checks string_check datetime].
  destruct (isDatetime rt s); cbn [status Zod.value settled issues app];
    destruct (not_in_future rt (Some (VStr s)));
    cbn [status Zod.value settled issues app];
    destruct (age_at_most_120 rt (Some (VStr s))); reflexivity.
Qed.

End Dates.

(** X15.  The date of birth of an update, when it is a string: nothing is
    reported exactly when it has the datetime format and [Date] reads it as
    a moment that is not after now and at most 3786912000000 milliseconds
    (120 years of 365.25 days) before now.  A string that has not the format
    and that [Date] cannot read is reported three times, once by the format
    check and once by each of the two refinements. *)
Theorem date_of_birth_rule rt m s :
  m !! "date_of_birth" = Some (VStr s) ->
  (reported (updateUserSchema rt) m "date_of_birth" = []
   <-> isDatetime rt s = true
       /\ exists t,
            Date_parse rt s = Some t
            /\ t <= now rt /\ now rt - t <= 3786912000000)
  /\ (isDatetime rt s = false -> Date_parse rt s = None ->
      reported (updateUserSchema rt) m "date_of_birth"
      = ["Date of birth must be a valid ISO 8601 date";
         "Date of birth cannot be in the future";
         "Date of birth seems invalid (age > 120 years)"])
  /\ (forall t,
        isDatetime rt s = true -> Date_parse rt s = Some t -> now rt < t ->
        reported (updateUserSchema rt) m "date_of_birth"
        = ["Date of birth cannot be in the future"]).
Proof.
  intros Hm.
  assert (Hwk : well_keyed (updateUserSchema rt)) by keyed "updateUser".
  assert (Hr : reported (updateUserSchema rt) m "date_of_birth"
               = map Zod.message
                   (concat (issues (dateOfBirthSchema rt (Some (VStr s)))))).
  { erewrite reported_eq; [|exact Hwk|in_shape]. by rewrite Hm. }
  rewrite Hr, dateOfBirthSchema_issues.
  unfold not_in_future, age_at_most_120. split_and!.
  - destruct (isDatetime rt s); [|by split; [|intros [? _]]].
    destruct (Date_parse rt s) as [t|];
      [|by split; [|intros (_ & t & ? & _)]].
    rewrite age_bound.
    destruct (Z.leb_spec t (now rt));
      destruct (Z.leb_spec (now rt - t) 3786912000000); cbn [app];
      split; try done;
      try (intros _; split; [done|]; exists t; by split_and!);
      intros (_ & t' & [= <-] & ? & ?); lia.
  - by intros -> ->.
  - intros t -> -> Ht. rewrite age_bound.
    destruct (Z.leb_spec t (now rt)); [lia|].
    destruct (Z.leb_spec (now rt - t) 3786912000000); [done|lia].
Qed.

Lemma date_of_birth_rule_witness :
  reported (updateUserSchema Example.runtime)
    (list_to_map [("date_of_birth", VStr "2100-01-01T00:00:00Z")])
    "date_of_birth"
  = ["Date of birth cannot be in the future"].
Proof.
  refine (proj2 (proj2 (date_of_birth_rule Example.runtime
                          (list_to_map
                             [("date_of_birth", VStr "2100-01-01T00:00:00Z")])
                          "2100-01-01T00:00:00Z" _))
            4102444800000 _ _ _).
  - reflexivity.
  - reflexivity.
  - reflexivity.
  - reflexivity.
Defined.

(** ** Numbers *)

Section NumberChains.

Lemma Qle_bool_false p q : Qle_bool p q = false <-> (q < p)%Q.
Proof.
  split.
  - intros Hf. apply Qnot_le_lt. intros Hle%Qle_bool_iff. congruence.
  - intros Hlt. destruct (Qle_bool p q) eqn:Hle; [|done].
    apply Qle_bool_iff in Hle. by apply Qlt_not_le in Hlt.
Qed.

Ltac not_a_finite_number :=
  split; [by cbn|by intros (? & [=] & _)].

Ltac number_chain :=
  unfold z_number;
  cbn [getParsedType isNaN map concat number_check int positive gte lte app];
  unfold Js.gt, Js.ge, Js.lt, Js.le, of_Z.

Lemma gte_lte_quiet p lo mlo hi mhi v :
  concat (issues (z_number p [gte lo mlo; lte hi mhi] (Some v))) = []
  <-> exists q, v = VNum (Num q) /\ (inject_Z lo <= q <= inject_Z hi)%Q.
Proof.
  destruct v as [| |[|q|[]]| | |]; try not_a_finite_number.
  number_chain.
  destruct (Qle_bool (inject_Z lo) q) eqn:H1, (Qle_bool q (inject_Z hi)) eqn:H2;
    cbn [negb app now_issues issues concat]; (split; [first [done|intros _; exists q; split; [done|];
                  by split; apply Qle_bool_iff]
                 |first [done|intros (q' & [= <-] & Hlo%Qle_bool_iff & Hhi%Qle_bool_iff);
                  congruence]]).
Qed.

Lemma int_gte_lte_quiet p mi lo mlo hi mhi v :
  concat (issues (z_number p [int mi; gte lo mlo; lte hi mhi] (Some v))) = []
  <-> exists q, v = VNum (Num q) /\ isInteger (Num q) = true
                /\ (inject_Z lo <= q <= inject_Z hi)%Q.
Proof.
  destruct v as [| |[|q|[]]| | |]; try not_a_finite_number.
  number_chain.
  destruct (isInteger (Num q)) eqn:H0,
    (Qle_bool (inject_Z lo) q) eqn:H1, (Qle_bool q (inject_Z hi)) eqn:H2;
    cbn [negb app now_issues issues concat]; (split; [first [done|intros _; exists q; split; [done|]; split; [done|];
                  by split; apply Qle_bool_iff]
                 |first [done|
                  intros (q' & [= <-] & Hi & Hlo%Qle_bool_iff & Hhi%Qle_bool_iff);
                  congruence]]).
Qed.

Lemma int_positive_quiet p mi mp v :
  concat (issues (z_number p [int mi; positive mp] (Some v))) = []
  <-> exists q, v = VNum (Num q) /\ isInteger (Num q) = true /\ (0 < q)%Q.
Proof.
  destruct v as [| |[|q|[]]| | |]; try not_a_finite_number.
  number_chain. change (inject_Z 0) with 0%Q.
  destruct (isInteger (Num q)) eqn:H0, (Qle_bool q 0) eqn:H1;
    cbn [negb app now_issues issues concat]; (split; [first [done|intros _; exists q; split; [done|]; split; [done|];
                  by apply Qle_bool_false]
                 |first [done|intros (q' & [= <-] & Hi & Hp%Qle_bool_false);
                  congruence]]).
Qed.

Lemma positive_lte_quiet p mp hi mhi v :
  concat (issues (z_number p [positive mp; lte hi mhi] (Some v))) = []
  <-> exists q, v = VNum (Num q) /\ (0 < q)%Q /\ (q <= inject_Z hi)%Q.
Proof.
  destruct v as [| |[|q|[]]| | |]; try not_a_finite_number.
  number_chain. change (inject_Z 0) with 0%Q.
  destruct (Qle_bool q 0) eqn:H1, (Qle_bool q (inject_Z hi)) eqn:H2;
    cbn [negb app now_issues issues concat]; (split; [first [done|intros _; exists q; split; [done|];
                  split; [by apply Qle_bool_false|by apply Qle_bool_iff]]
                 |first [done|
                  intros (q' & [= <-] & Hp%Qle_bool_false & Hhi%Qle_bool_iff);
                  congruence]]).
Qed.

End NumberChains.

Ltac nullable_number quiet :=
  rewrite quiet_messages;
  match goal with
  | |- context [Some ?v] =>
      is_var v; destruct v; cbn [nullable optional];
      [ split; [by left|done]
      | rewrite quiet; (split; [by right|by intros [[=]|?]]).. ]
  end.

(** X16.  The three measurements of an update, whatever value the payload
    holds for them: height_cm is accepted exactly when it is null or an
    integer from 50 to 250, weight_kg when it is null or a number (integer
    or not) from 20 to 300, experience_years when it is null or an integer
    from 0 to 80, the bounds included.  NaN, the infinities and values of
    another type are reported. *)
Theorem body_measurements rt m v :
  (m !! "height_cm" = Some v ->
   reported (updateUserSchema rt) m "height_cm" = []
   <-> v = VNull
       \/ exists q, v = VNum (Num q) /\ isInteger (Num q) = true
                    /\ (inject_Z 50 <= q <= inject_Z 250)%Q)
  /\ (m !! "weight_kg" = Some v ->
      reported (updateUserSchema rt) m "weight_kg" = []
      <-> v = VNull
          \/ exists q, v = VNum (Num q) /\ (inject_Z 20 <= q <= inject_Z 300)%Q)
  /\ (m !! "experience_years" = Some v ->
      reported (updateUserSchema rt) m "experience_years" = []
      <-> v = VNull
          \/ exists q, v = VNum (Num q) /\ isInteger (Num q) = true
                       /\ (inject_Z 0 <= q <= inject_Z 80)%Q).
Proof.
  assert (Hwk : well_keyed (updateUserSchema rt)) by keyed "updateUser".
  split_and!; intros Hm;
    (erewrite reported_eq; [|exact Hwk|in_shape]); rewrite Hm.
  - nullable_number int_gte_lte_quiet.
  - nullable_number gte_lte_quiet.
  - nullable_number int_gte_lte_quiet.
Qed.

Lemma body_measurements_witness :
  reported (updateUserSchema Example.runtime)
    (list_to_map [("weight_kg", VNum (Num 72.5))]) "weight_kg" = []
  <-> VNum (Num 72.5) = VNull
      \/ exists q, VNum (Num 72.5) = VNum (Num q)
                   /\ (inject_Z 20 <= q <= inject_Z 300)%Q.
Proof.
  refine (proj1 (proj2 (body_measurements Example.runtime
                          (list_to_map [("weight_kg", VNum (Num 72.5))])
                          (VNum (Num 72.5)))) _).
  reflexivity.
Defined.

(** X17.  The id of a payload to create a user, to update one or to log
    in, whatever value the payload holds for it: it is accepted exactly when
    it is a finite number that is an integer and greater than 0, and it is
    passed on as it is. *)
Theorem id_rule rt o m v :
  o = createUserSchema rt \/ o = updateUserSchema rt \/ o = loginSchema rt ->
  m !! "id" = Some v ->
  (reported o m "id" = []
   <-> exists q, v = VNum (Num q) /\ isInteger (Num q) = true /\ (0 < q)%Q)
  /\ (forall out,
        parseAsync o (Some (VObj m)) = Resolved (Some (VObj out)) ->
        out !! "id" = Some v).
Proof.
  intros Ho Hm.
  assert (Hwk : well_keyed o).
  { destruct Ho as [->|[->| ->]];
      first [keyed "createUser"|keyed "updateUser"|keyed "login"]. }
  split.
  - destruct Ho as [->|[->| ->]];
      (erewrite reported_eq; [|exact Hwk|in_shape]); rewrite Hm;
      rewrite quiet_messages; apply int_positive_quiet.
  - intros out Hout.
    destruct Ho as [->|[->| ->]]; lookup_out "id" Hwk Hout Hst Hv;
      rewrite Hm in Hst, Hv; rewrite Hv; by apply keeps_z_number.
Qed.

Lemma id_rule_witness :
  reported (loginSchema Example.runtime)
    (list_to_map [("id", VNum (Num 7.5))]) "id" = []
  <-> exists q, VNum (Num 7.5) = VNum (Num q)
                /\ isInteger (Num q) = true /\ (0 < q)%Q.
Proof.
  refine (proj1 (id_rule Example.runtime (loginSchema Example.runtime)
                   (list_to_map [("id", VNum (Num 7.5))]) (VNum (Num 7.5)) _ _)).
  - by right; right.
  - reflexivity.
Defined.

Lemma not_in_future_issues rt p mf msg s :
  map Zod.message
    (concat (issues (refine (not_in_future rt) msg
                       (z_string p [datetime rt mf]) (Some (VStr s)))))
  = (if isDatetime rt s then [] else [mf])
    ++ (if not_in_future rt (Some (VStr s)) then [] else [msg]).
Proof.
  unfold refine, z_string. cbn [string_checks string_check datetime].
  destruct (isDatetime rt s); cbn [status Zod.value settled issues app];
    destruct (not_in_future rt (Some (VStr s))); reflexivity.
Qed.

(** X18.  A personal record.  Its value, whatever the payload holds for
    it, is accepted exactly when it is a finite number greater than 0 and at
    most 100000 (integer or not).  Its achieved_at, when it is a string, is
    accepted exactly when it has the datetime format and [Date] reads it as
    a moment that is not after now; how long ago is not checked. *)
Theorem record_rule rt m :
  (forall v,
     m !! "value" = Some v ->
     reported (createUserRecordSchema rt) m "value" = []
     <-> exists q, v = VNum (Num q) /\ (0 < q)%Q /\ (q <= inject_Z 100000)%Q)
  /\ (forall s,
        m !! "achieved_at" = Some (VStr s) ->
        reported (createUserRecordSchema rt) m "achieved_at" = []
        <-> isDatetime rt s = true
            /\ exists t, Date_parse rt s = Some t /\ t <= now rt).
Proof.
  assert (Hwk : well_keyed (createUserRecordSchema rt))
    by keyed "createUserRecord".
  split.
  - intros v Hm. erewrite reported_eq; [|exact Hwk|in_shape]. rewrite Hm.
    rewrite quiet_messages. apply positive_lte_quiet.
  - intros s Hm. erewrite reported_eq; [|exact Hwk|in_shape]. rewrite Hm.
    cbn [optional]. rewrite not_in_future_issues. unfold not_in_future.
    destruct (isDatetime rt s); [|by split; [|intros [? _]]].
    destruct (Date_parse rt s) as [t|];
      [|by split; [|intros (_ & t & ? & _)]].
    destruct (Z.leb_spec t (now rt)); cbn [app]; split; try done.
    + intros _. split; [done|]. by exists t.
    + intros (_ & t' & [= <-] & ?). lia.
Qed.

Lemma record_rule_witness :
  reported (createUserRecordSchema Example.runtime)
    (list_to_map [("value", VNum (Num 100000.5))]) "value" = []
  <-> exists q, VNum (Num 100000.5) = VNum (Num q)
                /\ (0 < q)%Q /\ (q <= inject_Z 100000)%Q.
Proof.
  refine (proj1 (record_rule Example.runtime
                   (list_to_map [("value", VNum (Num 100000.5))]))
            (VNum (Num 100000.5)) _).
  reflexivity.
Defined.

(** ** What a pagination query becomes *)

Section ParsedNumbers.

Lemma double_of_Z_gt z : Js.gt (double_of_Z z) (of_Z 0) = true -> 0 < z.
Proof.
  unfold double_of_Z. destruct (Z.abs z <? 2 ^ 53) eqn:Hsmall.
  - unfold Js.gt. rewrite lt_of_Z. by intros ?%Z.ltb_lt.
  - destruct (Z.lt_trichotomy z 0) as [Hz|[->|Hz]]; [|done..].
    set (e := Z.log2 (Z.abs z) - 52).
    assert (0 <= 2 ^ e) as Hpow by (apply Z.pow_nonneg; lia).
    assert (0 <= Z.abs z / 2 ^ e) as Hq.
    { destruct (decide (2 ^ e = 0)) as [->|]; [by rewrite Z.div_0_r|].
      apply Z.div_pos; lia. }
    set (q' := if (_ || _)%bool then _ else _).
    assert (0 <= q') as Hq' by (unfold q'; case_match; lia).
    destruct (2 ^ 1024 <=? q' * 2 ^ e).
    + assert ((z <? 0) = true) as -> by (apply Z.ltb_lt; lia). done.
    + unfold Js.gt. rewrite lt_of_Z. intros Hv%Z.ltb_lt.
      rewrite Z.sgn_neg in Hv by done. nia.
Qed.

Lemma double_of_Z_at_most z b :
  0 < z -> 0 <= b < 2 ^ 53 ->
  Js.le (double_of_Z z) (of_Z b) = true ->
  z <= b /\ double_of_Z z = of_Z z.
Proof.
  intros Hz Hb. unfold double_of_Z.
  destruct (Z.abs z <? 2 ^ 53) eqn:Hsmall.
  - rewrite le_of_Z. by intros ?%Z.leb_le.
  - apply Z.ltb_ge in Hsmall. rewrite Z.abs_eq in * by lia.
    set (e := Z.log2 z - 52).
    assert (0 < e) as He.
    { unfold e. assert (53 <= Z.log2 z); [|lia].
      apply Z.log2_le_pow2; lia. }
    assert (2 <= 2 ^ e) as Hpow.
    { change 2 with (2 ^ 1) at 1. apply Z.pow_le_mono_r; lia. }
    assert (2 ^ 52 <= z / 2 ^ e) as Hq.
    { apply Z.div_le_lower_bound; [lia|].
      rewrite <- Z.pow_add_r by lia.
      replace (e + 52) with (Z.log2 z) by (unfold e; lia).
      apply Z.log2_spec. lia. }
    set (q' := if (_ || _)%bool then _ else _).
    assert (2 ^ 52 <= q') as Hq' by (unfold q'; case_match; lia).
    destruct (2 ^ 1024 <=? q' * 2 ^ e).
    + assert ((z <? 0) = false) as -> by (apply Z.ltb_ge; lia). done.
    + rewrite le_of_Z. intros Hv%Z.leb_le.
      rewrite Z.sgn_pos in Hv by done. nia.
Qed.

Lemma parseInt_cases s : parseInt s = NaN \/ exists z, parseInt s = double_of_Z z.
Proof.
  unfold parseInt.
  destruct (match trimStart s with
            | String "-" r => (-1, r)
            | String "+" r => (1, r)
            | _ => (1, trimStart s)
            end) as [sign digits].
  destruct (decimal_prefix digits) as [n|]; [right; by eexists|by left].
Qed.

Lemma parsed_number d check msg x :
  status ((z_string no_params [] |> optional |> default d
           |> transform parseInt10 |> refine check msg) x) = valid ->
  exists s,
    (x = Some (VStr s) \/ x = None /\ d = VStr s)
    /\ Zod.value ((z_string no_params [] |> optional |> default d
                   |> transform parseInt10 |> refine check msg) x)
       = Some (VNum (parseInt s))
    /\ check (Some (VNum (parseInt s))) = true.
Proof.
  intros Hst. apply refine_valid in Hst as (Hst & Hc & Hv).
  rewrite Hv. clear Hv. revert Hst Hc. unfold transform, default, optional.
  destruct x as [[| | |s| |]|]; try done.
  - cbn. intros _ Hc. exists s. by split_and!; [left|..].
  - destruct d as [| | |s| |]; try done.
    cbn. intros _ Hc. exists s. by split_and!; [right|..].
Qed.

End ParsedNumbers.

(** X19.  What the handler after [validateQuery(paginationQuerySchema)]
    can rely on: in every query the schema resolves with, page is a number
    that is not NaN and greater than 0 (the double of a positive integer),
    limit is an integer from 1 to 100, order is 'asc' or 'desc', sortBy is
    what the query had (nothing, or a string of at most 50 characters) and
    there is no other key. *)
Theorem pagination_output m out :
  parseAsync paginationQuerySchema (Some (VObj m)) = Resolved (Some (VObj out)) ->
  (exists z, 0 < z /\ out !! "page" = Some (VNum (double_of_Z z)))
  /\ (exists z, 1 <= z <= 100 /\ out !! "limit" = Some (num z))
  /\ (out !! "order" = Some (VStr "asc") \/ out !! "order" = Some (VStr "desc"))
  /\ out !! "sortBy" = m !! "sortBy"
  /\ (out !! "sortBy" = None
      \/ exists s, out !! "sortBy" = Some (VStr s) /\ (String.length s <= 50)%nat)
  /\ (forall k, k ∉ ["page"; "limit"; "sortBy"; "order"] -> out !! k = None).
Proof.
  intros Hout. pose proof pagination_well_keyed as Hwk. split_and!.
  - lookup_out "page" Hwk Hout Hst Hv. rewrite Hv.
    apply parsed_number in Hst as (s & _ & -> & Hc). unfold page_ok in Hc.
    destruct (parseInt_cases s) as [Hn|[z Hz]]; rewrite ?Hn, ?Hz in *; [done|].
    apply andb_true_iff in Hc as [_ Hc]. exists z. split; [|done].
    by apply double_of_Z_gt.
  - lookup_out "limit" Hwk Hout Hst Hv. rewrite Hv.
    apply parsed_number in Hst as (s & _ & -> & Hc). unfold limit_ok in Hc.
    destruct (parseInt_cases s) as [Hn|[z Hz]]; rewrite ?Hn, ?Hz in *; [done|].
    apply andb_true_iff in Hc as [[_ Hgt]%andb_true_iff Hle].
    apply double_of_Z_gt in Hgt.
    apply double_of_Z_at_most in Hle as [Hle ->]; [|done|lia].
    exists z. split; [lia|done].
  - lookup_out "order" Hwk Hout Hst Hv. rewrite Hv. revert Hst. clear.
    unfold default, optional, z_enum.
    destruct (m !! "order") as [[| | |s| |]|]; try done; [|by left].
    case_bool_decide as Hs; [|done]. intros _.
    apply elem_of_cons in Hs as [->|Hs]; [by left|].
    apply elem_of_cons in Hs as [->|Hs]; [by right|].
    by apply elem_of_nil in Hs.
  - lookup_out "sortBy" Hwk Hout Hst Hv. rewrite Hv. revert Hst.
    destruct (m !! "sortBy") as [v|]; [|done]. cbn [optional].
    by apply keeps_z_string.
  - lookup_out "sortBy" Hwk Hout Hst Hv. rewrite Hv. revert Hst. clear.
    destruct (m !! "sortBy") as [[| | |s| |]|]; try done; [|by left].
    unfold optional, z_string. cbn [string_checks string_check].
    unfold str_length. destruct (Z.ltb_spec 50 (Z.of_nat (String.length s))); [done|].
    intros _. right. exists s. split; [done|lia].
  - intros k Hk. by eapply resolved_undeclared.
Qed.

Lemma pagination_output_witness :
  let out : gmap string Js.value :=
    list_to_map [("page", num 2); ("limit", num 10); ("order", VStr "asc")] in
  (exists z, 0 < z /\ out !! "page" = Some (VNum (double_of_Z z)))
  /\ (exists z, 1 <= z <= 100 /\ out !! "limit" = Some (num z)).
Proof.
  intros out.
  assert (Hout : parseAsync paginationQuerySchema
                   (Some (VObj (list_to_map [("page", VStr "2")])))
                 = Resolved (Some (VObj out))) by (by vm_compute).
  destruct (pagination_output _ _ Hout) as (Hpage & Hlimit & _).
  by split.
Defined.

(** ** What a new user becomes *)

Lemma optional_enum_output values msg x :
  status (optional (z_enum values (error_map msg)) x) = valid ->
  Zod.value (optional (z_enum values (error_map msg)) x) = x
  /\ (x = None \/ exists s, x = Some (VStr s) /\ s ∈ values).
Proof.
  destruct x as [v|]; [|by split; [|left]]. cbn [optional]. intros Hst.
  destruct (z_enum_with_error_map values msg (Some v)) as (Hiff & Hv & _).
  split; [by apply Hv|]. right. apply Hiff in Hst as (s & [= ->] & Hs).
  by exists s.
Qed.

(** X20.  What the handler after [validateBody(createUserSchema)] can
    rely on: in every body the schema resolves with, id is the id sent, a
    positive integer; first_name is the name sent (of 1 to 100 characters),
    trimmed; role and language are what was sent, a member of [UserRole],
    respectively [UserLanguage], or nothing: the schema fills in no default;
    and there is no key but the seven declared. *)
Theorem create_user_output rt m out :
  parseAsync (createUserSchema rt) (Some (VObj m)) = Resolved (Some (VObj out)) ->
  (exists q, m !! "id" = Some (VNum (Num q)) /\ out !! "id" = Some (VNum (Num q))
             /\ isInteger (Num q) = true /\ (0 < q)%Q)
  /\ (exists s, m !! "first_name" = Some (VStr s)
                /\ out !! "first_name" = Some (VStr (Js.trim s))
                /\ (1 <= String.length s <= 100)%nat)
  /\ out !! "role" = m !! "role"
  /\ (out !! "role" = None
      \/ exists r, out !! "role" = Some (VStr r) /\ r ∈ Database.UserRole)
  /\ out !! "language" = m !! "language"
  /\ (out !! "language" = None
      \/ exists l, out !! "language" = Some (VStr l) /\ l ∈ Database.UserLanguage)
  /\ (forall k,
        k ∉ ["id"; "first_name"; "username"; "last_name"; "photo_url"; "role";
             "language"] ->
        out !! k = None).
Proof.
  intros Hout.
  assert (Hwk : well_keyed (createUserSchema rt)) by keyed "createUser".
  split_and!.
  - lookup_out "id" Hwk Hout Hst Hv.
    pose proof (keeps_z_number _ _ _ Hst) as Hk. rewrite Hk in Hv.
    apply valid_iff_quiet in Hst; [|auto with zod].
    destruct (m !! "id") as [v|]; [|done].
    apply int_positive_quiet in Hst as (q & -> & Hi & Hq). by exists q.
  - lookup_out "first_name" Hwk Hout Hst Hv. rewrite Hv. revert Hst. clear.
    destruct (m !! "first_name") as [[| | |s| |]|]; try done.
    unfold z_string. cbn [string_checks string_check min max trim].
    unfold str_length.
    destruct (Z.ltb_spec (Z.of_nat (String.length s)) 1); [done|].
    destruct (Z.ltb_spec 100 (Z.of_nat (String.length s))); [done|].
    intros _. exists s. split_and!; [done..|lia|lia].
  - lookup_out "role" Hwk Hout Hst Hv. rewrite Hv.
    by apply optional_enum_output.
  - lookup_out "role" Hwk Hout Hst Hv. rewrite Hv.
    apply optional_enum_output in Hst as [-> Hr]. exact Hr.
  - lookup_out "language" Hwk Hout Hst Hv. rewrite Hv.
    by apply optional_enum_output.
  - lookup_out "language" Hwk Hout Hst Hv. rewrite Hv.
    apply optional_enum_output in Hst as [-> Hr]. exact Hr.
  - intros k Hk. by eapply resolved_undeclared.
Qed.

Lemma create_user_output_witness :
  let m : gmap string Js.value :=
    list_to_map [("id", num 7); ("first_name", VStr " Ann ")] in
  let out : gmap string Js.value :=
    list_to_map [("id", num 7); ("first_name", VStr "Ann")] in
  out !! "role" = m !! "role".
Proof.
  intros m out.
  assert (Hout : parseAsync (createUserSchema Example.runtime) (Some (VObj m))
                 = Resolved (Some (VObj out))) by (by vm_compute).
  exact (proj1 (proj2 (proj2 (create_user_output _ _ _ Hout)))).
Defined.

(** * The server and the type guards *)

Section ServerModes.

Lemma node_env_is_spec env mode :
  Server.node_env_is env mode = true <-> NODE_ENV env = Some mode.
Proof.
  unfold Server.node_env_is. destruct (NODE_ENV env) as [v|]; [|done].
  rewrite String.eqb_eq. split; [by intros ->|by intros [= ->]].
Qed.

End ServerModes.

(** X21.  The global error handler always answers 500 with the code
    INTERNAL_ERROR.  It hides the text of the error only when NODE_ENV is
    exactly "production": the response is then the same for every error.
    In every other setting, also when NODE_ENV is not set, the message of
    the error is sent to the client.  The stack is sent only when NODE_ENV
    is exactly "development". *)
Theorem error_text_hidden_only_in_production env err :
  let res := Server.globalErrorHandler env err in
  Server.statusCode res = 500
  /\ Server.code (Server.json res) = "INTERNAL_ERROR"
  /\ (NODE_ENV env = Some "production" ->
      res = {| Server.statusCode := 500;
               Server.json := {| Server.success := false;
                                 Server.message := "Internal server error";
                                 Server.code := "INTERNAL_ERROR";
                                 Server.stack := None |} |})
  /\ (NODE_ENV env <> Some "production" ->
      Server.message (Server.json res) = Server.err_message err)
  /\ (NODE_ENV env = Some "development" ->
      Server.stack (Server.json res) = Server.err_stack err)
  /\ (NODE_ENV env <> Some "development" ->
      Server.stack (Server.json res) = None).
Proof.
  cbn. split_and!; try done.
  - intros Hp. unfold Server.globalErrorHandler.
    rewrite (proj2 (node_env_is_spec env "production") Hp).
    destruct (Server.node_env_is env "development") eqn:Hd; [|done].
    apply node_env_is_spec in Hd. congruence.
  - intros Hp. destruct (Server.node_env_is env "production") eqn:Hd; [|done].
    by apply node_env_is_spec in Hd.
  - intros Hd. by rewrite (proj2 (node_env_is_spec env "development") Hd).
  - intros Hd. destruct (Server.node_env_is env "development") eqn:Hd'; [|done].
    by apply node_env_is_spec in Hd'.
Qed.

Lemma error_text_hidden_only_in_production_witness :
  Server.message
    (Server.json
       (Server.globalErrorHandler {| NODE_ENV := None |}
          {| Server.err_message := "connect ECONNREFUSED 10.0.0.5:5432";
             Server.err_stack := None |}))
  = "connect ECONNREFUSED 10.0.0.5:5432".
Proof.
  refine (proj1 (proj2 (proj2 (proj2
            (error_text_hidden_only_in_production {| NODE_ENV := None |}
               {| Server.err_message := "connect ECONNREFUSED 10.0.0.5:5432";
                  Server.err_stack := None |})))) _).
  discriminate.
Defined.

(** X22.  The server has three tests of its mode and they do not agree.
    [/health] reports the environment "development" when NODE_ENV is not
    set, when it is empty and when it is "development"; the request logger
    and the stack in error responses are on only when it is exactly
    "development".  So a server started without NODE_ENV reports
    "development", logs no request, sends no stack, and sends the message
    of every unhandled error. *)
Theorem development_is_three_tests env err :
  (Server.environment env = "development"
   <-> NODE_ENV env = None \/ NODE_ENV env = Some ""
       \/ NODE_ENV env = Some "development")
  /\ (Server.requestLogging env = true <-> NODE_ENV env = Some "development")
  /\ (NODE_ENV env = None \/ NODE_ENV env = Some "" ->
      Server.environment env = "development"
      /\ Server.requestLogging env = false
      /\ Server.stack (Server.json (Server.globalErrorHandler env err)) = None
      /\ Server.message (Server.json (Server.globalErrorHandler env err))
         = Server.err_message err).
Proof.
  split_and!.
  - unfold Server.environment. destruct (NODE_ENV env) as [v|]; [|by split; [left|]].
    destruct (String.eqb_spec v "") as [->|Hv].
    + split; [by right; left|done].
    + split; [intros ->; by right; right|].
      by intros [[=]|[[= ->]|[= ->]]].
  - apply node_env_is_spec.
  - intros [Hn|Hn]; unfold Server.environment, Server.requestLogging,
      Server.globalErrorHandler, Server.node_env_is; by rewrite Hn.
Qed.

Lemma development_is_three_tests_witness :
  Server.environment {| NODE_ENV := None |} = "development"
  /\ Server.requestLogging {| NODE_ENV := None |} = false.
Proof.
  destruct (proj2 (proj2 (development_is_three_tests {| NODE_ENV := None |}
                            {| Server.err_message := "boom";
                               Server.err_stack := Some "at main" |}))
              (or_introl eq_refl)) as (He & Hl & _).
  by split.
Defined.

Section Guards.

Lemma role_is_spec user role :
  Database.role_is user role = true <-> user !! "role" = Some (VStr role).
Proof.
  unfold Database.role_is. destruct (user !! "role") as [[| | |s| |]|]; try done.
  rewrite String.eqb_eq. split; [by intros ->|by intros [= ->]].
Qed.

End Guards.

(** X23.  The three type guards read the role alone.
    [hasElevatedPrivileges] holds exactly when [isCoach] or [isAdmin]
    does, and these two never hold together.  For a user whose role is one
    that [userRoleSchema] accepts, it fails exactly for the athletes; a user
    without a role, or with a role in another spelling, passes none of the
    guards. *)
Theorem elevated_privileges user :
  Database.hasElevatedPrivileges user
  = Database.isCoach user || Database.isAdmin user
  /\ Database.isCoach user && Database.isAdmin user = false
  /\ (status (userRoleSchema (user !! "role")) = valid ->
      Database.hasElevatedPrivileges user = false
      <-> user !! "role" = Some (VStr "athlete"))
  /\ (status (userRoleSchema (user !! "role")) <> valid ->
      Database.hasElevatedPrivileges user = false
      /\ Database.isCoach user = false /\ Database.isAdmin user = false).
Proof.
  unfold Database.hasElevatedPrivileges, Database.isCoach, Database.isAdmin.
  split_and!; [done|..].
  - destruct (Database.role_is user "coach") eqn:Hc; [|done].
    destruct (Database.role_is user "admin") eqn:Ha; [|done].
    apply role_is_spec in Hc, Ha. congruence.
  - intros Hst.
    destruct (z_enum_with_error_map ["athlete"; "coach"; "admin"]
                "Role must be athlete, coach, or admin" (user !! "role"))
      as [Hiff _].
    apply Hiff in Hst as (s & Hs & Hin). unfold Database.role_is. rewrite Hs.
    repeat (apply elem_of_cons in Hin as [->|Hin]);
      [..|by apply elem_of_nil in Hin]; by split.
  - intros Hst.
    assert (Hno : forall role, role ∈ Database.UserRole ->
                    Database.role_is user role = false).
    { intros role Hin. destruct (Database.role_is user role) eqn:Hr; [|done].
      apply role_is_spec in Hr. destruct Hst.
      apply (z_enum_with_error_map Database.UserRole
               "Role must be athlete, coach, or admin"). by exists role. }
    rewrite !Hno; [done|is_member..].
Qed.

Lemma elevated_privileges_witness :
  Database.hasElevatedPrivileges (list_to_map [("role", VStr "Coach")]) = false.
Proof.
  refine (proj1 (proj2 (proj2 (proj2
            (elevated_privileges (list_to_map [("role", VStr "Coach")])))) _)).
  by vm_compute.
Defined.

(** * Text fields *)

Lemma max_trim_issues p b mb s :
  map Zod.message
    (concat (issues (z_string p [max b mb; trim] (Some (VStr s)))))
  = if b <? str_length s then [mb] else [].
Proof.
  unfold z_string. cbn [string_checks string_check max trim].
  destruct (b <? str_length s); reflexivity.
Qed.

Lemma min_max_trim_value p a ma b mb s :
  Zod.value (z_string p [min a ma; max b mb; trim] (Some (VStr s)))
  = Some (VStr (Js.trim s)).
Proof.
  unfold z_string. cbn [string_checks string_check min max trim].
  by destruct (str_length s <? a), (b <? str_length s).
Qed.

Lemma max_trim_value p b mb s :
  Zod.value (z_string p [max b mb; trim] (Some (VStr s)))
  = Some (VStr (Js.trim s)).
Proof.
  unfold z_string. cbn [string_checks string_check max trim].
  by destruct (b <? str_length s).
Qed.

Ltac table_cases H :=
  repeat (apply elem_of_cons in H as [[= -> -> ->]|H]);
  [..|by apply elem_of_nil in H].

(** X24.  The text fields that a schema of the registry bounds in length
    and trims (sixteen of them, from first_name to unit), when the payload
    holds a string for them: nothing is reported exactly when the length of
    the string as sent, white space included, is within the bounds; the
    string is passed on trimmed, so that it can be shorter than the least
    length. *)
Theorem text_field_rule rt name o k lo hi m s :
  (name, o) ∈ userSchemas rt ->
  (k, lo, hi) ∈ text_fields name ->
  m !! k = Some (VStr s) ->
  (reported o m k = [] <-> lo <= str_length s <= hi)
  /\ (forall out,
        parseAsync o (Some (VObj m)) = Resolved (Some (VObj out)) ->
        out !! k = Some (VStr (Js.trim s))).
Proof.
  intros Hin Hk Hm. pose proof (registry_well_keyed _ _ _ Hin) as Hwk.
  assert (Hlen : 0 <= str_length s) by (unfold str_length; lia).
  registry_cases Hin; cbn in Hk; table_cases Hk;
    (split;
     [ (erewrite reported_eq; [|exact Hwk|in_shape]); rewrite Hm;
       cbn [nullable optional];
       rewrite ?min_max_trim_issues, ?max_trim_issues;
       repeat match goal with
              | |- context [?a <? ?b] => destruct (Z.ltb_spec a b)
              end;
       cbn [app]; split; try done; intros; lia
     | intros out Hout;
       match type of Hm with
       | _ !! ?key = _ => lookup_out key Hwk Hout Hst Hv
       end;
       rewrite Hm in Hv; rewrite Hv; cbn [nullable optional];
       first [apply min_max_trim_value|apply max_trim_value] ]).
Qed.

Lemma text_field_rule_witness :
  reported (createUserRecordSchema Example.runtime)
    (list_to_map [("unit", VStr "   kg   ")]) "unit" = []
  <-> 0 <= str_length "   kg   " <= 20.
Proof.
  refine (proj1 (text_field_rule Example.runtime "createUserRecord"
                   (createUserRecordSchema Example.runtime) "unit" 0 20
                   (list_to_map [("unit", VStr "   kg   ")]) "   kg   " _ _ _)).
  - in_registry.
  - is_member.
  - reflexivity.
Defined.

(** * One handler for several payloads, or one handler each *)

Lemma validateMultiple_next schemas race env req req' :
  validateMultiple schemas race env req = Next req'
  <-> filter (fun p => is_rejection p = true) (validationPromises schemas req) = []
      /\ req' = commit (validationPromises schemas req) req.
Proof.
  unfold validateMultiple.
  destruct (filter _ (validationPromises schemas req)) as [|r rs].
  - split; [by intros [= <-]|by intros [_ ->]].
  - split; [|by intros [? _]].
    by destruct (nth _ _ _).2.
Qed.

(** X25.  [validateMultiple] calls [next()] exactly when the chain of
    the single handlers does ([validate] for the body, then for the params,
    then for the query, each only if its schema is given), and with the same
    request: a handler of the chain writes its own target only, so that the
    next one reads what it would have read at the start. *)
Theorem validateMultiple_as_a_chain schemas race env req req' :
  validateMultiple schemas race env req = Next req'
  <-> and_then (validate_if (for_body schemas) Body env)
        (and_then (validate_if (for_params schemas) Params env)
           (validate_if (for_query schemas) Query env)) req
      = Next req'.
Proof.
  etransitivity; [apply validateMultiple_next|].
  unfold validationPromises, and_then, validate_if, validate.
  destruct schemas as [[sb|] [sp|] [sq|]];
    repeat (cbn [for_body for_params for_query get set body params query];
            match goal with
            | |- context [?s (?f req)] =>
                is_var s; destruct (s (f req)) eqn:?
            end);
    cbn; rewrite ?decide_True, ?decide_False by done; cbn;
    (split; [intros [? ->]|intros [= <-]]); done.
Qed.

(** * Worked examples *)

Example weight_bounds :
  update_issues "weight_kg" (num 20) = []
  /\ update_issues "weight_kg" (num 300) = []
  /\ update_issues "weight_kg" (VNum (Num 19.999)) = ["Weight must be at least 20 kg"]
  /\ update_issues "weight_kg" (VNum (Num 300.001)) = ["Weight must be at most 300 kg"].
Proof. by vm_compute. Qed.

Example height_bounds :
  update_issues "height_cm" (num 50) = []
  /\ update_issues "height_cm" (num 250) = []
  /\ update_issues "height_cm" (num 49) = ["Height must be at least 50 cm"]
  /\ update_issues "height_cm" (num 251) = ["Height must be at most 250 cm"]
  /\ update_issues "height_cm" (VNum (Num 170.5)) = ["Height must be an integer"].
Proof. by vm_compute. Qed.

Example email_is_checked_before_it_is_trimmed :
  update_issues "email" (VStr " ann@example.com ") = ["Invalid email format"]
  /\ parseAsync (updateUserSchema Example.runtime)
       (obj [("id", num 7); ("email", VStr "ann@example.com")])
     = Resolved (obj [("id", num 7); ("email", VStr "ann@example.com")]).
Proof. by vm_compute. Qed.

Example phone_numbers :
  Regex.test Patterns.phone_re "+38 (044) 1234567" = true
  /\ Regex.test Patterns.phone_re "044-123-4567" = true
  /\ Regex.test Patterns.phone_re "+38 (044) 1234567 " = false
  /\ Regex.test Patterns.phone_re "phone" = false.
Proof. by vm_compute. Qed.

Example timezones :
  Regex.test Patterns.timezone_re "Europe/Kiev" = true
  /\ Regex.test Patterns.timezone_re "America/Argentina/Salta" = false
  /\ Regex.test Patterns.timezone_re "UTC" = false.
Proof. by vm_compute. Qed.

(** Any 64 lower-case hexadecimal digits pass the hash check of login;
    upper case does not. *)
Example login_hash :
  Regex.test Patterns.hash_re
    "0123456789abcdef0123456789abcdef0123456789abcdef0123456789abcdef" = true
  /\ Regex.test Patterns.hash_re
       "0123456789ABCDEF0123456789abcdef0123456789abcdef0123456789abcdef" = false
  /\ Regex.test Patterns.hash_re "0123456789abcdef" = false.
Proof. by vm_compute. Qed.

(** A missing role or language stays missing: the schema invents no
    default for them. *)
Example create_user_has_no_defaults :
  parseAsync (createUserSchema Example.runtime)
    (obj [("id", num 7); ("first_name", VStr "Ann"); ("is_admin", VBool true)])
  = Resolved (obj [("id", num 7); ("first_name", VStr "Ann")]).
Proof. by vm_compute. Qed.

(** The pagination query is normalised to numbers. *)
Example pagination_defaults :
  parseAsync paginationQuerySchema (obj [("page", VStr "2")])
  = Resolved (obj [("page", num 2); ("limit", num 10); ("order", VStr "asc")]).
Proof. by vm_compute. Qed.

(** The output that a blank first_name leaves is not accepted again. *)
Example blank_first_name_not_accepted_again :
  parseAsync (createUserSchema Example.runtime) (obj [("id", num 1); ("first_name", VStr "")])
  = Rejected
      {| first_error :=
           {| code := too_small; path := ["first_name"];
              Zod.message := "First name must be at least 1 character";
              received := None |};
         more_errors := [] |}.
Proof. by vm_compute. Qed.

(** A login whose hash and auth_date both fail: the hash, declared last,
    is reported first. *)
Example login_issue_order :
  map Zod.message
    (parse_object (loginSchema Example.runtime)
       (obj [("id", num 7); ("first_name", VStr "Ann");
             ("auth_date", num 1600000000); ("hash", VStr "abc")])).2
  = ["Invalid hash format"; "Hash must be a valid SHA-256 hex string";
     "Authentication date is invalid or expired"].
Proof. by vm_compute. Qed.

(** [parseInt] on some strings. *)
Example parseInt_examples :
  parseInt "42" = of_Z 42
  /\ parseInt "  -7px" = of_Z (-7)
  /\ parseInt "10.5" = of_Z 10
  /\ parseInt "abc" = NaN
  /\ parseInt "" = NaN
  /\ parseInt "9007199254740993" = of_Z 9007199254740992.
Proof. by vm_compute. Qed.

(** A fault beside a [ZodError]: the answer depends on which comes first. *)
Example a_fault_beside_a_rejection :
  let schemas :=
    {| for_body := Some (fun _ => Threw "boom");
       for_params := Some (parseAsync paginationQuerySchema);
       for_query := None |} in
  let req :=
    {| body := obj []; params := obj [("page", VStr "0")]; query := None |} in
  let run race := validateMultiple schemas race {| NODE_ENV := None |} req in
  run 0%nat = Sent req internal_error
  /\ run 1%nat
     = Sent req
         (validation_failed
            [{| field := "page"; message := "Page must be a positive number";
                Middleware.value := None |}]).
Proof. by vm_compute. Qed.

(** What login accepted, it rejects one second later. *)
Example login_output_expires :
  let payload :=
    obj [("id", num 7); ("first_name", VStr "Ann");
         ("auth_date", num 1699999700);
         ("hash", VStr "0123456789abcdef0123456789abcdef0123456789abcdef0123456789abcdef")] in
  let later :=
    {| now := now Example.runtime + 1000;
       Date_parse := Date_parse Example.runtime;
       isUrl := isUrl Example.runtime;
       isEmail := isEmail Example.runtime;
       isDatetime := isDatetime Example.runtime |} in
  parseAsync (loginSchema Example.runtime) payload = Resolved payload
  /\ parseAsync (loginSchema later) payload
     = Rejected
         {| first_error :=
              {| code := custom; path := ["auth_date"];
                 Zod.message := "Authentication date is invalid or expired";
                 received := None |};
            more_errors := [] |}.
Proof. by vm_compute. Qed.
